(** * Trade From Chart: the brokerage account model

    A shallow embedding of [STX.Account] and [STX.Account.Demo]
    (the order, trade and position state machine of the Trade From Chart
    overlay), with the properties of its specification.

    Conventions of the embedding.
    - A JavaScript object used as a dictionary is a [gmap] with string keys;
      an array is a [list].  Loops that [splice] while they iterate are
      written as the recursion over the list they amount to.
    - An absent property ([undefined]) is [None].
    - Numbers.  The source computes in IEEE 754 doubles.  [Demo] keeps
      share quantities as integers ([Z]) and prices and cash as exact
      rationals ([Q]), the result of [toFixed(2)] being identified with the
      rational it denotes.  On quantities this is the arithmetic of the
      source as long as they are integers and the magnitudes involved add up
      to at most 2^53 ([exactQuantities]), and [Demo] is used for what does
      not depend on rounding.  [Binary64] is [execute] over doubles (the
      primitive floats of Rocq, which are binary64), with [toFixed(2)] as
      the decimal string it makes; it is used for what does depend on
      rounding.
    - A run-time [TypeError] (a property read on [undefined]) is [None] in
      the result of an operation; what the account looks like after the
      exception is not described.
    - The host services the code calls ([STX.uniqueID], [Date], the
      comparison of a string with [true]) are fields of a [Host] record.
    - Every completion callback is invoked in tail position; an operation
      returns the list of the argument lists it passed to [cb]. *)

From Stdlib Require Import ZArith QArith Qround Qabs String List Lia Lqa Floats.
From stdpp Require Import base option list gmap strings fin_maps pretty.

Local Open Scope string_scope.
Local Open Scope Z_scope.
#[local] Set Warnings "-register-all,-inexact-float".

(** ** JavaScript values *)

(** [s.indexOf(pat)], with [-1] when [pat] does not occur. *)
Definition indexOf (s pat : string) : Z :=
  match String.index 0 pat s with
  | Some n => Z.of_nat n
  | None => -1
  end.

(** Truthiness of an optional number: present and not zero. *)
Definition truthyQ (x : option Q) : bool :=
  match x with
  | Some q => negb (Qeq_bool q 0)
  | None => false
  end.

(** Truthiness of an optional string: present and not empty. *)
Definition truthyS (x : option string) : bool :=
  match x with
  | Some s => negb (String.eqb s "")
  | None => false
  end.

(** [a == b] on two optional strings ([undefined == undefined] holds). *)
Definition looseEq (a b : option string) : bool :=
  match a, b with
  | Some x, Some y => String.eqb x y
  | None, None => true
  | _, _ => false
  end.

(** [x.toFixed(2)]: the multiple of 1/100 nearest to [x], ties away from
    zero (the sign is split off before rounding). *)
Definition toFixed2 (x : Q) : Q :=
  if Qle_bool 0 x
  then Qmake (Qfloor (x * 100 + (1 # 2))%Q) 100
  else Qmake (- Qfloor ((- x) * 100 + (1 # 2))%Q) 100.

(** ** The abstract account *)

Module Account.

Record Tradability := mkTradability {
  tradable : bool;
  shortable : bool;
  marketable : bool;
  decimalPrecision : option Z
}.

Definition isIndex (symbol : string) : bool :=
  if negb (Z.eqb (indexOf symbol "$") (-1)) then true
  else if negb (Z.eqb (indexOf symbol "^") (-1)) then
    if Nat.eqb (String.length symbol) 7 then false (* forex symbol *)
    else true
  else false.

(** [tradability(symbol, cb)]: the record handed to [cb]. *)
Definition tradability (symbol : option string) : Tradability :=
  let t := mkTradability true true true None in
  if negb (truthyS symbol) then
    mkTradability false (shortable t) (marketable t) (decimalPrecision t)
  else
    match symbol with
    | Some s =>
        if isIndex s
        then mkTradability false (shortable t) (marketable t) (decimalPrecision t)
        else t
    | None => t
    end.

(** The policy as the specification words it: not tradable exactly when
    the symbol is absent, contains a dollar sign, or has seven characters
    and contains a caret. *)
Definition spec_untradable (symbol : option string) : bool :=
  match symbol with
  | None => true
  | Some s =>
      negb (Z.eqb (indexOf s "$") (-1))
      || (Nat.eqb (String.length s) 7 && negb (Z.eqb (indexOf s "^") (-1)))
  end.

End Account.

(** ** The demo account *)

Module Demo.

(** *** Records *)

(** The [oco] property of an order: the id of the sibling, the literal
    [true] of a single leg, or [null] once the pairing is severed. *)
Inductive Oco :=
| OcoId (id : string)
| OcoTrue
| OcoNull.

Inductive Order := mkOrder {
  ord_id : option string;
  ord_symbol : option string;
  ord_action : string;
  ord_quantity : Z;
  ord_limit : option Q;
  ord_stop : option Q;
  ord_marketIfTouched : option Q;
  ord_tif : string;
  ord_currency : option string;
  ord_tradeid : option string;
  ord_vspId : option string;
  ord_oco : option Oco;
  ord_oto : option (list Order)
}.

Record Protect := mkProtect {
  prot_limit : option Q;
  prot_stop : option Q
}.

Record Trade := mkTrade {
  trd_id : string;
  trd_time : Z;
  trd_quantity : Z;
  trd_basis : Q;
  trd_price : Q;
  trd_currency : option string;
  trd_protect : option Protect
}.

Record Position := mkPosition {
  pos_quantity : Z;
  pos_basis : Q;
  pos_price : Q;
  pos_prevClose : Q;
  pos_currency : option string;
  pos_symbol : option string
}.

Record Balances := mkBalances {
  liquidity : Q;
  cash : Q;
  unsettledCash : Q;
  profitLoss : Q;
  buyingPower : Q
}.

(** The account object.  [idcalls] counts the calls made to
    [STX.uniqueID] so far; it is the only state of the host that the
    account operations advance. *)
Record Account := mkAccount {
  balances : Balances;
  positions : gmap string Position;
  trades : gmap string (list Trade);
  openOrders : gmap string (list Order);
  idcalls : nat
}.

(** What the code asks of its host page: the value of the n-th call of
    [STX.uniqueID()], the value of [new Date().getTime()] after n such
    calls, and the outcome of [s == true] for a string [s]. *)
Record Host := mkHost {
  uniqueID : nat -> string;
  getTime : nat -> Z;
  eqTrue : string -> bool
}.

(** One invocation of a completion callback, [cb(err, result)];
    [cb()] passes neither. *)
Inductive CbResult :=
| ResId (id : string)
| ResIds (ids : list string).

Record CbCall := mkCb {
  cb_err : option string;
  cb_result : option CbResult
}.

Definition cb0 : CbCall := mkCb None None.

(** A replace request: an [{old, new}] tuple per field. *)
Record Tuple (A : Type) := mkTuple {
  old : option A;
  new : option A
}.
Arguments mkTuple {A} _ _.
Arguments old {A} _.
Arguments new {A} _.

Record Replace := mkReplace {
  rep_id : option string;
  rep_limit : Tuple Q;
  rep_stop : Tuple Q;
  rep_marketIfTouched : Tuple Q;
  rep_quantity : Z * Z;
  rep_tif : string * string;
  rep_oto : option (Tuple (list Order))
}.

(** The argument of [placeOrder]: one order, or an array of orders. *)
Inductive OrderRequest :=
| One (order : Order)
| Many (orders : list Order).

(** *** Field updates *)

Definition withId (id : option string) (o : Order) : Order :=
  mkOrder id (ord_symbol o) (ord_action o) (ord_quantity o) (ord_limit o)
    (ord_stop o) (ord_marketIfTouched o) (ord_tif o) (ord_currency o)
    (ord_tradeid o) (ord_vspId o) (ord_oco o) (ord_oto o).

Definition withOco (oco : option Oco) (o : Order) : Order :=
  mkOrder (ord_id o) (ord_symbol o) (ord_action o) (ord_quantity o)
    (ord_limit o) (ord_stop o) (ord_marketIfTouched o) (ord_tif o)
    (ord_currency o) (ord_tradeid o) (ord_vspId o) oco (ord_oto o).

Definition withQuantity (q : Z) (o : Order) : Order :=
  mkOrder (ord_id o) (ord_symbol o) (ord_action o) q (ord_limit o)
    (ord_stop o) (ord_marketIfTouched o) (ord_tif o) (ord_currency o)
    (ord_tradeid o) (ord_vspId o) (ord_oco o) (ord_oto o).

Definition tradeWithQuantity (q : Z) (t : Trade) : Trade :=
  mkTrade (trd_id t) (trd_time t) q (trd_basis t) (trd_price t)
    (trd_currency t) (trd_protect t).

Definition tradeWithProtect (p : option Protect) (t : Trade) : Trade :=
  mkTrade (trd_id t) (trd_time t) (trd_quantity t) (trd_basis t)
    (trd_price t) (trd_currency t) p.

(** The property key [obj[symbol]] reads when [symbol] is undefined. *)
Definition keyOf (symbol : option string) : string :=
  match symbol with
  | Some s => s
  | None => "undefined"
  end.

(** [order.id == openOrder.oco]. *)
Definition idEqOco (h : Host) (id : option string) (oco : option Oco) : bool :=
  match id, oco with
  | Some s, Some (OcoId s') => String.eqb s s'
  | Some s, Some OcoTrue => eqTrue h s
  | Some _, _ => false
  | None, None => true
  | None, Some OcoNull => true
  | None, Some _ => false
  end.

(** [o.tradeid == trade.id]. *)
Definition protects (t : Trade) (o : Order) : bool :=
  looseEq (ord_tradeid o) (Some (trd_id t)).

(** *** execute *)

(** [quantity*=-1] for the actions that sell. *)
Definition signedQuantity (action : string) (quantity : Z) : Z :=
  if String.eqb action "sell" || String.eqb action "short"
  then quantity * -1 else quantity.

(** [order.action=="buy" || order.action=="short"]. *)
Definition opening (action : string) : bool :=
  String.eqb action "buy" || String.eqb action "short".

(** The rewriting of [order.action] against a short position. *)
Definition reclassify (position : Position) (action : string) : string :=
  if pos_quantity position <? 0 then
    if String.eqb action "buy" then "cover"
    else if String.eqb action "sell" then "short"
    else action
  else action.

(** The position part of [execute]: the new positions map and the action
    the order carries afterwards.  Where the old and the filled quantity
    cancel, JavaScript divides by zero and [toFixed] yields a non-number
    string; the position is deleted in that very case, so the quotient
    [Q] gives there is never stored. *)
Definition fillPosition (positions : gmap string Position) (symbol action : string)
    (quantity : Z) (price : Q) : gmap string Position * string :=
  match positions !! symbol with
  | None =>
      (<[symbol := mkPosition quantity price price price None None]> positions,
       action)
  | Some position =>
      let action := reclassify position action in
      let basis :=
        if opening action
        then toFixed2 (((inject_Z (pos_quantity position) * pos_basis position)
                        + (inject_Z quantity * price))
                       / inject_Z (pos_quantity position + quantity))%Q
        else pos_basis position in
      let quantity' := pos_quantity position + quantity in
      if quantity' =? 0
      then (delete symbol positions, action)
      else (<[symbol := mkPosition quantity' basis price (pos_prevClose position)
                           (pos_currency position) (pos_symbol position)]> positions,
            action)
  end.

(** [order.oto[i] && order.oto[i].f], as the value stored when truthy. *)
Definition legPrice (f : Order -> option Q) (oto : list Order) (i : nat) : option Q :=
  match oto !! i with
  | Some leg => if truthyQ (f leg) then f leg else None
  | None => None
  end.

Definition firstLegPrice (f : Order -> option Q) (oto : list Order) : option Q :=
  match legPrice f oto 0 with
  | Some x => Some x
  | None => legPrice f oto 1
  end.

(** [newTrade.protect], built from the order's [oto] legs. *)
Definition otoProtect (oto : option (list Order)) : option Protect :=
  match oto with
  | Some legs => Some (mkProtect (firstLegPrice ord_limit legs) (firstLegPrice ord_stop legs))
  | None => None
  end.

(** The loop over the lots of a closing fill.  [qty] is what is left to
    absorb, [oo] is [this.openOrders[order.symbol]], read only for a lot
    that carries a [protect] object (and a fault when absent then).
    Returns the residual, the lots that stay and the open orders. *)
Fixpoint consume (vspId : option string) (qty : Z) (lots : list Trade)
    (oo : option (list Order)) : option (Z * list Trade * option (list Order)) :=
  match lots with
  | [] => Some (qty, [], oo)
  | lot :: rest =>
      if truthyS vspId && negb (looseEq (Some (trd_id lot)) vspId) then
        match consume vspId qty rest oo with
        | Some (qty', rest', oo') => Some (qty', lot :: rest', oo')
        | None => None
        end
      else if Z.abs (trd_quantity lot) <=? Z.abs qty then
        match trd_protect lot, oo with
        | Some _, None => None
        | Some _, Some orders =>
            consume vspId (qty - trd_quantity lot) rest
              (Some (List.filter (fun o => negb (protects lot o)) orders))
        | None, _ => consume vspId (qty - trd_quantity lot) rest oo
        end
      else
        match trd_protect lot, oo with
        | Some _, None => None
        | Some _, Some orders =>
            Some (0, tradeWithQuantity (trd_quantity lot - qty) lot :: rest,
                  Some (map (fun o => if protects lot o
                                      then withQuantity (ord_quantity o - qty) o
                                      else o) orders))
        | None, _ =>
            Some (0, tradeWithQuantity (trd_quantity lot - qty) lot :: rest, oo)
        end
  end.

(** Removal of the first open order whose id is that of the filled one. *)
Fixpoint removeFilled (id : option string) (orders : list Order) : list Order :=
  match orders with
  | [] => []
  | o :: rest => if looseEq (ord_id o) id then rest else o :: removeFilled id rest
  end.

(** The protective orders synthesised for a new lot. *)
Definition protectiveOrders (uid tradeid action : string) (quantity : Z)
    (protect : Protect) : list Order :=
  let side := if String.eqb action "buy" then "sell" else "cover" in
  ((if truthyQ (prot_limit protect)
   then [mkOrder (Some (String.append uid "A")) None side (Z.abs quantity)
           (prot_limit protect) None None "GTC" None (Some tradeid) None
           (Some (if truthyQ (prot_stop protect)
                  then OcoId (String.append uid "B") else OcoNull))
           None]
   else [])
  ++
  (if truthyQ (prot_stop protect)
   then [mkOrder (Some (String.append uid "B")) None side (Z.abs quantity)
           None (prot_stop protect) None "GTC" None (Some tradeid) None
           (Some (if truthyQ (prot_limit protect)
                  then OcoId (String.append uid "A") else OcoNull))
           None]
   else []))%list.

Section WithHost.

Context (h : Host).

(** [execute(order, price)], in the order of the source: the cash, the
    position, the new trade and its [protect], the lots (a push for an
    opening action, the loop and its residual for a closing one), the
    removal of the filled open order, the protective orders of a protected
    new lot, and the deletion of an emptied open-order list.  It faults
    where the source reads the length of an absent open-order list. *)
Definition execute (s : Account) (order : Order) (price : Q) : option Account :=
  let symbol := keyOf (ord_symbol order) in
  let quantity := signedQuantity (ord_action order) (ord_quantity order) in
  let cash' := (cash (balances s) - inject_Z quantity * price)%Q in
  let balances' :=
    mkBalances (liquidity (balances s)) cash' (unsettledCash (balances s))
      (profitLoss (balances s)) (2 * cash')%Q in
  let '(positions', action) :=
    fillPosition (positions s) symbol (ord_action order) quantity price in
  let tradeid := uniqueID h (idcalls s) in
  let calls := S (idcalls s) in
  let protect := otoProtect (ord_oto order) in
  let newTrade q := mkTrade tradeid (getTime h calls) q price price None protect in
  let lots := default [] (trades s !! symbol) in
  let filled :=
    if opening action then
      Some (<[symbol := (lots ++ [newTrade quantity])%list]> (trades s),
            openOrders s !! symbol, Some quantity)
    else
      match consume (ord_vspId order) (quantity * -1) lots (openOrders s !! symbol) with
      | None => None
      | Some (qty, lots', oo) =>
          if qty =? 0 then
            Some (match lots' with
                  | [] => delete symbol (trades s)
                  | _ => <[symbol := lots']> (trades s)
                  end, oo, None)
          else
            Some (<[symbol := (lots' ++ [newTrade (qty * -1)])%list]> (trades s),
                  oo, Some (qty * -1))
      end in
  match filled with
  | None => None
  | Some (trades', oo, newQuantity) =>
      match oo with
      | None => None
      | Some orders =>
          let orders := removeFilled (ord_id order) orders in
          let '(orders, calls) :=
            match newQuantity, protect with
            | Some q, Some p =>
                if q =? 0 then (orders, calls)
                else ((orders ++ protectiveOrders (uniqueID h calls) tradeid action q p)%list,
                      S calls)
            | _, _ => (orders, calls)
            end in
          Some (mkAccount balances' positions' trades'
                  (match orders with
                   | [] => delete symbol (openOrders s)
                   | _ => <[symbol := orders]> (openOrders s)
                   end)
                  calls)
      end
  end.

(** *** placeOrder *)

(** [if(!this.openOrders[symbol]) this.openOrders[symbol]=[]]. *)
Definition ensureOrders (symbol : string) (s : Account) : Account :=
  match openOrders s !! symbol with
  | Some _ => s
  | None =>
      mkAccount (balances s) (positions s) (trades s)
        (<[symbol := []]> (openOrders s)) (idcalls s)
  end.

(** [this.openOrders[symbol].push(order)]. *)
Definition pushOrders (symbol : string) (new : list Order) (s : Account) : Account :=
  mkAccount (balances s) (positions s) (trades s)
    (<[symbol := (default [] (openOrders s !! symbol) ++ new)%list]> (openOrders s))
    (idcalls s).

Definition drawIds (n : nat) (s : Account) : Account :=
  mkAccount (balances s) (positions s) (trades s) (openOrders s) (n + idcalls s)%nat.

(** [tfc] stands for [tfc.getCurrentPriceForOrder]. *)
Definition placeOrder (tfc : string -> Q) (s : Account) (request : OrderRequest)
    : option (Account * list CbCall) :=
  match request with
  | Many orders =>
      match orders with
      | order0 :: order1 :: _ =>
          let symbol := keyOf (ord_symbol order0) in
          let id0 := uniqueID h (idcalls s) in
          let id1 := uniqueID h (S (idcalls s)) in
          let order0 := withOco (Some (OcoId id1)) (withId (Some id0) order0) in
          let order1 := withOco (Some (OcoId id0)) (withId (Some id1) order1) in
          Some (drawIds 2 (pushOrders symbol [order0; order1] (ensureOrders symbol s)),
                [cb0])
      | _ => None
      end
  | One order =>
      let symbol := keyOf (ord_symbol order) in
      let s := ensureOrders symbol s in
      if negb (truthyQ (ord_limit order)) && negb (truthyQ (ord_stop order)) then
        (* market orders *)
        match execute s order (tfc (ord_action order)) with
        | Some s => Some (s, [cb0])
        | None => None
        end
      else
        let order := withId (Some (uniqueID h (idcalls s))) order in
        Some (drawIds 1 (pushOrders symbol [order] s), [cb0])
  end.

(** *** cancelOrder *)

(** The inner loop over [this.trades[symbol]]: the first trade the open
    order protects loses the leg the order stood for, and its [protect]
    object once no leg is left.  A linked trade without a [protect]
    object is a fault. *)
Fixpoint unprotect (openOrder : Order) (lots : list Trade) : option (list Trade) :=
  match lots with
  | [] => Some []
  | trade :: rest =>
      if looseEq (Some (trd_id trade)) (ord_tradeid openOrder) then
        match trd_protect trade with
        | None => None
        | Some p =>
            let p :=
              if truthyQ (ord_stop openOrder) then mkProtect (prot_limit p) None
              else if truthyQ (ord_limit openOrder) then mkProtect None (prot_stop p)
              else p in
            let protect :=
              if negb (truthyQ (prot_stop p)) && negb (truthyQ (prot_limit p))
              then None else Some p in
            Some (tradeWithProtect protect trade :: rest)
        end
      else
        match unprotect openOrder rest with
        | Some rest => Some (trade :: rest)
        | None => None
        end
  end.

(** [if(openOrder.tradeid && this.trades[symbol]) ...]. *)
Definition unprotectLinked (openOrder : Order) (lots : option (list Trade))
    : option (option (list Trade)) :=
  if truthyS (ord_tradeid openOrder) then
    match lots with
    | Some l =>
        match unprotect openOrder l with
        | Some l => Some (Some l)
        | None => None
        end
    | None => Some None
    end
  else Some lots.

(** The loop over one symbol's open orders. *)
Fixpoint cancelIn (id : option string) (orders : list Order) (lots : option (list Trade))
    : option (list Order * option (list Trade)) :=
  match orders with
  | [] => Some ([], lots)
  | openOrder :: rest =>
      if looseEq id (ord_id openOrder) then
        match unprotectLinked openOrder lots with
        | Some lots => cancelIn id rest lots
        | None => None
        end
      else
        let openOrder :=
          if idEqOco h id (ord_oco openOrder)
          then withOco (Some OcoNull) openOrder else openOrder in
        match cancelIn id rest lots with
        | Some (rest, lots) => Some (openOrder :: rest, lots)
        | None => None
        end
  end.

Definition cancelSymbol (id : option string) (s : Account) (symbol : string)
    : option Account :=
  match openOrders s !! symbol with
  | None => Some s
  | Some orders =>
      match cancelIn id orders (trades s !! symbol) with
      | Some (orders, lots) =>
          Some (mkAccount (balances s) (positions s)
                  (match lots with
                   | Some l => <[symbol := l]> (trades s)
                   | None => trades s
                   end)
                  (<[symbol := orders]> (openOrders s)) (idcalls s))
      | None => None
      end
  end.

(** The outer loop, over the symbols [for ... in] enumerates. *)
Fixpoint cancelOver (id : option string) (symbols : list string) (s : Account)
    : option Account :=
  match symbols with
  | [] => Some s
  | symbol :: rest =>
      match cancelSymbol id s symbol with
      | Some s => cancelOver id rest s
      | None => None
      end
  end.

(** The keys of [this.openOrders].  The order in which [for ... in]
    visits them is not modelled; [map_to_list] fixes one. *)
Definition symbolsOf (s : Account) : list string :=
  (map_to_list (openOrders s)).*1.

Definition cancelOrder (s : Account) (order : Order) : option (Account * list CbCall) :=
  match cancelOver (ord_id order) (symbolsOf s) s with
  | Some s => Some (s, [cb0])
  | None => None
  end.

(** *** replaceOrder *)

Fixpoint reprotect (openOrder : Order) (lots : list Trade) : option (list Trade) :=
  match lots with
  | [] => Some []
  | trade :: rest =>
      if looseEq (Some (trd_id trade)) (ord_tradeid openOrder) then
        if truthyQ (ord_stop openOrder) then
          match trd_protect trade with
          | Some p =>
              Some (tradeWithProtect
                      (Some (mkProtect (prot_limit p) (ord_stop openOrder))) trade :: rest)
          | None => None
          end
        else if truthyQ (ord_limit openOrder) then
          match trd_protect trade with
          | Some p =>
              Some (tradeWithProtect
                      (Some (mkProtect (ord_limit openOrder) (prot_stop p))) trade :: rest)
          | None => None
          end
        else Some (trade :: rest)
      else
        match reprotect openOrder rest with
        | Some rest => Some (trade :: rest)
        | None => None
        end
  end.

(** The loop over one symbol's open orders: a fault, no match
    ([Some None]), or the list and lots after the replacement. *)
Fixpoint replaceIn (order : Replace) (orders : list Order) (lots : option (list Trade))
    : option (option (list Order * option (list Trade))) :=
  match orders with
  | [] => Some None
  | openOrder :: rest =>
      if looseEq (rep_id order) (ord_id openOrder) then
        match rep_oto order with
        | None => None
        | Some oto =>
            let openOrder :=
              mkOrder (ord_id openOrder) (ord_symbol openOrder) (ord_action openOrder)
                (snd (rep_quantity order)) (new (rep_limit order)) (new (rep_stop order))
                (ord_marketIfTouched openOrder) (snd (rep_tif order))
                (ord_currency openOrder) (ord_tradeid openOrder) (ord_vspId openOrder)
                (ord_oco openOrder) (new oto) in
            let relinked :=
              if truthyS (ord_tradeid openOrder) then
                match lots with
                | Some l =>
                    match reprotect openOrder l with
                    | Some l => Some (Some l)
                    | None => None
                    end
                | None => Some None
                end
              else Some lots in
            match relinked with
            | Some lots => Some (Some (openOrder :: rest, lots))
            | None => None
            end
        end
      else
        match replaceIn order rest lots with
        | Some (Some (rest, lots)) => Some (Some (openOrder :: rest, lots))
        | Some None => Some None
        | None => None
        end
  end.

(** The outer loop.  [cb] is called, and the function left, inside the
    branch of the match; past the loops the function just ends. *)
Fixpoint replaceOver (order : Replace) (symbols : list string) (s : Account)
    : option (Account * list CbCall) :=
  match symbols with
  | [] => Some (s, [])
  | symbol :: rest =>
      match replaceIn order (default [] (openOrders s !! symbol)) (trades s !! symbol) with
      | None => None
      | Some None => replaceOver order rest s
      | Some (Some (orders, lots)) =>
          Some (mkAccount (balances s) (positions s)
                  (match lots with
                   | Some l => <[symbol := l]> (trades s)
                   | None => trades s
                   end)
                  (<[symbol := orders]> (openOrders s)) (idcalls s),
                [cb0])
      end
  end.

Definition replaceOrder (s : Account) (order : Replace) : option (Account * list CbCall) :=
  replaceOver order (symbolsOf s) s.

(** *** closePosition *)

(** The loop over the lots: each removes the open orders that protect it,
    where the symbol has open orders at all. *)
Fixpoint dropProtections (lots : list Trade) (oo : option (list Order))
    : option (list Order) :=
  match lots with
  | [] => oo
  | lot :: rest =>
      dropProtections rest
        (match oo with
         | Some orders => Some (List.filter (fun o => negb (protects lot o)) orders)
         | None => None
         end)
  end.

Definition closePosition (s : Account) (position : Position)
    : option (Account * list CbCall) :=
  let symbol := keyOf (pos_symbol position) in
  match trades s !! symbol with
  | None => None
  | Some lots =>
      Some (mkAccount (balances s) (delete symbol (positions s))
              (delete symbol (trades s))
              (match dropProtections lots (openOrders s !! symbol) with
               | Some orders => <[symbol := orders]> (openOrders s)
               | None => openOrders s
               end)
              (idcalls s),
            [cb0])
  end.

End WithHost.

(** *** closeAllPositions *)

(** The inner loop: every open order with a (truthy) tradeid is spliced
    out. *)
Fixpoint dropLinked (orders : list Order) : list Order :=
  match orders with
  | [] => []
  | o :: rest =>
      if truthyS (ord_tradeid o) then dropLinked rest else o :: dropLinked rest
  end.

(** The outer loop over the symbols of [this.openOrders]; a list is
    emptied in place, its key stays. *)
Fixpoint closeOver (symbols : list string) (oo : gmap string (list Order))
    : gmap string (list Order) :=
  match symbols with
  | [] => oo
  | symbol :: rest =>
      closeOver rest
        (match oo !! symbol with
         | Some orders => <[symbol := dropLinked orders]> oo
         | None => oo
         end)
  end.

Definition closeAllPositions (s : Account) : option (Account * list CbCall) :=
  Some (mkAccount (balances s) ∅ ∅ (closeOver (symbolsOf s) (openOrders s)) (idcalls s),
        [cb0]).

(** *** closeTrade *)

(** The first loop: the first lot with the id of the trade is spliced out. *)
Fixpoint removeLot (id : string) (lots : list Trade) : list Trade :=
  match lots with
  | [] => []
  | lot :: rest => if String.eqb (trd_id lot) id then rest else lot :: removeLot id rest
  end.

(** [closeTrade(tfc, trade, cb)].  The [symbol] property the ticket adds to
    the trade it passes is given apart.  The function faults on the length
    of an absent trade list and on the quantity of an absent position. *)
Definition closeTrade (s : Account) (symbol : option string) (trade : Trade)
    : option (Account * list CbCall) :=
  let key := keyOf symbol in
  match trades s !! key with
  | None => None
  | Some lots =>
      match positions s !! key with
      | None => None
      | Some position =>
          let positions' :=
            if pos_quantity position =? trd_quantity trade
            then delete key (positions s)
            else <[key := mkPosition (pos_quantity position - trd_quantity trade)
                            (toFixed2 (((inject_Z (pos_quantity position) * pos_basis position)
                                        - (inject_Z (trd_quantity trade) * trd_basis trade))
                                       / inject_Z (pos_quantity position - trd_quantity trade))%Q)
                            (pos_price position) (pos_prevClose position)
                            (pos_currency position) (pos_symbol position)]> (positions s) in
          Some (mkAccount (balances s) positions'
                  (<[key := removeLot (trd_id trade) lots]> (trades s))
                  (match openOrders s !! key with
                   | Some orders =>
                       <[key := List.filter (fun o => negb (protects trade o)) orders]>
                         (openOrders s)
                   | None => openOrders s
                   end)
                  (idcalls s),
                [cb0])
      end
  end.

(** *** setProtection *)

(** The id given to a protective order: its tradeid, then ["|L"] for an
    order with a limit and ["|S"] for any other. *)
Definition protectionId (o : Order) : string :=
  String.append (keyOf (ord_tradeid o)) (if truthyQ (ord_limit o) then "|L" else "|S").

(** [setProtection(tfc, order, cb)]: the account is not touched; [cb]
    receives no error and the ids. *)
Definition setProtection (s : Account) (orders : list Order)
    : option (Account * list CbCall) :=
  Some (s, [mkCb None (Some (ResIds (map protectionId orders)))]).

(** *** The account the constructor builds *)

Definition demoPositions : gmap string Position :=
  <["IBM" := mkPosition 1000 126.13 129.13 123.13 (Some "USD") None]>
  (<["GE" := mkPosition 100 26.11 24.11 26.11 (Some "USD") None]>
  (<["SPY" := mkPosition (-1000) 187.11 187.11 190.11 (Some "USD") None]>
  (<["LNKD" := mkPosition (-100) 230 186 240 (Some "USD") None]> ∅))).

Definition demoTrades : gmap string (list Trade) :=
  <["IBM" := [mkTrade "IBM001" 1366206180000 300 124.13 129.13 (Some "USD")
                (Some (mkProtect (Some 165%Q) (Some 135%Q)));
              mkTrade "IBM002" 1366910520000 600 127.13 129.13 (Some "USD") None;
              mkTrade "IBM003" 1407181680000 100 126.13 129.13 (Some "USD") None]]>
  (<["GE" := [mkTrade "GE001" 1433779740000 100 26.11 24.11 (Some "USD")
                (Some (mkProtect (Some 30%Q) (Some 25%Q)))]]>
  (<["SPY" := [mkTrade "SPY001" 1419262080000 (-700) 190.45 187.11 (Some "USD") None;
               mkTrade "SPY002" 1419262380000 (-300) 179.32 187.11 (Some "USD") None]]>
  (<["LNKD" := [mkTrade "LNKD001" 1420740540000 (-100) 230 186 (Some "USD") None]]> ∅))).

(** An open order of the demo data: no symbol property, no
    market-if-touched price. *)
Definition resting (id : string) (tradeid : option string) (action : string)
    (quantity : Z) (limit stop : option Q) (tif : string) (vspId : option string)
    (oco : option Oco) (oto : option (list Order)) : Order :=
  mkOrder (Some id) None action quantity limit stop None tif (Some "USD")
    tradeid vspId oco oto.

Definition demoOpenOrders : gmap string (list Order) :=
  <["IBM" := [resting "1" None "sell" 500 (Some 197%Q) None "GTC" None None None;
              resting "2" None "sell" 500 (Some 196%Q) None "GTC" (Some "IBM002") None None;
              resting "9" (Some "IBM001") "sell" 300 (Some 165%Q) None "GTC" None
                (Some (OcoId "10")) None;
              resting "10" (Some "IBM001") "sell" 300 None (Some 135%Q) "GTC" None
                (Some (OcoId "9")) None]]>
  (<["TSLA" := [resting "3" None "buy" 10 (Some 170%Q) None "DAY" None None None]]>
  (<["GE" := [resting "4" (Some "GE001") "sell" 100 (Some 30%Q) None "GTC" None
                (Some (OcoId "5")) None;
              resting "5" (Some "GE001") "sell" 100 None (Some 25%Q) "GTC" None
                (Some (OcoId "4")) None]]>
  (<["LNKD" := [resting "6" None "buy" 100 (Some 112%Q) None "DAY" None None
                  (Some [resting "7" None "sell" 100 (Some 130%Q) None "GTC" None
                           (Some (OcoId "8")) None;
                         resting "8" None "sell" 100 None (Some 110%Q) "GTC" None
                           (Some (OcoId "7")) None]);
                resting "9" None "buy" 100 (Some 112%Q) None "DAY" None None
                  (Some [resting "10" None "sell" 100 (Some 130%Q) None "GTC" None
                           (Some OcoTrue) None])]]> ∅))).

(** The balances of the documentation's example; the constructor leaves
    [balances] to [fetchBalances]. *)
Definition demoBalances : Balances := mkBalances 100000 100000 0 0 200000.

Definition demoAccount : Account :=
  mkAccount demoBalances demoPositions demoTrades demoOpenOrders 0.

(** A host for the examples: the n-th id is ["T"] followed by n in
    decimal, the clock starts at a fixed instant, and of the ids in use
    here only ["1"] converts to the number [true] converts to. *)
Definition sampleHost : Host :=
  mkHost (fun n => String.append "T" (pretty n))
         (fun n => 1446336000000 + Z.of_nat n)
         (fun id => String.eqb id "1").

(** The same account at a broker that reports positions but no lots. *)
Definition accountWithoutLots : Account :=
  mkAccount demoBalances demoPositions ∅ demoOpenOrders 0.

(** The demo account with a lot that open orders protect but that has no
    [protect] object of its own. *)
Definition accountWithBareLot : Account :=
  mkAccount demoBalances demoPositions
    (<["GE" := [mkTrade "GE001" 1433779740000 100 26.11 24.11 (Some "USD") None]]>
       demoTrades)
    demoOpenOrders 0.

(** A quote source for the examples: every action trades at 24.11. *)
Definition sampleQuote : string -> Q := fun _ => 24.11%Q.

(** An order as the ticket builds it: no id yet, day order. *)
Definition ticket (symbol action : string) (quantity : Z)
    (limit stop marketIfTouched : option Q) : Order :=
  mkOrder None (Some symbol) action quantity limit stop marketIfTouched "DAY"
    None None None None None.

(** *** Vocabulary of the specification *)

(** Some open order, under any symbol, has the given id. *)
Definition knownId (id : option string) (s : Account) : bool :=
  existsb (fun entry => existsb (fun o => looseEq id (ord_id o)) entry.2)
    (map_to_list (openOrders s)).

(** What a cancel leaves of a list of open orders: the orders of another
    id, each with an [oco] reference to the cancelled id set to [null]. *)
Definition sever (h : Host) (id : option string) (o : Order) : Order :=
  if idEqOco h id (ord_oco o) then withOco (Some OcoNull) o else o.

Definition survivors (h : Host) (id : option string) (orders : list Order) : list Order :=
  map (sever h id) (List.filter (fun o => negb (looseEq id (ord_id o))) orders).

(** The place, and the lot, of the first trade with the given id. *)
Fixpoint linkedIndex (tradeid : option string) (lots : list Trade) : option nat :=
  match lots with
  | [] => None
  | lot :: rest =>
      if looseEq (Some (trd_id lot)) tradeid then Some 0%nat
      else match linkedIndex tradeid rest with
           | Some i => Some (S i)
           | None => None
           end
  end.

Fixpoint linkedLot (tradeid : option string) (lots : list Trade) : option Trade :=
  match lots with
  | [] => None
  | lot :: rest =>
      if looseEq (Some (trd_id lot)) tradeid then Some lot
      else linkedLot tradeid rest
  end.

(** The protection a lot keeps once the leg of a cancelled order is
    cleared: the stop leg goes if the order had a stop, else the limit leg
    if it had a limit, and nothing is kept when neither leg remains. *)
Definition clearedProtect (o : Order) (p : Protect) : option Protect :=
  let kept :=
    if truthyQ (ord_stop o) then mkProtect (prot_limit p) None
    else if truthyQ (ord_limit o) then mkProtect None (prot_stop p)
    else p in
  if truthyQ (prot_stop kept) || truthyQ (prot_limit kept) then Some kept else None.

(** The lots after the cancelled orders of one symbol, taken in turn. *)
Fixpoint unprotectAll (cancelled : list Order) (lots : option (list Trade))
    : option (option (list Trade)) :=
  match cancelled with
  | [] => Some lots
  | o :: rest =>
      match unprotectLinked o lots with
      | Some lots => unprotectAll rest lots
      | None => None
      end
  end.

(** The quantity of [positions[symbol]], 0 when there is no position. *)
Definition positionQuantity (s : Account) (symbol : string) : Z :=
  match positions s !! symbol with
  | Some position => pos_quantity position
  | None => 0
  end.

(** The signed sum of the quantities of a list of lots. *)
Definition lotsQuantity (lots : list Trade) : Z :=
  foldr (fun lot acc => trd_quantity lot + acc) 0 lots.

(** The signed sum over [trades[symbol]], 0 when there is no list. *)
Definition tradesQuantity (s : Account) (symbol : string) : Z :=
  match trades s !! symbol with
  | Some lots => lotsQuantity lots
  | None => 0
  end.

(** The check of that agreement over the symbols that have a position
    or a trade list. *)
Definition quantitiesAgree (s : Account) : bool :=
  forallb (fun symbol => positionQuantity s symbol =? tradesQuantity s symbol)
    ((map_to_list (positions s)).*1 ++ (map_to_list (trades s)).*1).

(** *** Vocabulary of the further properties *)

(** The action an order carries once [execute] has looked at the position:
    a buy or a sell against a short position is a cover or a short. *)
Definition filledAction (s : Account) (order : Order) : string :=
  match positions s !! keyOf (ord_symbol order) with
  | Some position => reclassify position (ord_action order)
  | None => ord_action order
  end.

(** A lot the loop of a closing fill may use: any lot, or with a [vspId]
    only the lots of that id. *)
Definition targeted (vspId : option string) (lot : Trade) : bool :=
  negb (truthyS vspId && negb (looseEq (Some (trd_id lot)) vspId)).

(** The open order protects one of the lots. *)
Definition protectsAny (lots : list Trade) (o : Order) : bool :=
  existsb (fun lot => protects lot o) lots.

(** Some open order has the id, or refers to it as its [oco]. *)
Definition mentionsId (h : Host) (id : option string) (s : Account) : bool :=
  existsb (fun entry =>
             existsb (fun o => looseEq id (ord_id o) || idEqOco h id (ord_oco o)) entry.2)
    (map_to_list (openOrders s)).

(** By how much the position of a symbol exceeds the sum of its lots. *)
Definition quantityGap (s : Account) (symbol : string) : Z :=
  positionQuantity s symbol - tradesQuantity s symbol.

(** The demo account with the only lot of GE passed to [closeTrade]. *)
Definition lotGE : Trade :=
  mkTrade "GE001" 1433779740000 100 26.11 24.11 (Some "USD")
    (Some (mkProtect (Some 30%Q) (Some 25%Q))).

(** The lots of IBM in the demo account. *)
Definition lotIBM1 : Trade :=
  mkTrade "IBM001" 1366206180000 300 124.13 129.13 (Some "USD")
    (Some (mkProtect (Some 165%Q) (Some 135%Q))).

Definition lotIBM2 : Trade :=
  mkTrade "IBM002" 1366910520000 600 127.13 129.13 (Some "USD") None.

Definition lotIBM3 : Trade :=
  mkTrade "IBM003" 1407181680000 100 126.13 129.13 (Some "USD") None.

(** A sell of 100 shares aimed at the second lot of IBM. *)
Definition vspSell : Order :=
  mkOrder None (Some "IBM") "sell" 100 None None None "DAY" None None (Some "IBM002")
    None None.

(** A market buy of 100 TSLA with a profit leg at 26 and a loss leg at 22. *)
Definition bracketBuy : Order :=
  mkOrder None (Some "TSLA") "buy" 100 None None None "DAY" None None None None
    (Some [mkOrder None (Some "TSLA") "sell" 100 (Some 26%Q) None None "GTC" None None None
             (Some OcoTrue) None;
           mkOrder None (Some "TSLA") "sell" 100 None (Some 22%Q) None "GTC" None None None
             (Some OcoTrue) None]).

(** The demo account once the only open order of TSLA has been cancelled:
    the symbol keeps an empty list. *)
Definition accountWithEmptyList : Account :=
  mkAccount demoBalances demoPositions demoTrades (<["TSLA" := []]> demoOpenOrders) 0.

(** The demo account with no open order at all. *)
Definition accountWithoutOrders : Account :=
  mkAccount demoBalances demoPositions demoTrades ∅ 0.

(** A replace request for the open order of the given id: a new limit and
    a new quantity, no [oto]. *)
Definition replaceLimit (id : string) (limit : Q) (quantity : Z) : Replace :=
  mkReplace (Some id) (mkTuple None (Some limit)) (mkTuple None None)
    (mkTuple None None) (quantity, quantity) ("GTC", "GTC") (Some (mkTuple None None)).

(** The sum of the magnitudes of the quantities of a list of lots. *)
Definition lotsMagnitude (lots : list Trade) : Z :=
  foldr (fun lot acc => Z.abs (trd_quantity lot) + acc) 0 lots.

(** The quantities an operation on [symbol] with [quantity] works on are
    within the integers that doubles hold exactly: the magnitudes of the
    quantity, of the position and of the lots of the symbol add up to at
    most 2^53.  Every sum and difference the source forms of them is then
    an integer of magnitude at most 2^53, which double arithmetic gives
    without rounding. *)
Definition exactQuantities (s : Account) (symbol : string) (quantity : Z) : Prop :=
  Z.abs quantity + Z.abs (positionQuantity s symbol)
  + lotsMagnitude (default [] (trades s !! symbol)) <= 2 ^ 53.





(** The lots of SPY in the demo account, the first one with a bracket. *)
Definition lotSPY1 : Trade :=
  mkTrade "SPY001" 1419262080000 (-700) 190.45 187.11 (Some "USD")
    (Some (mkProtect (Some 170%Q) (Some 200%Q))).

Definition lotSPY2 : Trade :=
  mkTrade "SPY002" 1419262380000 (-300) 179.32 187.11 (Some "USD") None.

(** The demo account with its first short lot of SPY protected by two open
    orders. *)
Definition accountWithProtectedShort : Account :=
  mkAccount demoBalances demoPositions
    (<["SPY" := [lotSPY1; lotSPY2]]> demoTrades)
    (<["SPY" := [resting "11" (Some "SPY001") "cover" 700 (Some 170%Q) None "GTC" None
                   (Some (OcoId "12")) None;
                 resting "12" (Some "SPY001") "cover" 700 None (Some 200%Q) "GTC" None
                   (Some (OcoId "11")) None]]> demoOpenOrders)
    0.

End Demo.

(** ** The order ticket: what [STX.TFC.prototype.placeOrder] does to the account

    Of the ticket only the two branches that prepare a call of the account
    and work on its maps afterwards are embedded: the close of a lot or of
    a position, and the protection of a lot.  What they do to the page
    (dialogs, markers) is left out, but for the alerts, which are returned;
    so are the refresh and the redraw that follow. *)

Module TFC.

Import Demo.

(** [finishCloseTrade(err)] and its like: an alert for every error the
    account has handed to the callback. *)
Definition alerts (calls : list CbCall) : list string :=
  omap (fun call => if truthyS (cb_err call) then cb_err call else None) calls.

Definition noMatch : string := "No matching position found.".

(** [position.symbol=order.symbol]. *)
Definition markPosition (symbol : option string) (p : Position) : Position :=
  mkPosition (pos_quantity p) (pos_basis p) (pos_price p) (pos_prevClose p)
    (pos_currency p) symbol.

(** The branch [order.type=="close"].  With a lot id and a trade list, the
    first lot of that id is passed to [closeTrade] (the [symbol] the ticket
    writes on it goes with it; the lot leaves the list when the call
    completes), and nothing at all is done when no lot has the id.
    Otherwise the position is marked with the symbol and passed to
    [closePosition] when its size is that of the order, and an alert is
    raised when it is not or when there is no position. *)
Definition placeClose (s : Account) (symbol id : option string) (quantity : Z)
    : option (Account * list string) :=
  let key := keyOf symbol in
  match (if truthyS id then trades s !! key else None) with
  | Some lots =>
      match linkedLot id lots with
      | Some lot =>
          match closeTrade s symbol lot with
          | Some (s, calls) => Some (s, alerts calls)
          | None => None
          end
      | None => Some (s, [])
      end
  | None =>
      match positions s !! key with
      | Some position =>
          let position := markPosition symbol position in
          let s :=
            mkAccount (balances s) (<[key := position]> (positions s)) (trades s)
              (openOrders s) (idcalls s) in
          if Z.abs (pos_quantity position) =? Z.abs quantity then
            match closePosition s position with
            | Some (s, calls) => Some (s, alerts calls)
            | None => None
            end
          else Some (s, [noMatch])
      | None => Some (s, [noMatch])
      end
  end.

(** [obj && obj.id], as the list [obj.id[0]], [obj.id[1]], ... that the
    callback indexes: the elements of an array, the characters of a
    non-empty string. *)
Definition idsOf (result : option CbResult) : option (list string) :=
  match result with
  | Some (ResIds ids) => Some ids
  | Some (ResId id) =>
      if String.eqb id "" then None
      else Some (map (fun c => String c EmptyString) (list_ascii_of_string id))
  | None => None
  end.

(** [trade.protect={}] and the loop over the legs: the last leg with a
    limit gives the limit, the last with a stop the stop. *)
Definition legsProtect (legs : list Order) : Protect :=
  fold_left (fun p leg =>
               mkProtect (if truthyQ (ord_limit leg) then ord_limit leg else prot_limit p)
                 (if truthyQ (ord_stop leg) then ord_stop leg else prot_stop p))
    legs (mkProtect None None).

Definition protectLots (tradeid : option string) (legs : list Order) (lots : list Trade)
    : list Trade :=
  map (fun lot =>
         if looseEq (Some (trd_id lot)) tradeid
         then tradeWithProtect (Some (legsProtect legs)) lot
         else lot) lots.

(** [obj.id[1-tradeNum]]: undefined past the second leg. *)
Definition siblingId (ids : list string) (tradeNum : nat) : option string :=
  if (tradeNum <=? 1)%nat then ids !! (1 - tradeNum)%nat else None.

(** An order once the callback has written the id, the [oco] and the price
    of leg number [tradeNum] on it. *)
Definition relinked (legs : list Order) (ids : list string) (tradeNum : nat)
    (leg o : Order) : Order :=
  mkOrder (ids !! tradeNum) (ord_symbol o) (ord_action o) (ord_quantity o)
    (if truthyQ (ord_limit leg) then ord_limit leg else None)
    (if truthyQ (ord_stop leg) then ord_stop leg else None)
    (ord_marketIfTouched o) (ord_tif o) (ord_currency o) (ord_tradeid o) (ord_vspId o)
    (OcoId <$> (if (1 <? length legs)%nat then siblingId ids tradeNum else ids !! tradeNum))
    (ord_oto o).

(** The loop over the open orders of the chart's symbol: an order of the
    trade takes the id and the price of the next leg; with a single leg
    the second such order is spliced out and the loop left.  Reading a leg
    that the array does not have is a fault.  Returns the orders and the
    number of legs used. *)
Fixpoint reconcileOrders (legs : list Order) (ids : list string)
    (tradeid : option string) (tradeNum : nat) (orders : list Order)
    : option (list Order * nat) :=
  match orders with
  | [] => Some ([], tradeNum)
  | openOrder :: rest =>
      if looseEq (ord_tradeid openOrder) tradeid then
        if Nat.eqb (length legs) 1 && negb (Nat.eqb tradeNum 0) then Some (rest, tradeNum)
        else
          match legs !! tradeNum with
          | None => None
          | Some leg =>
              match reconcileOrders legs ids tradeid (S tradeNum) rest with
              | Some (rest, n) => Some (relinked legs ids tradeNum leg openOrder :: rest, n)
              | None => None
              end
          end
      else
        match reconcileOrders legs ids tradeid tradeNum rest with
        | Some (rest, n) => Some (openOrder :: rest, n)
        | None => None
        end
  end.

(** The last loop: the legs not used yet are pushed, with id and [oco]. *)
Fixpoint pushLegs (legs : list Order) (ids : list string) (tradeNum : nat)
    (left : list Order) : list Order :=
  match left with
  | [] => []
  | leg :: rest =>
      mkOrder (ids !! tradeNum) (ord_symbol leg) (ord_action leg) (ord_quantity leg)
        (ord_limit leg) (ord_stop leg) (ord_marketIfTouched leg) (ord_tif leg)
        (ord_currency leg) (ord_tradeid leg) (ord_vspId leg)
        (OcoId <$> (if (1 <? length legs)%nat then siblingId ids tradeNum
                    else ids !! tradeNum))
        (ord_oto leg)
      :: pushLegs legs ids (S tradeNum) rest
  end.

(** The callback of [setProtection], on the maps of the account, for the
    symbol of the chart. *)
Definition protectionPlaced (chartSymbol : option string) (legs : list Order)
    (s : Account) (call : CbCall) : option Account :=
  match idsOf (cb_result call) with
  | None => Some s
  | Some ids =>
      let key := keyOf chartSymbol in
      let tradeid := head legs ≫= ord_tradeid in
      match trades s !! key with
      | None => None
      | Some lots =>
          match reconcileOrders legs ids tradeid 0 (default [] (openOrders s !! key)) with
          | None => None
          | Some (orders, n) =>
              Some (mkAccount (balances s) (positions s)
                      (<[key := protectLots tradeid legs lots]> (trades s))
                      (<[key := (orders ++ pushLegs legs ids n (drop n legs))%list]>
                         (openOrders s))
                      (idcalls s))
          end
      end
  end.

(** The body of the branch [order instanceof Array && order[0].tradeid],
    entered with a first leg that has a tradeid: the array is handed to
    [setProtection] and the callback brings the maps up to date. *)
Definition placeProtection (chartSymbol : option string) (s : Account) (legs : list Order)
    : option (Account * list string) :=
  match setProtection s legs with
  | Some (s, calls) =>
      match foldl (fun acc call =>
                     match acc with
                     | Some s => protectionPlaced chartSymbol legs s call
                     | None => None
                     end) (Some s) calls with
      | Some s => Some (s, alerts calls)
      | None => None
      end
  | None => None
  end.

(** A bracket for the first lot of IBM: take profit at 170, stop at 130. *)
Definition bracketIBM : list Order :=
  [mkOrder None (Some "IBM") "sell" 300 (Some 170%Q) None None "GTC" None (Some "IBM001")
     None (Some OcoTrue) None;
   mkOrder None (Some "IBM") "sell" 300 None (Some 130%Q) None "GTC" None (Some "IBM001")
     None (Some OcoTrue) None].

End TFC.

(** ** The demo account in double precision

    [execute] once more, statement by statement as in [Demo], with every
    number a double: [float] is binary64, its operations are those of the
    processor, and [==], [<] and [<=] on numbers are [eqb], [ltb] and
    [leb].  The records are those of [Demo] with doubles for [Z] and [Q];
    what holds no number ([Oco], [Host], the keys) is shared. *)

Module Binary64.

(** *** Numbers *)

(** The double nearest to an integer, and to a decimal fraction (what a
    numeric literal or [parseFloat] gives). *)
Definition ofZ (z : Z) : float := SF2Prim (binary_normalize prec emax z 0 false).

Definition nearest (negative : bool) (num den : positive) : float :=
  let '(q, e, l) := SFdiv_core_binary prec emax (Zpos num) 0 (Zpos den) 0 in
  SF2Prim (binary_round_aux prec emax negative q e l).

Definition ofQ (q : Q) : float :=
  match Qnum q with
  | Zpos n => nearest false n (Qden q)
  | Zneg n => nearest true n (Qden q)
  | Z0 => 0%float
  end.

(** The rational a finite double is. *)
Definition exact (x : float) : option Q :=
  match Prim2SF x with
  | S754_zero _ => Some 0%Q
  | S754_finite s m e =>
      let v := if 0 <=? e then inject_Z (Zpos m * 2 ^ e)
               else Qmake (Zpos m) (Z.to_pos (2 ^ (- e))) in
      Some (if s then (- v)%Q else v)
  | _ => None
  end.

Definition isNaN (x : float) : bool := negb (PrimFloat.eqb x x).

(** Truthiness of an optional number: present, not zero and not NaN. *)
Definition truthyN (x : option float) : bool :=
  match x with
  | Some v => negb (PrimFloat.eqb v 0) && negb (isNaN v)
  | None => false
  end.

(** The value of [position.basis]: a number, or the decimal string
    [toFixed(2)] has made, kept as its sign and its count of hundredths.
    A string of another form ([toFixed] of NaN, of an infinity or of a
    magnitude from 1e21 on) reads back as the very number it was made of
    and is kept as that number. *)
Inductive Basis :=
| Num (x : float)
| Hundredths (negative : bool) (n : Z).

(** The integer [n] for which [n / 100] is nearest to [m * 2^e], the larger
    one of two. *)
Definition hundredths (m : positive) (e : Z) : Z :=
  if 0 <=? e then Zpos m * 2 ^ e * 100
  else (Zpos m * 200 + 2 ^ (- e)) / 2 ^ (- e + 1).

(** [x.toFixed(2)]. *)
Definition toFixed2 (x : float) : Basis :=
  if PrimFloat.leb 1e21 (PrimFloat.abs x) then Num x
  else
    match Prim2SF x with
    | S754_zero _ => Hundredths false 0
    | S754_finite s m e => Hundredths s (hundredths m e)
    | _ => Num x
    end.

(** The number a basis is converted to where it is multiplied. *)
Definition toNumber (b : Basis) : float :=
  match b with
  | Num x => x
  | Hundredths s (Zpos n) => nearest s n 100
  | Hundredths s _ => SF2Prim (S754_zero s)
  end.


(** *** Records: those of the demo account, their numbers doubles *)

Inductive Order := mkOrder {
  ord_id : option string;
  ord_symbol : option string;
  ord_action : string;
  ord_quantity : float;
  ord_limit : option float;
  ord_stop : option float;
  ord_marketIfTouched : option float;
  ord_tif : string;
  ord_currency : option string;
  ord_tradeid : option string;
  ord_vspId : option string;
  ord_oco : option Demo.Oco;
  ord_oto : option (list Order)
}.

Record Protect := mkProtect {
  prot_limit : option float;
  prot_stop : option float
}.

Record Trade := mkTrade {
  trd_id : string;
  trd_time : Z;
  trd_quantity : float;
  trd_basis : float;
  trd_price : float;
  trd_currency : option string;
  trd_protect : option Protect
}.

Record Position := mkPosition {
  pos_quantity : float;
  pos_basis : Basis;
  pos_price : float;
  pos_prevClose : float;
  pos_currency : option string;
  pos_symbol : option string
}.

Record Balances := mkBalances {
  liquidity : float;
  cash : float;
  unsettledCash : float;
  profitLoss : float;
  buyingPower : float
}.

Record Account := mkAccount {
  balances : Balances;
  positions : gmap string Position;
  trades : gmap string (list Trade);
  openOrders : gmap string (list Order);
  idcalls : nat
}.

Definition withQuantity (q : float) (o : Order) : Order :=
  mkOrder (ord_id o) (ord_symbol o) (ord_action o) q (ord_limit o)
    (ord_stop o) (ord_marketIfTouched o) (ord_tif o) (ord_currency o)
    (ord_tradeid o) (ord_vspId o) (ord_oco o) (ord_oto o).

Definition tradeWithQuantity (q : float) (t : Trade) : Trade :=
  mkTrade (trd_id t) (trd_time t) q (trd_basis t) (trd_price t)
    (trd_currency t) (trd_protect t).

(** [o.tradeid == trade.id]. *)
Definition protects (t : Trade) (o : Order) : bool :=
  looseEq (ord_tradeid o) (Some (trd_id t)).

(** *** execute *)

(** [quantity*=-1] for the actions that sell. *)
Definition signedQuantity (action : string) (quantity : float) : float :=
  if String.eqb action "sell" || String.eqb action "short"
  then (quantity * -1)%float else quantity.

(** The rewriting of [order.action] against a short position. *)
Definition reclassify (position : Position) (action : string) : string :=
  if (pos_quantity position <? 0)%float then
    if String.eqb action "buy" then "cover"
    else if String.eqb action "sell" then "short"
    else action
  else action.

(** The position part of [execute]. *)
Definition fillPosition (positions : gmap string Position) (symbol action : string)
    (quantity price : float) : gmap string Position * string :=
  match positions !! symbol with
  | None =>
      (<[symbol := mkPosition quantity (Num price) price price None None]> positions,
       action)
  | Some position =>
      let action := reclassify position action in
      let basis :=
        if Demo.opening action
        then toFixed2 (((pos_quantity position * toNumber (pos_basis position))
                        + (quantity * price))
                       / (pos_quantity position + quantity))%float
        else pos_basis position in
      let quantity' := (pos_quantity position + quantity)%float in
      if (quantity' =? 0)%float
      then (delete symbol positions, action)
      else (<[symbol := mkPosition quantity' basis price (pos_prevClose position)
                           (pos_currency position) (pos_symbol position)]> positions,
            action)
  end.

(** [order.oto[i] && order.oto[i].f], as the value stored when truthy. *)
Definition legPrice (f : Order -> option float) (oto : list Order) (i : nat)
    : option float :=
  match oto !! i with
  | Some leg => if truthyN (f leg) then f leg else None
  | None => None
  end.

Definition firstLegPrice (f : Order -> option float) (oto : list Order) : option float :=
  match legPrice f oto 0 with
  | Some x => Some x
  | None => legPrice f oto 1
  end.

Definition otoProtect (oto : option (list Order)) : option Protect :=
  match oto with
  | Some legs => Some (mkProtect (firstLegPrice ord_limit legs) (firstLegPrice ord_stop legs))
  | None => None
  end.

(** The loop over the lots of a closing fill. *)
Fixpoint consume (vspId : option string) (qty : float) (lots : list Trade)
    (oo : option (list Order))
    : option (float * list Trade * option (list Order)) :=
  match lots with
  | [] => Some (qty, [], oo)
  | lot :: rest =>
      if truthyS vspId && negb (looseEq (Some (trd_id lot)) vspId) then
        match consume vspId qty rest oo with
        | Some (qty', rest', oo') => Some (qty', lot :: rest', oo')
        | None => None
        end
      else if (PrimFloat.abs (trd_quantity lot) <=? PrimFloat.abs qty)%float then
        match trd_protect lot, oo with
        | Some _, None => None
        | Some _, Some orders =>
            consume vspId (qty - trd_quantity lot)%float rest
              (Some (List.filter (fun o => negb (protects lot o)) orders))
        | None, _ => consume vspId (qty - trd_quantity lot)%float rest oo
        end
      else
        match trd_protect lot, oo with
        | Some _, None => None
        | Some _, Some orders =>
            Some (0%float, tradeWithQuantity (trd_quantity lot - qty)%float lot :: rest,
                  Some (map (fun o => if protects lot o
                                      then withQuantity (ord_quantity o - qty)%float o
                                      else o) orders))
        | None, _ =>
            Some (0%float, tradeWithQuantity (trd_quantity lot - qty)%float lot :: rest, oo)
        end
  end.

(** Removal of the first open order whose id is that of the filled one. *)
Fixpoint removeFilled (id : option string) (orders : list Order) : list Order :=
  match orders with
  | [] => []
  | o :: rest => if looseEq (ord_id o) id then rest else o :: removeFilled id rest
  end.

(** The protective orders synthesised for a new lot. *)
Definition protectiveOrders (uid tradeid action : string) (quantity : float)
    (protect : Protect) : list Order :=
  let side := if String.eqb action "buy" then "sell" else "cover" in
  ((if truthyN (prot_limit protect)
   then [mkOrder (Some (String.append uid "A")) None side (PrimFloat.abs quantity)
           (prot_limit protect) None None "GTC" None (Some tradeid) None
           (Some (if truthyN (prot_stop protect)
                  then Demo.OcoId (String.append uid "B") else Demo.OcoNull))
           None]
   else [])
  ++
  (if truthyN (prot_stop protect)
   then [mkOrder (Some (String.append uid "B")) None side (PrimFloat.abs quantity)
           None (prot_stop protect) None "GTC" None (Some tradeid) None
           (Some (if truthyN (prot_limit protect)
                  then Demo.OcoId (String.append uid "A") else Demo.OcoNull))
           None]
   else []))%list.

(** [execute(order, price)], statement by statement as [Demo.execute]. *)
Definition execute (h : Demo.Host) (s : Account) (order : Order) (price : float)
    : option Account :=
  let symbol := Demo.keyOf (ord_symbol order) in
  let quantity := signedQuantity (ord_action order) (ord_quantity order) in
  let cash' := (cash (balances s) - quantity * price)%float in
  let balances' :=
    mkBalances (liquidity (balances s)) cash' (unsettledCash (balances s))
      (profitLoss (balances s)) (2 * cash')%float in
  let '(positions', action) :=
    fillPosition (positions s) symbol (ord_action order) quantity price in
  let tradeid := Demo.uniqueID h (idcalls s) in
  let calls := S (idcalls s) in
  let protect := otoProtect (ord_oto order) in
  let newTrade q := mkTrade tradeid (Demo.getTime h calls) q price price None protect in
  let lots := default [] (trades s !! symbol) in
  let filled :=
    if Demo.opening action then
      Some (<[symbol := (lots ++ [newTrade quantity])%list]> (trades s),
            openOrders s !! symbol, Some quantity)
    else
      match consume (ord_vspId order) (quantity * -1)%float lots (openOrders s !! symbol) with
      | None => None
      | Some (qty, lots', oo) =>
          if (qty =? 0)%float then
            Some (match lots' with
                  | [] => delete symbol (trades s)
                  | _ => <[symbol := lots']> (trades s)
                  end, oo, None)
          else
            Some (<[symbol := (lots' ++ [newTrade (qty * -1)%float])%list]> (trades s),
                  oo, Some (qty * -1)%float)
      end in
  match filled with
  | None => None
  | Some (trades', oo, newQuantity) =>
      match oo with
      | None => None
      | Some orders =>
          let orders := removeFilled (ord_id order) orders in
          let '(orders, calls) :=
            match newQuantity, protect with
            | Some q, Some p =>
                if truthyN (Some q)
                then ((orders ++ protectiveOrders (Demo.uniqueID h calls) tradeid action q p)%list,
                      S calls)
                else (orders, calls)
            | _, _ => (orders, calls)
            end in
          Some (mkAccount balances' positions' trades'
                  (match orders with
                   | [] => delete symbol (openOrders s)
                   | _ => <[symbol := orders]> (openOrders s)
                   end)
                  calls)
      end
  end.

(** *** The demo account in doubles *)

Definition ofPrice (x : option Q) : option float := ofQ <$> x.

Fixpoint ofOrder (o : Demo.Order) : Order :=
  match o with
  | Demo.mkOrder id symbol action quantity limit stop marketIfTouched tif currency
      tradeid vspId oco oto =>
      mkOrder id symbol action (ofZ quantity) (ofPrice limit) (ofPrice stop)
        (ofPrice marketIfTouched) tif currency tradeid vspId oco
        (match oto with
         | Some legs => Some (map ofOrder legs)
         | None => None
         end)
  end.

Definition ofTrade (t : Demo.Trade) : Trade :=
  mkTrade (Demo.trd_id t) (Demo.trd_time t) (ofZ (Demo.trd_quantity t))
    (ofQ (Demo.trd_basis t)) (ofQ (Demo.trd_price t)) (Demo.trd_currency t)
    (match Demo.trd_protect t with
     | Some p => Some (mkProtect (ofPrice (Demo.prot_limit p)) (ofPrice (Demo.prot_stop p)))
     | None => None
     end).

Definition ofPosition (p : Demo.Position) : Position :=
  mkPosition (ofZ (Demo.pos_quantity p)) (Num (ofQ (Demo.pos_basis p)))
    (ofQ (Demo.pos_price p)) (ofQ (Demo.pos_prevClose p)) (Demo.pos_currency p)
    (Demo.pos_symbol p).

Definition ofAccount (s : Demo.Account) : Account :=
  mkAccount
    (mkBalances (ofQ (Demo.liquidity (Demo.balances s))) (ofQ (Demo.cash (Demo.balances s)))
       (ofQ (Demo.unsettledCash (Demo.balances s)))
       (ofQ (Demo.profitLoss (Demo.balances s)))
       (ofQ (Demo.buyingPower (Demo.balances s))))
    (ofPosition <$> Demo.positions s)
    (map ofTrade <$> Demo.trades s)
    (map ofOrder <$> Demo.openOrders s)
    (Demo.idcalls s).

Definition demoAccount : Account := ofAccount Demo.demoAccount.

(** An order as the ticket builds it. *)
Definition ticket (symbol action : string) (quantity : float) : Order :=
  mkOrder None (Some symbol) action quantity None None None "DAY"
    None None None None None.

(** [execute] over a list of fills, in turn. *)
Fixpoint executeAll (h : Demo.Host) (s : Account) (fills : list (Order * float))
    : option Account :=
  match fills with
  | [] => Some s
  | (order, price) :: rest =>
      match execute h s order price with
      | Some s' => executeAll h s' rest
      | None => None
      end
  end.

(** *** Vocabulary *)

Definition positionQuantity (s : Account) (symbol : string) : float :=
  match positions s !! symbol with
  | Some position => pos_quantity position
  | None => 0%float
  end.

(** The signed sum of the quantities of a list of lots, added up in the
    order of the list. *)
Definition lotsQuantity (lots : list Trade) : float :=
  fold_left (fun acc lot => (acc + trd_quantity lot)%float) lots 0%float.

Definition tradesQuantity (s : Account) (symbol : string) : float :=
  match trades s !! symbol with
  | Some lots => lotsQuantity lots
  | None => 0%float
  end.

(** The symbols that have a position or a trade list. *)
Definition symbolsHeld (s : Account) : list string :=
  ((map_to_list (positions s)).*1 ++ (map_to_list (trades s)).*1)%list.

(** The quantity of every position is the sum of its lots, as the doubles
    add up. *)
Definition quantitiesAgree (s : Account) : bool :=
  forallb (fun symbol => PrimFloat.eqb (positionQuantity s symbol) (tradesQuantity s symbol))
    (symbolsHeld s).

(** The sum, without rounding, of the rationals the quantities of the lots
    are. *)
Fixpoint lotsExact (lots : list Trade) : option Q :=
  match lots with
  | [] => Some 0%Q
  | lot :: rest =>
      match exact (trd_quantity lot), lotsExact rest with
      | Some q, Some sum => Some (q + sum)%Q
      | _, _ => None
      end
  end.

(** The action an order carries once [execute] has looked at the
    position. *)
Definition filledAction (s : Account) (order : Order) : string :=
  match positions s !! Demo.keyOf (ord_symbol order) with
  | Some position => reclassify position (ord_action order)
  | None => ord_action order
  end.

(** Both doubles are finite and their sum, as the processor forms it, is
    their sum: nothing is rounded off. *)
Definition exactSum (x y : float) : bool :=
  match exact x, exact y, exact (x + y)%float with
  | Some a, Some b, Some c => Qeq_bool c (a + b)
  | _, _, _ => false
  end.

(** The same of their difference. *)
Definition exactDifference (x y : float) : bool :=
  match exact x, exact y, exact (x - y)%float with
  | Some a, Some b, Some c => Qeq_bool c (a - b)
  | _, _, _ => false
  end.

(** No difference the loop of a closing fill forms is rounded: that of
    what is left and a lot it uses up, and that of the lot it stops at and
    what is left. *)
Fixpoint loopExact (vspId : option string) (qty : float) (lots : list Trade) : bool :=
  match lots with
  | [] => true
  | lot :: rest =>
      if truthyS vspId && negb (looseEq (Some (trd_id lot)) vspId) then
        loopExact vspId qty rest
      else if (PrimFloat.abs (trd_quantity lot) <=? PrimFloat.abs qty)%float then
        exactDifference qty (trd_quantity lot)
        && loopExact vspId (qty - trd_quantity lot)%float rest
      else exactDifference (trd_quantity lot) qty
  end.

(** No sum or difference of quantities that [execute(order, price)] forms
    is rounded: the sum of the position and the fill, and for a closing
    fill the differences of the loop. *)
Definition fillExact (s : Account) (order : Order) : bool :=
  let symbol := Demo.keyOf (ord_symbol order) in
  let quantity := signedQuantity (ord_action order) (ord_quantity order) in
  exactSum (positionQuantity s symbol) quantity
  && (Demo.opening (filledAction s order)
      || loopExact (ord_vspId order) (quantity * -1)%float
           (default [] (trades s !! symbol))).

(** The quantity of the position of a symbol is the sum of its lots, as
    rationals. *)
Definition agreesExactly (s : Account) (symbol : string) : bool :=
  match exact (positionQuantity s symbol),
        lotsExact (default [] (trades s !! symbol)) with
  | Some p, Some sum => Qeq_bool p sum
  | _, _ => false
  end.

(** The same of every symbol that has a position or a trade list. *)
Definition quantitiesAgreeExactly (s : Account) : bool :=
  forallb (agreesExactly s) (symbolsHeld s).

End Binary64.

(** * Properties *)

Import Account Demo.

(** ** Account.tradability *)

Section Tradability.

(** C8, the claim as worded: a seven-character symbol with a caret is a
    forex pair and is tradable, so the worded policy is not the one of the
    code. *)
Lemma tradability_seven_caret_counterexample :
  spec_untradable (Some "^EURUSD") = true
  /\ tradable (tradability (Some "^EURUSD")) = true
  /\ spec_untradable (Some "^SPX") = false
  /\ tradable (tradability (Some "^SPX")) = false.
Proof. repeat split; reflexivity. Qed.

(** C8, amended: [tradability] reports [tradable = false] exactly when the
    symbol is absent or empty, contains a dollar sign, or contains a caret
    and is not seven characters long; whatever the symbol, it reports
    shortable and marketable, with no decimal precision. *)
Theorem tradability_policy (symbol : option string) :
  (tradable (tradability symbol) = false <->
     symbol = None \/ symbol = Some ""
     \/ exists s, symbol = Some s
          /\ (indexOf s "$" <> -1
              \/ (indexOf s "^" <> -1 /\ String.length s <> 7%nat)))
  /\ shortable (tradability symbol) = true
  /\ marketable (tradability symbol) = true
  /\ decimalPrecision (tradability symbol) = None.
Proof.
  destruct symbol as [s|]; cycle 1.
  { cbn. repeat split; auto. }
  unfold tradability, truthyS. cbn [negb].
  destruct (String.eqb_spec s "") as [->|Hne]; cbn [negb].
  { cbn. repeat split; auto. }
  unfold isIndex.
  destruct (Z.eqb_spec (indexOf s "$") (-1)) as [Hd|Hd]; cbn [negb].
  - destruct (Z.eqb_spec (indexOf s "^") (-1)) as [Hc|Hc]; cbn [negb].
    + repeat split; cbn; try reflexivity; try discriminate.
      intros [?|[?|(s' & [= <-] & [?|[? _]])]]; congruence.
    + destruct (Nat.eqb_spec (String.length s) 7) as [Hl|Hl].
      * repeat split; cbn; try reflexivity; try discriminate.
        intros [?|[?|(s' & [= <-] & [?|[_ ?]])]]; congruence.
      * repeat split; cbn; try reflexivity.
        intros _. right. right. exists s. auto.
  - repeat split; cbn; try reflexivity.
    intros _. right. right. exists s. auto.
Qed.

End Tradability.

(** ** The demo account *)

Section DemoAccount.

Context (h : Host).

(** *** execute completes exactly when the symbol has an open-order list *)

Lemma consume_orders vspId lots : forall qty orders,
  exists qty' lots' orders',
    consume vspId qty lots (Some orders) = Some (qty', lots', Some orders').
Proof.
  induction lots as [|lot rest IH]; intros qty orders; cbn [consume].
  - eauto 6.
  - destruct (truthyS vspId && negb (looseEq (Some (trd_id lot)) vspId)).
    + destruct (IH qty orders) as (q & l & o & ->). eauto 6.
    + destruct (Z.abs (trd_quantity lot) <=? Z.abs qty).
      * destruct (trd_protect lot); apply IH.
      * destruct (trd_protect lot); eauto 6.
Qed.

Lemma consume_no_orders vspId lots : forall qty qty' lots' oo,
  consume vspId qty lots None = Some (qty', lots', oo) -> oo = None.
Proof.
  induction lots as [|lot rest IH]; intros qty qty' lots' oo; cbn [consume].
  - congruence.
  - destruct (truthyS vspId && negb (looseEq (Some (trd_id lot)) vspId)).
    + destruct (consume vspId qty rest None) as [[[q l] o]|] eqn:E; [|discriminate].
      intros [= _ _ <-]. eapply IH, E.
    + destruct (Z.abs (trd_quantity lot) <=? Z.abs qty).
      * destruct (trd_protect lot); [discriminate|]. apply IH.
      * destruct (trd_protect lot); [discriminate|]. congruence.
Qed.

Lemma execute_completes s order price :
  is_Some (openOrders s !! keyOf (ord_symbol order)) ->
  is_Some (execute h s order price).
Proof.
  intros [orders Horders]. unfold execute.
  destruct (fillPosition _ _ _ _ _) as [positions' action].
  rewrite Horders.
  destruct (opening action).
  - destruct (otoProtect (ord_oto order)); cbn;
      repeat (match goal with |- context [if ?b then _ else _] => destruct b end);
      eauto.
  - destruct (consume_orders (ord_vspId order)
                (default [] (trades s !! keyOf (ord_symbol order)))
                (signedQuantity (ord_action order) (ord_quantity order) * -1) orders)
      as (q & l & o & ->).
    destruct (q =? 0); [eauto|].
    destruct (otoProtect (ord_oto order)); cbn;
      repeat (match goal with |- context [if ?b then _ else _] => destruct b end);
      eauto.
Qed.

Lemma execute_faults s order price :
  openOrders s !! keyOf (ord_symbol order) = None ->
  execute h s order price = None.
Proof.
  intros Hnone. unfold execute.
  destruct (fillPosition _ _ _ _ _) as [positions' action].
  rewrite Hnone.
  destruct (opening action); [reflexivity|].
  destruct (consume _ _ _ None) as [[[q l] o]|] eqn:E; [|reflexivity].
  apply consume_no_orders in E as ->.
  destruct (q =? 0); reflexivity.
Qed.

Lemma ensureOrders_lookup symbol s :
  openOrders (ensureOrders symbol s) !! symbol
  = Some (default [] (openOrders s !! symbol)).
Proof.
  unfold ensureOrders.
  destruct (openOrders s !! symbol) as [orders|] eqn:E; cbn.
  - exact E.
  - apply lookup_insert_eq.
Qed.

(** *** placeOrder *)

(** C2, the claim as worded: an order that carries only a
    market-if-touched price is executed at once — a position appears and
    nothing is added to the open orders of its symbol. *)
Lemma placeOrder_marketIfTouched_counterexample :
  exists s',
    placeOrder sampleHost sampleQuote demoAccount
      (One (ticket "TSLA" "buy" 10 None None (Some 170%Q))) = Some (s', [cb0])
    /\ positions demoAccount !! "TSLA" = None
    /\ pos_quantity <$> positions s' !! "TSLA" = Some 10
    /\ openOrders s' !! "TSLA" = openOrders demoAccount !! "TSLA".
Proof.
  eexists. split; [vm_compute; reflexivity|].
  repeat split; vm_compute; reflexivity.
Qed.

(** C2, amended: a single order is executed at once exactly when it has
    neither a (non-zero) limit nor a (non-zero) stop, whatever its
    market-if-touched price, and the execution completes; any other
    single order is given the next id of [STX.uniqueID] and appended to
    the open orders of its symbol, and positions, trades and balances stay
    as they were. *)
Theorem placeOrder_single tfc s order :
  if truthyQ (ord_limit order) || truthyQ (ord_stop order)
  then exists s',
         placeOrder h tfc s (One order) = Some (s', [cb0])
         /\ openOrders s'
            = <[keyOf (ord_symbol order) :=
                  (default [] (openOrders s !! keyOf (ord_symbol order))
                   ++ [withId (Some (uniqueID h (idcalls s))) order])%list]>
                (openOrders s)
         /\ positions s' = positions s
         /\ trades s' = trades s
         /\ balances s' = balances s
         /\ idcalls s' = S (idcalls s)
  else exists s',
         execute h (ensureOrders (keyOf (ord_symbol order)) s) order
           (tfc (ord_action order)) = Some s'
         /\ placeOrder h tfc s (One order) = Some (s', [cb0]).
Proof.
  unfold placeOrder.
  destruct (truthyQ (ord_limit order)), (truthyQ (ord_stop order)); cbn [orb negb andb].
  4: {
    destruct (execute_completes (ensureOrders (keyOf (ord_symbol order)) s) order
                (tfc (ord_action order))) as [s' Hs'].
    { rewrite ensureOrders_lookup. eauto. }
    exists s'. rewrite Hs'. auto. }
  all: eexists; split; [reflexivity|]; cbn;
    rewrite ensureOrders_lookup; cbn;
    unfold ensureOrders; destruct (openOrders s !! keyOf (ord_symbol order)); cbn;
    rewrite ?insert_insert_eq; auto.
Qed.

(** C6, the claim as worded: after a limit order and after an OCO pair the
    callback received no argument at all, although ids were assigned. *)
Lemma placeOrder_callback_counterexample :
  (exists s',
     placeOrder sampleHost sampleQuote demoAccount
       (One (ticket "TSLA" "buy" 10 (Some 150%Q) None None))
     = Some (s', [mkCb None None])
     /\ ord_id <$> last (default [] (openOrders s' !! "TSLA")) = Some (Some "T0"))
  /\ (exists s',
     placeOrder sampleHost sampleQuote demoAccount
       (Many [ticket "TSLA" "buy" 10 (Some 150%Q) None None;
              ticket "TSLA" "buy" 10 None (Some 190%Q) None])
     = Some (s', [mkCb None None])
     /\ ord_id <$> default [] (openOrders s' !! "TSLA")
        = [Some "3"; Some "T0"; Some "T1"]).
Proof.
  split; eexists; (split; [vm_compute; reflexivity|]); vm_compute; reflexivity.
Qed.

(** C6, amended: every placeOrder call that completes invokes the callback
    exactly once and with no argument, [cb()]: neither an error nor an
    object of ids is handed over. *)
Theorem placeOrder_callback tfc s request s' calls :
  placeOrder h tfc s request = Some (s', calls) ->
  calls = [mkCb None None].
Proof.
  unfold placeOrder. destruct request as [order|orders].
  - destruct (negb (truthyQ (ord_limit order)) && negb (truthyQ (ord_stop order))).
    + destruct (execute h _ order _); [|discriminate]. now intros [= _ <-].
    + now intros [= _ <-].
  - destruct orders as [|order0 [|order1 rest]]; try discriminate.
    now intros [= _ <-].
Qed.

End DemoAccount.

Lemma placeOrder_callback_witness :
  exists s' calls,
    placeOrder sampleHost sampleQuote demoAccount
      (One (ticket "TSLA" "buy" 10 (Some 150%Q) None None)) = Some (s', calls)
    /\ calls = [mkCb None None].
Proof.
  destruct (placeOrder sampleHost sampleQuote demoAccount
              (One (ticket "TSLA" "buy" 10 (Some 150%Q) None None)))
    as [[s' calls]|] eqn:E; [|vm_compute in E; discriminate].
  exists s', calls. split; [reflexivity|].
  exact (placeOrder_callback sampleHost _ _ _ _ _ E).
Defined.

Section DemoReplaceClose.

Context (h : Host).

(** *** replaceOrder *)

Lemma replaceIn_unknown order lots orders :
  existsb (fun o => looseEq (rep_id order) (ord_id o)) orders = false ->
  replaceIn order orders lots = Some None.
Proof.
  induction orders as [|o rest IH]; cbn [existsb replaceIn]; [reflexivity|].
  intros [Ho Hrest]%orb_false_elim.
  rewrite Ho, (IH Hrest). reflexivity.
Qed.

Lemma replaceOver_unknown order s (entries : list (string * list Order)) :
  (forall symbol orders, (symbol, orders) ∈ entries ->
     openOrders s !! symbol = Some orders) ->
  existsb (fun entry => existsb (fun o => looseEq (rep_id order) (ord_id o)) entry.2)
    entries = false ->
  replaceOver order entries.*1 s = Some (s, []).
Proof.
  induction entries as [|[symbol orders] rest IH]; cbn; [reflexivity|].
  intros Hin [Ho Hrest]%orb_false_elim.
  rewrite (Hin symbol orders) by constructor. cbn.
  rewrite replaceIn_unknown by exact Ho.
  apply IH; [|exact Hrest].
  intros symbol' orders' H'. apply Hin. now constructor.
Qed.

(** C5: when no open order of any symbol has the id of the replace
    request, replaceOrder completes and leaves the account as it was, but
    it returns past its loops without ever calling [cb]: the list of
    callback invocations is empty. *)
Theorem replaceOrder_unknown_id s order :
  knownId (rep_id order) s = false ->
  replaceOrder s order = Some (s, []).
Proof.
  intros Hunknown. unfold replaceOrder, symbolsOf.
  apply replaceOver_unknown; [|exact Hunknown].
  intros symbol orders. apply elem_of_map_to_list.
Qed.

(** *** closePosition *)

(** C10: closePosition completes, and calls [cb], exactly when the symbol
    of the position has a trade list; with no entry in [trades] it faults
    on the length of an undefined list. *)
Theorem closePosition_needs_trades s position :
  trades s !! keyOf (pos_symbol position) = None ->
  closePosition s position = None.
Proof.
  intros Hnone. unfold closePosition. now rewrite Hnone.
Qed.

Lemma closePosition_with_trades s position lots :
  trades s !! keyOf (pos_symbol position) = Some lots ->
  exists s', closePosition s position = Some (s', [cb0])
    /\ positions s' !! keyOf (pos_symbol position) = None
    /\ trades s' !! keyOf (pos_symbol position) = None.
Proof.
  intros Hlots. unfold closePosition. rewrite Hlots.
  eexists. split; [reflexivity|]. cbn. now rewrite !lookup_delete_eq.
Qed.

End DemoReplaceClose.

Lemma replaceOrder_unknown_id_witness :
  knownId (Some "42") demoAccount = false
  /\ replaceOrder demoAccount
       (mkReplace (Some "42") (mkTuple (Some 197%Q) (Some 198%Q)) (mkTuple None None)
          (mkTuple None None) (500, 500) ("GTC", "GTC") (Some (mkTuple None None)))
     = Some (demoAccount, []).
Proof.
  split; [vm_compute; reflexivity|].
  apply (replaceOrder_unknown_id demoAccount
           (mkReplace (Some "42") (mkTuple (Some 197%Q) (Some 198%Q)) (mkTuple None None)
              (mkTuple None None) (500, 500) ("GTC", "GTC") (Some (mkTuple None None)))).
  vm_compute. reflexivity.
Defined.

Lemma closePosition_needs_trades_witness :
  trades accountWithoutLots !! "GE" = None
  /\ closePosition accountWithoutLots
       (mkPosition 100 26.11 24.11 26.11 (Some "USD") (Some "GE")) = None.
Proof.
  split; [vm_compute; reflexivity|].
  apply (closePosition_needs_trades accountWithoutLots
           (mkPosition 100 26.11 24.11 26.11 (Some "USD") (Some "GE"))).
  vm_compute. reflexivity.
Defined.

Section DemoCancel.

Context (h : Host).

(** *** cancelOrder: one symbol *)

Lemma unprotect_clears o lots lots' :
  unprotect o lots = Some lots' ->
  match linkedIndex (ord_tradeid o) lots with
  | Some i =>
      exists lot p,
        lots !! i = Some lot /\ trd_protect lot = Some p
        /\ lots' = <[i := tradeWithProtect (clearedProtect o p) lot]> lots
  | None => lots' = lots
  end.
Proof.
  revert lots'. induction lots as [|lot rest IH]; intros lots'; cbn [unprotect linkedIndex].
  - congruence.
  - destruct (looseEq (Some (trd_id lot)) (ord_tradeid o)).
    + destruct (trd_protect lot) as [p|] eqn:Hp; [|discriminate].
      intros [= <-]. exists lot, p. repeat split; try assumption.
      cbn. unfold clearedProtect.
      destruct (truthyQ (ord_stop o)), (truthyQ (ord_limit o)); cbn;
        destruct (truthyQ (prot_stop p)), (truthyQ (prot_limit p)); reflexivity.
    + destruct (unprotect o rest) as [rest'|]; [|discriminate].
      intros [= <-]. specialize (IH rest' eq_refl).
      destruct (linkedIndex (ord_tradeid o) rest) as [i|].
      * destruct IH as (lot' & p & Hi & Hp & ->). exists lot', p. auto.
      * now rewrite IH.
Qed.

Lemma unprotect_unlinked o lots lot :
  linkedLot (ord_tradeid o) lots = Some lot ->
  trd_protect lot = None ->
  unprotect o lots = None.
Proof.
  induction lots as [|lot0 rest IH]; cbn [unprotect linkedLot]; [discriminate|].
  destruct (looseEq (Some (trd_id lot0)) (ord_tradeid o)).
  - intros [= ->] ->. reflexivity.
  - intros Hl Hp. now rewrite (IH Hl Hp).
Qed.

(** Clearing a leg for one order never gives a [protect] object to the
    trade another order is linked to. *)
Lemma unprotect_keeps_unlinked o o' lots lots' lot :
  linkedLot (ord_tradeid o) lots = Some lot ->
  trd_protect lot = None ->
  unprotect o' lots = Some lots' ->
  exists lot', linkedLot (ord_tradeid o) lots' = Some lot' /\ trd_protect lot' = None.
Proof.
  revert lots'. induction lots as [|lot0 rest IH]; intros lots';
    cbn [unprotect linkedLot]; [discriminate|].
  destruct (looseEq (Some (trd_id lot0)) (ord_tradeid o)) eqn:Ho.
  - intros [= ->] Hp.
    destruct (looseEq (Some (trd_id lot)) (ord_tradeid o')).
    + now rewrite Hp.
    + destruct (unprotect o' rest); [|discriminate].
      intros [= <-]. cbn [linkedLot]. rewrite Ho. eauto.
  - intros Hl Hp.
    destruct (looseEq (Some (trd_id lot0)) (ord_tradeid o')).
    + destruct (trd_protect lot0); [|discriminate].
      intros [= <-]. cbn [linkedLot tradeWithProtect trd_id]. rewrite Ho. eauto.
    + destruct (unprotect o' rest) as [rest'|]; [|discriminate].
      intros [= <-]. cbn [linkedLot]. rewrite Ho. now apply IH.
Qed.

Lemma cancelIn_unlinked id orders : forall lots o lot,
  In o orders ->
  looseEq id (ord_id o) = true ->
  truthyS (ord_tradeid o) = true ->
  linkedLot (ord_tradeid o) lots = Some lot ->
  trd_protect lot = None ->
  cancelIn h id orders (Some lots) = None.
Proof.
  induction orders as [|o0 rest IH]; intros lots o lot Hin Hid Htid Hl Hp;
    [destruct Hin|].
  cbn [cancelIn].
  destruct (looseEq id (ord_id o0)) eqn:Hid0.
  - unfold unprotectLinked.
    destruct Hin as [->|Hin].
    + now rewrite Htid, (unprotect_unlinked _ _ _ Hl Hp).
    + destruct (truthyS (ord_tradeid o0)).
      * destruct (unprotect o0 lots) as [lots'|] eqn:Hu; [|reflexivity].
        destruct (unprotect_keeps_unlinked _ _ _ _ _ Hl Hp Hu) as (lot' & Hl' & Hp').
        eapply IH; eassumption.
      * eapply IH; eassumption.
  - destruct Hin as [->|Hin]; [congruence|].
    now rewrite (IH lots o lot Hin Hid Htid Hl Hp).
Qed.

Lemma cancelIn_spec id orders : forall lots orders' lots',
  cancelIn h id orders lots = Some (orders', lots') ->
  orders' = survivors h id orders
  /\ unprotectAll (List.filter (fun o => looseEq id (ord_id o)) orders) lots
     = Some lots'.
Proof.
  unfold survivors.
  induction orders as [|o rest IH]; intros lots orders' lots';
    cbn [cancelIn List.filter map unprotectAll].
  - now intros [= <- <-].
  - destruct (looseEq id (ord_id o)); cbn [negb map unprotectAll].
    + destruct (unprotectLinked o lots) as [lots1|]; [|discriminate].
      apply IH.
    + destruct (cancelIn h id rest lots) as [[rest' lots1]|] eqn:E; [|discriminate].
      intros [= <- <-]. destruct (IH _ _ _ E) as [-> ->]. auto.
Qed.

Lemma unprotectLinked_is_Some o lots lots' :
  unprotectLinked o lots = Some lots' -> (lots' = None <-> lots = None).
Proof.
  unfold unprotectLinked.
  destruct (truthyS (ord_tradeid o)).
  - destruct lots as [l|]; [|now intros [= <-]].
    destruct (unprotect o l); [|discriminate]. intros [= <-]. split; discriminate.
  - now intros [= <-].
Qed.

Lemma unprotectAll_is_Some cancelled : forall lots lots',
  unprotectAll cancelled lots = Some lots' -> (lots' = None <-> lots = None).
Proof.
  induction cancelled as [|o rest IH]; intros lots lots'; cbn [unprotectAll].
  - now intros [= <-].
  - destruct (unprotectLinked o lots) as [lots1|] eqn:E; [|discriminate].
    intros H%IH. rewrite H. now apply unprotectLinked_is_Some in E.
Qed.

(** *** cancelOrder: all symbols *)

Lemma cancelSymbol_frame id s symbol s' :
  cancelSymbol h id s symbol = Some s' ->
  balances s' = balances s /\ positions s' = positions s /\ idcalls s' = idcalls s.
Proof.
  unfold cancelSymbol.
  destruct (openOrders s !! symbol) as [orders|]; [|now intros [= <-]].
  destruct (cancelIn h id orders _) as [[orders' lots']|]; [|discriminate].
  now intros [= <-].
Qed.

Lemma cancelSymbol_other id s symbol s' symbol' :
  cancelSymbol h id s symbol = Some s' ->
  symbol <> symbol' ->
  openOrders s' !! symbol' = openOrders s !! symbol'
  /\ trades s' !! symbol' = trades s !! symbol'.
Proof.
  unfold cancelSymbol.
  destruct (openOrders s !! symbol) as [orders|]; [|now intros [= <-]].
  destruct (cancelIn h id orders _) as [[orders' lots']|]; [|discriminate].
  intros [= <-] Hne. cbn. rewrite lookup_insert_ne by exact Hne.
  destruct lots'; [rewrite lookup_insert_ne by exact Hne|]; auto.
Qed.

Lemma cancelSymbol_same id s symbol s' orders :
  cancelSymbol h id s symbol = Some s' ->
  openOrders s !! symbol = Some orders ->
  openOrders s' !! symbol = Some (survivors h id orders)
  /\ unprotectAll (List.filter (fun o => looseEq id (ord_id o)) orders)
       (trades s !! symbol) = Some (trades s' !! symbol).
Proof.
  unfold cancelSymbol. intros Hc Ho. rewrite Ho in Hc.
  destruct (cancelIn h id orders _) as [[orders' lots']|] eqn:E; [|discriminate].
  injection Hc as <-. cbn.
  destruct (cancelIn_spec _ _ _ _ _ E) as [-> Hall].
  split; [apply lookup_insert_eq|].
  rewrite Hall. f_equal.
  destruct lots' as [l|]; [now rewrite lookup_insert_eq|].
  symmetry. now apply (unprotectAll_is_Some _ _ _ Hall).
Qed.

Lemma cancelOver_frame id symbols : forall s s',
  cancelOver h id symbols s = Some s' ->
  balances s' = balances s /\ positions s' = positions s /\ idcalls s' = idcalls s.
Proof.
  induction symbols as [|symbol rest IH]; intros s s'; cbn [cancelOver].
  - now intros [= <-].
  - destruct (cancelSymbol h id s symbol) as [s1|] eqn:E; [|discriminate].
    intros (-> & -> & ->)%IH. now apply cancelSymbol_frame in E.
Qed.

Lemma cancelOver_other id symbols symbol' : forall s s',
  cancelOver h id symbols s = Some s' ->
  ~ In symbol' symbols ->
  openOrders s' !! symbol' = openOrders s !! symbol'
  /\ trades s' !! symbol' = trades s !! symbol'.
Proof.
  induction symbols as [|symbol rest IH]; intros s s'; cbn [cancelOver].
  - now intros [= <-].
  - destruct (cancelSymbol h id s symbol) as [s1|] eqn:E; [|discriminate].
    intros Hrest Hnin.
    destruct (IH _ _ Hrest) as [-> ->]; [intros ?; apply Hnin; now right|].
    eapply cancelSymbol_other; [exact E|]. intros ->. apply Hnin. now left.
Qed.

Lemma cancelOver_same id symbols symbol' orders : forall s s',
  List.NoDup symbols ->
  In symbol' symbols ->
  cancelOver h id symbols s = Some s' ->
  openOrders s !! symbol' = Some orders ->
  openOrders s' !! symbol' = Some (survivors h id orders)
  /\ unprotectAll (List.filter (fun o => looseEq id (ord_id o)) orders)
       (trades s !! symbol') = Some (trades s' !! symbol').
Proof.
  induction symbols as [|symbol rest IH]; intros s s' Hnd Hin; [destruct Hin|].
  cbn [cancelOver].
  destruct (cancelSymbol h id s symbol) as [s1|] eqn:E; [|discriminate].
  intros Hrest Ho. inversion Hnd as [|? ? Hnin Hnd']; subst.
  destruct (String.eqb_spec symbol symbol') as [->|Hne].
  - destruct (cancelOver_other _ _ _ _ _ Hrest Hnin) as [-> ->].
    eapply cancelSymbol_same; eassumption.
  - destruct Hin as [?|Hin]; [contradiction|].
    destruct (cancelSymbol_other _ _ _ _ symbol' E Hne) as [Ho1 Ht1].
    rewrite <- Ht1. apply (IH s1 s' Hnd' Hin Hrest). now rewrite Ho1.
Qed.

Lemma cancelOver_unlinked id symbols symbol orders lots o lot : forall s,
  In symbol symbols ->
  openOrders s !! symbol = Some orders ->
  trades s !! symbol = Some lots ->
  In o orders ->
  looseEq id (ord_id o) = true ->
  truthyS (ord_tradeid o) = true ->
  linkedLot (ord_tradeid o) lots = Some lot ->
  trd_protect lot = None ->
  cancelOver h id symbols s = None.
Proof.
  induction symbols as [|symbol0 rest IH]; intros s Hin Ho Ht Hino Hid Htid Hl Hp;
    [destruct Hin|].
  cbn [cancelOver].
  destruct (cancelSymbol h id s symbol0) as [s1|] eqn:E; [|reflexivity].
  destruct (String.eqb_spec symbol0 symbol) as [->|Hne].
  - unfold cancelSymbol in E. rewrite Ho, Ht in E.
    now rewrite (cancelIn_unlinked _ _ _ _ _ Hino Hid Htid Hl Hp) in E.
  - destruct Hin as [?|Hin]; [contradiction|].
    destruct (cancelSymbol_other _ _ _ _ symbol E Hne) as [Ho1 Ht1].
    apply IH; try assumption; congruence.
Qed.

Lemma symbolsOf_NoDup s : List.NoDup (symbolsOf s).
Proof. apply NoDup_ListNoDup, NoDup_fst_map_to_list. Qed.

Lemma symbolsOf_In s symbol :
  In symbol (symbolsOf s) <-> is_Some (openOrders s !! symbol).
Proof.
  unfold symbolsOf. rewrite <- list_elem_of_In, list_elem_of_fmap. split.
  - intros ([k v] & -> & Hkv%elem_of_map_to_list). eauto.
  - intros [v Hv]. exists (symbol, v). split; [reflexivity|].
    now apply elem_of_map_to_list.
Qed.

(** C9: cancelOrder faults, and never reaches [cb], whenever an open order
    with the cancelled id carries a tradeid and the trade it is linked to
    (the first of its symbol with that id) has no [protect] object. *)
Theorem cancelOrder_needs_protect s order symbol orders lots o lot :
  openOrders s !! symbol = Some orders ->
  trades s !! symbol = Some lots ->
  In o orders ->
  looseEq (ord_id order) (ord_id o) = true ->
  truthyS (ord_tradeid o) = true ->
  linkedLot (ord_tradeid o) lots = Some lot ->
  trd_protect lot = None ->
  cancelOrder h s order = None.
Proof.
  intros Ho Ht Hin Hid Htid Hl Hp. unfold cancelOrder.
  rewrite (cancelOver_unlinked (ord_id order) (symbolsOf s) symbol orders lots o lot);
    try assumption; [reflexivity|].
  apply symbolsOf_In. eauto.
Qed.

(** C3: let [o] be the open order, under [symbol], that has the id of the
    order given to cancelOrder, and let the call complete.  Then [cb] is
    called once; under every symbol the open orders left are those of
    another id, in their order, each with an [oco] that equalled the
    cancelled id set to [null]; positions and balances are untouched; and
    the lots of [symbol] change only when [o] carries a tradeid that some
    lot has, in which case the first such lot loses the stop leg of its
    [protect] if [o] had a stop, else the limit leg if [o] had a limit,
    and loses [protect] altogether when neither leg remains. *)
Theorem cancelOrder_severs s order s' calls symbol orders o :
  cancelOrder h s order = Some (s', calls) ->
  openOrders s !! symbol = Some orders ->
  List.filter (fun x => looseEq (ord_id order) (ord_id x)) orders = [o] ->
  calls = [cb0]
  /\ (forall symbol', openOrders s' !! symbol'
        = survivors h (ord_id order) <$> openOrders s !! symbol')
  /\ positions s' = positions s
  /\ balances s' = balances s
  /\ trades s' !! symbol
     = match trades s !! symbol with
       | Some lots =>
           if truthyS (ord_tradeid o) then
             match linkedIndex (ord_tradeid o) lots with
             | Some i =>
                 Some (alter (fun lot =>
                                tradeWithProtect
                                  (trd_protect lot ≫= clearedProtect o) lot) i lots)
             | None => Some lots
             end
           else Some lots
       | None => None
       end.
Proof.
  unfold cancelOrder. intros Hc Ho Hone.
  destruct (cancelOver h (ord_id order) (symbolsOf s) s) as [s1|] eqn:E; [|discriminate].
  injection Hc as <- <-.
  destruct (cancelOver_frame _ _ _ _ E) as (Hb & Hp & _).
  split; [reflexivity|]. split; [|split; [exact Hp|split; [exact Hb|]]].
  - intros symbol'. destruct (openOrders s !! symbol') as [orders'|] eqn:Ho'.
    + eapply cancelOver_same; eauto using symbolsOf_NoDup.
      apply symbolsOf_In. eauto.
    + destruct (cancelOver_other _ _ symbol' _ _ E) as [-> _]; [|exact Ho'].
      rewrite symbolsOf_In, Ho'. now intros [? ?].
  - destruct (cancelOver_same _ _ symbol orders _ _ (symbolsOf_NoDup s)
                (proj2 (symbolsOf_In s symbol) (ex_intro _ _ Ho)) E Ho) as [_ Hall].
    rewrite Hone in Hall. cbn [unprotectAll] in Hall.
    destruct (unprotectLinked o (trades s !! symbol)) as [lots1|] eqn:Hu; [|discriminate].
    injection Hall as <-. unfold unprotectLinked in Hu.
    destruct (trades s !! symbol) as [lots|].
    2: { destruct (truthyS (ord_tradeid o)); now injection Hu as <-. }
    destruct (truthyS (ord_tradeid o)); [|now injection Hu as <-].
    destruct (unprotect o lots) as [lots'|] eqn:Hu'; [|discriminate].
    injection Hu as <-. apply unprotect_clears in Hu'.
    destruct (linkedIndex (ord_tradeid o) lots) as [i|]; [|now subst].
    destruct Hu' as (lot & p & Hi & Hp' & ->). f_equal.
    apply list_eq. intros j. destruct (decide (i = j)) as [<-|Hne].
    + rewrite list_lookup_alter_eq, Hi. cbn. rewrite Hp'. cbn.
      apply list_lookup_insert_eq. eapply lookup_lt_Some, Hi.
    + rewrite list_lookup_alter_ne, list_lookup_insert_ne by exact Hne. reflexivity.
Qed.

End DemoCancel.

Section DemoExecute.

Context (h : Host).

(** *** execute: lots *)

Lemma lookup_settled {A} (key : string) (l : list A) (m : gmap string (list A)) :
  default [] (match l with
              | [] => delete key m
              | _ => <[key := l]> m
              end !! key) = l.
Proof.
  destruct l; [now rewrite lookup_delete_eq|now rewrite lookup_insert_eq].
Qed.

Lemma lookup_settled_ne {A} (key key' : string) (l : list A) (m : gmap string (list A)) :
  key <> key' ->
  match l with
  | [] => delete key m
  | _ => <[key := l]> m
  end !! key' = m !! key'.
Proof.
  intros Hne. destruct l; [now rewrite lookup_delete_ne|now rewrite lookup_insert_ne].
Qed.

Lemma lotsQuantity_cons lot lots :
  lotsQuantity (lot :: lots) = trd_quantity lot + lotsQuantity lots.
Proof. reflexivity. Qed.

Lemma lotsQuantity_app lots lot :
  lotsQuantity (lots ++ [lot]) = lotsQuantity lots + trd_quantity lot.
Proof.
  induction lots as [|l rest IH]; [cbn; lia|].
  rewrite <- app_comm_cons, !lotsQuantity_cons, IH. lia.
Qed.

(** What the loop takes off the lots is what it takes off the residual. *)
Lemma consume_quantity vspId lots : forall qty oo qty' lots' oo',
  consume vspId qty lots oo = Some (qty', lots', oo') ->
  lotsQuantity lots' - qty' = lotsQuantity lots - qty.
Proof.
  induction lots as [|lot rest IH]; intros qty oo qty' lots' oo'; cbn [consume].
  - now intros [= <- <- _].
  - destruct (truthyS vspId && negb (looseEq (Some (trd_id lot)) vspId)).
    + destruct (consume vspId qty rest oo) as [[[q l] o]|] eqn:E; [|discriminate].
      intros [= <- <- _]. apply IH in E. rewrite !lotsQuantity_cons. lia.
    + destruct (Z.abs (trd_quantity lot) <=? Z.abs qty).
      * assert (forall oo1, consume vspId (qty - trd_quantity lot) rest oo1
                            = Some (qty', lots', oo') ->
                            lotsQuantity lots' - qty' = lotsQuantity (lot :: rest) - qty)
          as Hstep.
        { intros oo1 E. apply IH in E. rewrite lotsQuantity_cons. lia. }
        destruct (trd_protect lot), oo; try discriminate; apply Hstep.
      * assert (lotsQuantity (tradeWithQuantity (trd_quantity lot - qty) lot :: rest) - 0
                = lotsQuantity (lot :: rest) - qty) as Hstep
          by (rewrite !lotsQuantity_cons; cbn [tradeWithQuantity trd_quantity]; lia).
        destruct (trd_protect lot), oo; try discriminate;
          intros [= <- <- _]; exact Hstep.
Qed.

(** A lot the loop leaves with quantity 0 is a lot it did not touch. *)
Lemma consume_zero vspId lots : forall qty oo qty' lots' oo' lot',
  consume vspId qty lots oo = Some (qty', lots', oo') ->
  In lot' lots' -> trd_quantity lot' = 0 -> In lot' lots.
Proof.
  induction lots as [|lot rest IH]; intros qty oo qty' lots' oo' lot'; cbn [consume].
  - now intros [= _ <- _].
  - destruct (truthyS vspId && negb (looseEq (Some (trd_id lot)) vspId)).
    + destruct (consume vspId qty rest oo) as [[[q l] o]|] eqn:E; [|discriminate].
      intros [= _ <- _] [->|Hin] Hz; [now left|]. right. eapply IH; eassumption.
    + destruct (Z.abs (trd_quantity lot) <=? Z.abs qty) eqn:Hle.
      * assert (forall oo1, consume vspId (qty - trd_quantity lot) rest oo1
                            = Some (qty', lots', oo') ->
                            In lot' lots' -> trd_quantity lot' = 0 -> In lot' (lot :: rest))
          as Hstep.
        { intros oo1 E Hin Hz. right. eapply IH; eassumption. }
        destruct (trd_protect lot), oo; try discriminate; apply Hstep.
      * apply Z.leb_gt in Hle.
        assert (In lot' (tradeWithQuantity (trd_quantity lot - qty) lot :: rest) ->
                trd_quantity lot' = 0 -> In lot' (lot :: rest)) as Hstep.
        { intros [<-|Hin] Hz; [cbn in Hz; lia|now right]. }
        destruct (trd_protect lot), oo; try discriminate;
          intros [= _ <- _]; exact Hstep.
Qed.

(** The lots of the order's symbol after [execute]: their signed sum has
    moved by the signed quantity of the fill, and none of quantity 0 is
    new unless the order itself had quantity 0. *)
Lemma execute_trades s order price s' :
  execute h s order price = Some s' ->
  let symbol := keyOf (ord_symbol order) in
  let quantity := signedQuantity (ord_action order) (ord_quantity order) in
  positions s'
    = (fillPosition (positions s) symbol (ord_action order) quantity price).1
  /\ exists lots',
       (trades s' = <[symbol := lots']> (trades s)
        \/ (lots' = [] /\ trades s' = delete symbol (trades s)))
       /\ lotsQuantity lots'
          = lotsQuantity (default [] (trades s !! symbol)) + quantity
       /\ (forall lot', In lot' lots' -> trd_quantity lot' = 0 ->
             In lot' (default [] (trades s !! symbol)) \/ quantity = 0).
Proof.
  unfold execute.
  destruct (fillPosition _ _ _ _ _) as [positions' action]. cbn [fst].
  set (symbol := keyOf (ord_symbol order)).
  set (quantity := signedQuantity (ord_action order) (ord_quantity order)).
  set (lots := default [] (trades s !! symbol)).
  destruct (opening action).
  - destruct (openOrders s !! symbol) as [orders|]; [|discriminate].
    destruct (match otoProtect (ord_oto order) with Some _ => _ | None => _ end)
      as [orders' calls'].
    intros [= <-]. cbn. split; [reflexivity|].
    eexists. split; [left; reflexivity|]. split.
    + apply lotsQuantity_app.
    + intros lot' [Hin|[<-|[]]]%in_app_or Hz; [now left|now right].
  - destruct (consume (ord_vspId order) (quantity * -1) lots (openOrders s !! symbol))
      as [[[qty lots'] oo]|] eqn:E; [|discriminate].
    pose proof (consume_quantity _ _ _ _ _ _ _ E) as Hsum.
    pose proof (fun lot' => consume_zero _ _ _ _ _ _ _ lot' E) as Hzero.
    destruct (Z.eqb_spec qty 0) as [->|Hne].
    + destruct oo as [orders|]; [|discriminate].
      intros [= <-]. cbn. split; [reflexivity|].
      exists lots'. split; [|split; [lia|eauto]].
      destruct lots'; [right|left]; auto.
    + destruct oo as [orders|]; [|discriminate].
      destruct (match otoProtect (ord_oto order) with Some _ => _ | None => _ end)
        as [orders' calls'].
      intros [= <-]. cbn. split; [reflexivity|].
      eexists. split; [left; reflexivity|]. split.
      * rewrite lotsQuantity_app. cbn [trd_quantity]. lia.
      * intros lot' [Hin|[<-|[]]]%in_app_or Hz; [eauto|cbn in Hz; lia].
Qed.

Lemma execute_trades_other s order price s' symbol' :
  execute h s order price = Some s' ->
  keyOf (ord_symbol order) <> symbol' ->
  trades s' !! symbol' = trades s !! symbol'
  /\ positions s' !! symbol' = positions s !! symbol'.
Proof.
  intros He Hne. destruct (execute_trades _ _ _ _ He) as (-> & lots' & Ht & _).
  split.
  - destruct Ht as [->|[_ ->]];
      [now rewrite lookup_insert_ne|now rewrite lookup_delete_ne].
  - unfold fillPosition.
    destruct (positions s !! keyOf (ord_symbol order)) as [position|]; cbn.
    + destruct (_ =? 0); cbn;
        [now rewrite lookup_delete_ne|now rewrite lookup_insert_ne].
    + now rewrite lookup_insert_ne.
Qed.

(** *** execute: the position *)


Lemma fillPosition_lookup positions symbol action quantity price :
  (fillPosition positions symbol action quantity price).1 !! symbol
  = match positions !! symbol with
    | None => Some (mkPosition quantity price price price None None)
    | Some position =>
        if pos_quantity position + quantity =? 0 then None
        else Some (mkPosition (pos_quantity position + quantity)
                     (if opening (reclassify position action)
                      then toFixed2 (((inject_Z (pos_quantity position)
                                       * pos_basis position)
                                      + (inject_Z quantity * price))
                                     / inject_Z (pos_quantity position + quantity))%Q
                      else pos_basis position)
                     price (pos_prevClose position) (pos_currency position)
                     (pos_symbol position))
    end.
Proof.
  unfold fillPosition. destruct (positions !! symbol) as [position|]; cbn.
  - destruct (_ =? 0); cbn; [apply lookup_delete_eq|apply lookup_insert_eq].
  - apply lookup_insert_eq.
Qed.

(** In the integer embedding: if, before a call of execute that completes,
    the quantity of every position (0 where there is none) is the signed
    sum of the quantities of the trades of its symbol (0 where there is no
    list), then the same holds of every symbol after the call. *)
Lemma execute_quantities_integers s order price s' :
  execute h s order price = Some s' ->
  (forall symbol, positionQuantity s symbol = tradesQuantity s symbol) ->
  forall symbol, positionQuantity s' symbol = tradesQuantity s' symbol.
Proof.
  intros He Hinv symbol.
  destruct (String.eqb_spec (keyOf (ord_symbol order)) symbol) as [<-|Hne].
  - specialize (Hinv (keyOf (ord_symbol order))).
    destruct (execute_trades _ _ _ _ He) as (Hp & lots' & Ht & Hsum & _).
    unfold positionQuantity, tradesQuantity in *.
    rewrite Hp, fillPosition_lookup.
    assert (match trades s' !! keyOf (ord_symbol order) with
            | Some lots => lotsQuantity lots
            | None => 0
            end = lotsQuantity lots') as ->.
    { destruct Ht as [->|[-> ->]];
        [now rewrite lookup_insert_eq|now rewrite lookup_delete_eq]. }
    rewrite Hsum.
    destruct (positions s !! keyOf (ord_symbol order)) as [position|];
      destruct (trades s !! keyOf (ord_symbol order)) as [lots|]; cbn in *;
      try destruct (Z.eqb_spec (pos_quantity position
                                + signedQuantity (ord_action order) (ord_quantity order)) 0);
      unfold lotsQuantity in *; cbn in *; lia.
  - destruct (execute_trades_other _ _ _ _ symbol He Hne) as [Ht Hp].
    specialize (Hinv symbol). unfold positionQuantity, tradesQuantity in *.
    now rewrite Ht, Hp.
Qed.

End DemoExecute.

(** ** execute in double precision *)

Section DoubleArithmetic.

(** *** The sum of two positive doubles *)

Lemma iter_pos_nat {A} (f : A -> A) p : forall x,
  SpecFloat.iter_pos f p x = Nat.iter (Pos.to_nat p) f x.
Proof.
  induction p as [p IH|p IH|]; intros x; cbn [SpecFloat.iter_pos].
  - rewrite !IH, Pos2Nat.inj_xI.
    replace (S (2 * Pos.to_nat p)) with (Pos.to_nat p + (Pos.to_nat p + 1))%nat by lia.
    now rewrite !Nat.iter_add.
  - rewrite !IH, Pos2Nat.inj_xO.
    replace (2 * Pos.to_nat p)%nat with (Pos.to_nat p + Pos.to_nat p)%nat by lia.
    now rewrite Nat.iter_add.
  - reflexivity.
Qed.

(** Shifting a positive mantissa right by fewer places than it has digits
    leaves a positive mantissa. *)
Lemma shr_1_iter_positive k : forall m r s,
  (k < Pos.to_nat (digits2_pos m))%nat ->
  exists m' r' s',
    Nat.iter k shr_1 {| shr_m := Zpos m; shr_r := r; shr_s := s |}
    = {| shr_m := Zpos m'; shr_r := r'; shr_s := s' |}
    /\ (Pos.to_nat (digits2_pos m') = Pos.to_nat (digits2_pos m) - k)%nat.
Proof.
  induction k as [|k IH]; intros m r s Hk.
  - exists m, r, s. split; [reflexivity|lia].
  - rewrite Nat.iter_succ_r.
    destruct m as [p|p|]; cbn [digits2_pos] in Hk; rewrite ?Pos2Nat.inj_succ in Hk;
      [| |cbn in Hk; lia];
      cbn [shr_1];
      (destruct (IH p false (r || s)%bool) as (m' & r' & s' & -> & Hd)
       || destruct (IH p true (r || s)%bool) as (m' & r' & s' & -> & Hd)); try lia;
      exists m', r', s'; (split; [reflexivity|]);
      cbn [digits2_pos]; rewrite Pos2Nat.inj_succ; lia.
Qed.

Lemma shr_fexp_positive m e l :
  emin <= e ->
  exists m' r s e',
    shr_fexp prec emax (Zpos m) e l = ({| shr_m := Zpos m'; shr_r := r; shr_s := s |}, e')
    /\ emin <= e'.
Proof.
  intros He. unfold shr_fexp, shr.
  destruct (fexp prec emax (Zdigits2 (Z.pos m) + e) - e) as [|n|n] eqn:Hn.
  - destruct l as [|[]]; cbn; eauto 10.
  - unfold fexp, Zdigits2 in Hn.
    assert (Z.pos n = Z.pos (digits2_pos m) - prec) as Hn'.
    { change (SpecFloat.emin prec emax) with emin in Hn. lia. }
    rewrite iter_pos_nat.
    assert (Pos.to_nat n < Pos.to_nat (digits2_pos m))%nat as Hlt.
    { unfold prec in Hn'. lia. }
    destruct l as [|[]]; cbn [shr_record_of_loc];
      match goal with
      | |- context [Nat.iter _ shr_1 {| shr_m := _; shr_r := ?r; shr_s := ?s |}] =>
          destruct (shr_1_iter_positive (Pos.to_nat n) m r s Hlt) as (m' & r' & s' & -> & _)
      end;
      exists m', r', s', (e + Z.pos n); (split; [reflexivity|lia]).
  - destruct l as [|[]]; cbn; eauto 10.
Qed.

Lemma round_nearest_even_positive m l :
  exists m', round_nearest_even (Zpos m) l = Zpos m'.
Proof.
  unfold round_nearest_even.
  destruct l as [|[]]; try destruct (Z.even (Z.pos m)); cbn; eauto.
Qed.

Lemma binary_round_aux_positive m e l :
  emin <= e ->
  SFeqb (binary_round_aux prec emax false (Zpos m) e l) (S754_zero false) = false.
Proof.
  intros He. unfold binary_round_aux.
  destruct (shr_fexp_positive m e l He) as (m1 & r1 & s1 & e1 & -> & He1).
  cbn [shr_m].
  destruct (round_nearest_even_positive m1
              (loc_of_shr_record {| shr_m := Z.pos m1; shr_r := r1; shr_s := s1 |}))
    as (m2 & ->).
  destruct (shr_fexp_positive m2 e1 loc_Exact He1) as (m3 & r3 & s3 & e3 & -> & _).
  cbn [shr_m]. now destruct (e3 <=? emax - prec).
Qed.

Lemma binary_round_positive m e :
  emin <= e ->
  SFeqb (binary_round prec emax false m e) (S754_zero false) = false.
Proof.
  intros He. unfold binary_round, shl_align.
  destruct (fexp prec emax (Z.pos (digits2_pos m) + e) - e) as [|d|d] eqn:Hd;
    apply binary_round_aux_positive; try assumption.
  unfold fexp in *. change (SpecFloat.emin prec emax) with emin in *. lia.
Qed.

Lemma valid_exponent s m e :
  valid_binary (S754_finite s m e) = true -> emin <= e.
Proof.
  unfold SpecFloat.valid_binary, bounded, canonical_mantissa, fexp.
  change (SpecFloat.emin prec emax) with emin.
  intros [H _]%andb_prop. apply Z.eqb_eq in H. lia.
Qed.

(** A double above zero is not below it. *)
Lemma double_positive x :
  PrimFloat.ltb 0 x = true -> PrimFloat.ltb x 0 = false.
Proof.
  rewrite !FloatAxioms.ltb_spec. change (Prim2SF 0) with (S754_zero false).
  unfold SFltb, SFcompare.
  destruct (Prim2SF x) as [s|[]| |[] m e]; try discriminate; reflexivity.
Qed.

(** The sum of two doubles above zero is not zero. *)
Lemma double_sum_positive x y :
  PrimFloat.ltb 0 x = true -> PrimFloat.ltb 0 y = true ->
  PrimFloat.eqb (x + y) 0 = false.
Proof.
  rewrite !FloatAxioms.ltb_spec, FloatAxioms.eqb_spec, FloatAxioms.add_spec.
  change (Prim2SF 0) with (S754_zero false).
  pose proof (Prim2SF_valid x) as Hx. pose proof (Prim2SF_valid y) as Hy.
  destruct (Prim2SF x) as [sx|[]| |[] mx ex]; try discriminate;
    destruct (Prim2SF y) as [sy|[]| |[] my ey]; try discriminate; intros _ _;
    try reflexivity.
  apply valid_exponent in Hx, Hy.
  unfold SF64add, SFadd, binary_normalize. cbn [cond_Zopp Z.add].
  apply binary_round_positive. lia.
Qed.

(** *** Zero, and the product with -1 *)

(** A double that [== 0] is the rational 0. *)
Lemma eqb_zero_exact x :
  PrimFloat.eqb x 0 = true -> Binary64.exact x = Some 0%Q.
Proof.
  rewrite FloatAxioms.eqb_spec. change (Prim2SF 0) with (S754_zero false).
  unfold Binary64.exact, SFeqb, SFcompare.
  destruct (Prim2SF x) as [s|[]| |[] m e]; try discriminate; reflexivity.
Qed.


Lemma iter_xO_mul k : forall m,
  (m * Nat.iter k xO 1)%positive = Nat.iter k xO m.
Proof.
  induction k as [|k IH]; intros m.
  - apply Pos.mul_1_r.
  - now rewrite !Nat.iter_succ, Pos.mul_xO_r, IH.
Qed.

Lemma iter_xO_digits k : forall m,
  Z.pos (digits2_pos (Nat.iter k xO m)) = Z.pos (digits2_pos m) + Z.of_nat k.
Proof.
  induction k as [|k IH]; intros m; [cbn; lia|].
  rewrite Nat.iter_succ. cbn [digits2_pos]. rewrite Pos2Z.inj_succ, IH. lia.
Qed.

Lemma shr_1_iter_xO k : forall m,
  Nat.iter k shr_1 {| shr_m := Z.pos (Nat.iter k xO m); shr_r := false; shr_s := false |}
  = {| shr_m := Z.pos m; shr_r := false; shr_s := false |}.
Proof.
  induction k as [|k IH]; intros m; [reflexivity|].
  rewrite Nat.iter_succ_r, (Nat.iter_succ k xO). cbn [shr_1 orb]. apply IH.
Qed.

(** A double times -1 is that double with the other sign. *)
Lemma negate_spec x :
  Prim2SF (x * -1)%float = SFopp (Prim2SF x).
Proof.
  rewrite FloatAxioms.mul_spec.
  change (Prim2SF (-1)) with (S754_finite true (Nat.iter 52 xO 1%positive) (-52)).
  pose proof (Prim2SF_valid x) as Hx.
  destruct (Prim2SF x) as [s|s| |s m e];
    [now destruct s|now destruct s|reflexivity|].
  unfold SF64mul, SFmul, binary_round_aux, shr_fexp, Zdigits2.
    unfold SpecFloat.valid_binary, bounded, canonical_mantissa in Hx.
    apply andb_prop in Hx as [Hc Hb]. apply Z.eqb_eq in Hc. apply Z.leb_le in Hb.
    rewrite iter_xO_mul, iter_xO_digits.
    replace (Z.pos (digits2_pos m) + Z.of_nat 52 + (e + -52))
      with (Z.pos (digits2_pos m) + e) by lia.
    rewrite Hc. replace (e - (e + -52)) with (Z.pos 52) by lia.
    unfold shr. rewrite iter_pos_nat.
    change (Pos.to_nat 52) with 52%nat. cbn [shr_record_of_loc].
    rewrite shr_1_iter_xO. cbn [shr_m loc_of_shr_record round_nearest_even Zdigits2].
    replace (e + -52 + Z.pos 52) with e by lia.
  rewrite Hc, Z.sub_diag. cbn [shr_record_of_loc shr_m].
  apply Z.leb_le in Hb. rewrite Hb. now destruct s.
Qed.

Lemma negate_exact x v :
  Binary64.exact x = Some v ->
  exists v', Binary64.exact (x * -1)%float = Some v' /\ (v' == - v)%Q.
Proof.
  unfold Binary64.exact. rewrite negate_spec.
  destruct (Prim2SF x) as [s|s| |s m e]; try discriminate; cbn [SFopp].
  - intros [= <-]. exists 0%Q. split; reflexivity.
  - intros [= <-]. eexists. split; [reflexivity|]. destruct s; cbn [negb]; lra.
Qed.


(** *** toFixed(2) *)

Lemma hundredths_nearest m e :
  (inject_Z (Binary64.hundredths m e) - (1 # 2)
   <= 100 * (if 0 <=? e then inject_Z (Zpos m * 2 ^ e)
             else Qmake (Zpos m) (Z.to_pos (2 ^ (- e)))))%Q
  /\ (100 * (if 0 <=? e then inject_Z (Zpos m * 2 ^ e)
             else Qmake (Zpos m) (Z.to_pos (2 ^ (- e))))
      < inject_Z (Binary64.hundredths m e) + (1 # 2))%Q.
Proof.
  unfold Binary64.hundredths. destruct (Z.leb_spec 0 e) as [He|He].
  - unfold Qle, Qlt, inject_Z. cbn [Qnum Qden Qmult Qplus Qminus Qopp].
    split; lia.
  - set (k := - e). assert (0 < k) as Hk by lia.
    assert (0 < 2 ^ k) as Hp by (apply Z.pow_pos_nonneg; lia).
    assert (2 ^ (k + 1) = 2 * 2 ^ k) as Hs by (rewrite Z.pow_add_r by lia; lia).
    rewrite Hs.
    pose proof (Z.mul_div_le (Zpos m * 200 + 2 ^ k) (2 * 2 ^ k)) as Hlo.
    pose proof (Z.mul_succ_div_gt (Zpos m * 200 + 2 ^ k) (2 * 2 ^ k)) as Hhi.
    set (n := (Zpos m * 200 + 2 ^ k) / (2 * 2 ^ k)) in *.
    unfold Qle, Qlt, inject_Z. cbn [Qnum Qden Qmult Qplus Qminus Qopp].
    rewrite !Pos2Z.inj_mul, !Z2Pos.id by lia.
    split; nia.
Qed.

(** What [toFixed(2)] stores: whenever it makes a decimal string, the
    double is finite and the count of hundredths is the integer nearest to
    a hundred times its magnitude, the larger one of two. *)
Lemma toFixed2_nearest x negative n :
  Binary64.toFixed2 x = Binary64.Hundredths negative n ->
  exists v,
    Binary64.exact x = Some v
    /\ (inject_Z n - (1 # 2) <= 100 * Qabs v)%Q
    /\ (100 * Qabs v < inject_Z n + (1 # 2))%Q.
Proof.
  unfold Binary64.toFixed2, Binary64.exact.
  destruct (PrimFloat.leb _ _); [discriminate|].
  destruct (Prim2SF x) as [s|s| |s m e]; try discriminate.
  - intros [= <- <-]. exists 0%Q. split; [reflexivity|]. unfold Qle, Qlt. cbn. lia.
  - intros [= <- <-]. eexists. split; [reflexivity|].
    destruct (hundredths_nearest m e) as [Hlo Hhi].
    assert (forall v : Q, (0 <= v)%Q -> (Qabs (if s then - v else v) == v)%Q) as Habs.
    { intros v Hv. destruct s; [rewrite Qabs_opp|]; now apply Qabs_pos. }
    assert (0 <= (if 0 <=? e then inject_Z (Z.pos m * 2 ^ e)
                  else Z.pos m # Z.to_pos (2 ^ (- e))))%Q as Hpos.
    { destruct (0 <=? e) eqn:E; unfold Qle; cbn; [|lia].
      apply Z.leb_le in E. pose proof (Z.pow_pos_nonneg 2 e). nia. }
    rewrite (Habs _ Hpos). split; assumption.
Qed.

End DoubleArithmetic.

Section DoubleExecute.

Context (h : Host).

Lemma double_execute_positions s order price s' :
  Binary64.execute h s order price = Some s' ->
  Binary64.positions s'
  = (Binary64.fillPosition (Binary64.positions s) (keyOf (Binary64.ord_symbol order))
       (Binary64.ord_action order)
       (Binary64.signedQuantity (Binary64.ord_action order) (Binary64.ord_quantity order))
       price).1.
Proof.
  unfold Binary64.execute.
  destruct (Binary64.fillPosition _ _ _ _ _) as [positions' action].
  destruct (if opening action then _ else _) as [[[trades' oo] newQuantity]|];
    [|discriminate].
  destruct oo as [orders|]; [|discriminate].
  destruct (match newQuantity with Some _ => _ | None => _ end) as [orders' calls'].
  now intros [= <-].
Qed.

(** *** The lots and the position after execute *)

Lemma exactSum_inv x y :
  Binary64.exactSum x y = true ->
  exists a b c,
    Binary64.exact x = Some a /\ Binary64.exact y = Some b
    /\ Binary64.exact (x + y)%float = Some c /\ (c == a + b)%Q.
Proof.
  unfold Binary64.exactSum.
  destruct (Binary64.exact x) as [a|]; [|discriminate].
  destruct (Binary64.exact y) as [b|]; [|discriminate].
  destruct (Binary64.exact (x + y)%float) as [c|]; [|discriminate].
  intros Hq%Qeq_bool_iff. eauto 10.
Qed.

Lemma exactDifference_inv x y :
  Binary64.exactDifference x y = true ->
  exists a b c,
    Binary64.exact x = Some a /\ Binary64.exact y = Some b
    /\ Binary64.exact (x - y)%float = Some c /\ (c == a - b)%Q.
Proof.
  unfold Binary64.exactDifference.
  destruct (Binary64.exact x) as [a|]; [|discriminate].
  destruct (Binary64.exact y) as [b|]; [|discriminate].
  destruct (Binary64.exact (x - y)%float) as [c|]; [|discriminate].
  intros Hq%Qeq_bool_iff. eauto 10.
Qed.

Lemma lotsExact_cons lot rest t :
  Binary64.lotsExact (lot :: rest) = Some t ->
  exists l tr,
    Binary64.exact (Binary64.trd_quantity lot) = Some l
    /\ Binary64.lotsExact rest = Some tr /\ t = (l + tr)%Q.
Proof.
  cbn [Binary64.lotsExact].
  destruct (Binary64.exact (Binary64.trd_quantity lot)) as [l|]; [|discriminate].
  destruct (Binary64.lotsExact rest) as [tr|]; [|discriminate].
  intros [= <-]. eauto.
Qed.

Lemma lotsExact_app lots : forall lot t l,
  Binary64.lotsExact lots = Some t ->
  Binary64.exact (Binary64.trd_quantity lot) = Some l ->
  exists t', Binary64.lotsExact (lots ++ [lot]) = Some t' /\ (t' == t + l)%Q.
Proof.
  induction lots as [|x rest IH]; intros lot t l Ht Hl.
  - injection Ht as <-. cbn [app Binary64.lotsExact]. rewrite Hl.
    eexists. split; [reflexivity|]. lra.
  - apply lotsExact_cons in Ht as (lx & tr & Hx & Hr & ->).
    destruct (IH lot tr l Hr Hl) as (t' & Ht' & Hq).
    cbn [app Binary64.lotsExact]. rewrite Hx, Ht'.
    eexists. split; [reflexivity|]. lra.
Qed.

(** What the loop takes off the lots is what it takes off the quantity
    left, when none of its differences is rounded. *)
Lemma double_consume_exact vspId lots : forall qty oo qty' lots' oo' q t,
  Binary64.consume vspId qty lots oo = Some (qty', lots', oo') ->
  Binary64.loopExact vspId qty lots = true ->
  Binary64.exact qty = Some q ->
  Binary64.lotsExact lots = Some t ->
  exists q' t',
    Binary64.exact qty' = Some q'
    /\ Binary64.lotsExact lots' = Some t'
    /\ (t' - q' == t - q)%Q.
Proof.
  induction lots as [|lot rest IH]; intros qty oo qty' lots' oo' q t;
    cbn [Binary64.consume Binary64.loopExact].
  - intros [= <- <- _] _ Hq [= <-]. exists q, 0%Q.
    split; [assumption|split; [reflexivity|lra]].
  - destruct (truthyS vspId && negb (looseEq (Some (Binary64.trd_id lot)) vspId)).
    + destruct (Binary64.consume vspId qty rest oo) as [[[q1 l1] o1]|] eqn:E; [|discriminate].
      intros [= <- <- _] Hloop Hq (l & tr & Hl & Hr & ->)%lotsExact_cons.
      destruct (IH _ _ _ _ _ _ _ E Hloop Hq Hr) as (q' & t' & Hq' & Ht' & Heq).
      exists q', (l + t')%Q. cbn [Binary64.lotsExact]. rewrite Hl, Ht'.
      split; [assumption|split; [reflexivity|lra]].
    + destruct (PrimFloat.leb _ _).
      * assert (forall oo1,
                  Binary64.consume vspId (qty - Binary64.trd_quantity lot)%float rest oo1
                  = Some (qty', lots', oo') ->
                  Binary64.exactDifference qty (Binary64.trd_quantity lot)
                  && Binary64.loopExact vspId (qty - Binary64.trd_quantity lot)%float rest = true ->
                  Binary64.exact qty = Some q ->
                  Binary64.lotsExact (lot :: rest) = Some t ->
                  exists q' t',
                    Binary64.exact qty' = Some q'
                    /\ Binary64.lotsExact lots' = Some t'
                    /\ (t' - q' == t - q)%Q) as Hstep.
        { intros oo1 E [Hd Hloop]%andb_prop Hq (l & tr & Hl & Hr & ->)%lotsExact_cons.
          apply exactDifference_inv in Hd as (a & b & c & Ha & Hb & Hc & Hcq).
          rewrite Hq in Ha. injection Ha as <-. rewrite Hl in Hb. injection Hb as <-.
          destruct (IH _ _ _ _ _ _ _ E Hloop Hc Hr) as (q' & t' & Hq' & Ht' & Heq).
          exists q', t'. split; [assumption|split; [assumption|lra]]. }
        destruct (Binary64.trd_protect lot), oo; try discriminate; apply Hstep.
      * assert (lots' = Binary64.tradeWithQuantity (Binary64.trd_quantity lot - qty)%float lot
                        :: rest ->
                qty' = 0%float ->
                Binary64.exactDifference (Binary64.trd_quantity lot) qty = true ->
                Binary64.exact qty = Some q ->
                Binary64.lotsExact (lot :: rest) = Some t ->
                exists q' t',
                  Binary64.exact qty' = Some q'
                  /\ Binary64.lotsExact lots' = Some t'
                  /\ (t' - q' == t - q)%Q) as Hstep.
        { intros -> -> Hd Hq (l & tr & Hl & Hr & ->)%lotsExact_cons.
          apply exactDifference_inv in Hd as (a & b & c & Ha & Hb & Hc & Hcq).
          rewrite Hq in Hb. injection Hb as <-. rewrite Hl in Ha. injection Ha as <-.
          exists 0%Q, (c + tr)%Q. split; [reflexivity|].
          cbn [Binary64.lotsExact Binary64.tradeWithQuantity Binary64.trd_quantity].
          rewrite Hc, Hr. split; [reflexivity|lra]. }
        destruct (Binary64.trd_protect lot), oo; try discriminate;
          intros [= <- <- _]; now apply Hstep.
Qed.

Lemma double_fillPosition_action s order quantity price :
  (Binary64.fillPosition (Binary64.positions s) (keyOf (Binary64.ord_symbol order))
     (Binary64.ord_action order) quantity price).2
  = Binary64.filledAction s order.
Proof.
  unfold Binary64.fillPosition, Binary64.filledAction.
  destruct (Binary64.positions s !! keyOf (Binary64.ord_symbol order)) as [position|];
    [|reflexivity].
  cbn. now destruct (PrimFloat.eqb _ _).
Qed.

(** The quantity of the position after the fill. *)
Lemma double_fillPosition_quantity positions symbol action quantity price :
  match (Binary64.fillPosition positions symbol action quantity price).1 !! symbol with
  | Some position' => Binary64.pos_quantity position'
  | None => 0%float
  end
  = match positions !! symbol with
    | None => quantity
    | Some position =>
        if PrimFloat.eqb (Binary64.pos_quantity position + quantity) 0 then 0%float
        else (Binary64.pos_quantity position + quantity)%float
    end.
Proof.
  unfold Binary64.fillPosition. destruct (positions !! symbol) as [position|]; cbn [fst].
  - destruct (PrimFloat.eqb _ _); cbn [fst];
      [now rewrite lookup_delete_eq|now rewrite lookup_insert_eq].
  - now rewrite lookup_insert_eq.
Qed.

Lemma double_fillPosition_other positions symbol action quantity price symbol' :
  symbol <> symbol' ->
  (Binary64.fillPosition positions symbol action quantity price).1 !! symbol'
  = positions !! symbol'.
Proof.
  intros Hne. unfold Binary64.fillPosition.
  destruct (positions !! symbol) as [position|]; cbn [fst].
  - destruct (PrimFloat.eqb _ _); cbn [fst];
      [now rewrite lookup_delete_ne|now rewrite lookup_insert_ne].
  - now rewrite lookup_insert_ne.
Qed.

(** The trade list of the order's symbol after [execute]: the lots with
    the new one for an opening fill; for a closing fill what the loop
    leaves, with a new lot for what is left of the fill. *)
Lemma double_execute_trades s order price s' :
  Binary64.execute h s order price = Some s' ->
  let symbol := keyOf (Binary64.ord_symbol order) in
  let quantity :=
    Binary64.signedQuantity (Binary64.ord_action order) (Binary64.ord_quantity order) in
  let lots := default [] (Binary64.trades s !! symbol) in
  (forall symbol', symbol <> symbol' ->
     Binary64.trades s' !! symbol' = Binary64.trades s !! symbol')
  /\ if opening (Binary64.filledAction s order)
     then exists lot,
            Binary64.trd_quantity lot = quantity
            /\ default [] (Binary64.trades s' !! symbol) = (lots ++ [lot])%list
     else exists qty lots' oo,
            Binary64.consume (Binary64.ord_vspId order) (quantity * -1)%float lots
              (Binary64.openOrders s !! symbol) = Some (qty, lots', oo)
            /\ if PrimFloat.eqb qty 0
               then default [] (Binary64.trades s' !! symbol) = lots'
               else exists lot,
                      Binary64.trd_quantity lot = (qty * -1)%float
                      /\ default [] (Binary64.trades s' !! symbol) = (lots' ++ [lot])%list.
Proof.
  unfold Binary64.execute.
  rewrite (surjective_pairing (Binary64.fillPosition _ _ _ _ _)),
    double_fillPosition_action.
  cbn zeta. destruct (opening (Binary64.filledAction s order)).
  - destruct (Binary64.openOrders s !! keyOf (Binary64.ord_symbol order)) as [orders|];
      [|discriminate].
    destruct (match Binary64.otoProtect (Binary64.ord_oto order) with
              | Some _ => _ | None => _ end) as [orders' calls'].
    intros [= <-]. cbn [Binary64.trades]. split.
    + intros symbol' Hne. now rewrite lookup_insert_ne.
    + eexists. split; [|rewrite lookup_insert_eq; reflexivity]. reflexivity.
  - destruct (Binary64.consume _ _ _ _) as [[[qty lots'] oo]|]; [|discriminate].
    destruct (PrimFloat.eqb qty 0) eqn:Hz.
    + destruct oo as [orders|]; [|discriminate]. intros [= <-]. cbn [Binary64.trades].
      split.
      * intros symbol' Hne. now apply lookup_settled_ne.
      * eexists _, _, _. split; [reflexivity|]. rewrite Hz. apply lookup_settled.
    + destruct oo as [orders|]; [|discriminate].
      destruct (match Binary64.otoProtect (Binary64.ord_oto order) with
                | Some _ => _ | None => _ end) as [orders' calls'].
      intros [= <-]. cbn [Binary64.trades]. split.
      * intros symbol' Hne. now rewrite lookup_insert_ne.
      * eexists _, _, _. split; [reflexivity|]. rewrite Hz.
        eexists. split; [|rewrite lookup_insert_eq; reflexivity]. reflexivity.
Qed.

(** C1: in the doubles of the source, when none of the sums and
    differences of quantities that a call of execute forms is rounded (the
    sum of the position and the signed fill, and for a closing fill the
    differences the loop forms of what is left and a lot): if, before a
    call that completes, the quantity of every position (0 where there is
    none) is the sum of the quantities of the trades of its symbol (0
    where there is no list), then the same holds of every symbol after the
    call. *)
Theorem execute_quantity_invariant s order price s' :
  Binary64.execute h s order price = Some s' ->
  Binary64.fillExact s order = true ->
  (forall symbol, Binary64.agreesExactly s symbol = true) ->
  forall symbol, Binary64.agreesExactly s' symbol = true.
Proof.
  intros He Hexact Hinv symbol.
  pose proof (double_execute_positions _ _ _ _ He) as Hp.
  destruct (double_execute_trades _ _ _ _ He) as [Hother Hlots].
  destruct (String.eqb_spec (keyOf (Binary64.ord_symbol order)) symbol) as [<-|Hne].
  2: { specialize (Hinv symbol). unfold Binary64.agreesExactly, Binary64.positionQuantity in *.
       now rewrite Hp, double_fillPosition_other, (Hother _ Hne). }
  specialize (Hinv (keyOf (Binary64.ord_symbol order))).
  unfold Binary64.fillExact in Hexact. apply andb_prop in Hexact as [Hsum Hloop].
  apply exactSum_inv in Hsum as (p & b & c & Hpq & Hb & Hc & Hcq).
  unfold Binary64.agreesExactly in *. rewrite Hpq in Hinv.
  destruct (Binary64.lotsExact
              (default [] (Binary64.trades s !! keyOf (Binary64.ord_symbol order))))
    as [t|] eqn:Ht; [|discriminate].
  apply Qeq_bool_iff in Hinv.
  (* the position *)
  assert (exists p', Binary64.exact (Binary64.positionQuantity s'
                                       (keyOf (Binary64.ord_symbol order))) = Some p'
                     /\ (p' == p + b)%Q) as (p' & -> & Hp').
  { unfold Binary64.positionQuantity in *. rewrite Hp, double_fillPosition_quantity.
    destruct (Binary64.positions s !! keyOf (Binary64.ord_symbol order)) as [position|].
    - destruct (PrimFloat.eqb _ _) eqn:Hz.
      + apply eqb_zero_exact in Hz. rewrite Hz in Hc. injection Hc as <-.
        exists 0%Q. split; [reflexivity|lra].
      + exists c. split; assumption.
    - injection Hpq as <-. exists b. split; [assumption|lra]. }
  (* the lots *)
  assert (exists t', Binary64.lotsExact
                       (default [] (Binary64.trades s' !! keyOf (Binary64.ord_symbol order)))
                     = Some t'
                     /\ (t' == t + b)%Q) as (t' & -> & Ht').
  { destruct (opening (Binary64.filledAction s order)).
    - destruct Hlots as (lot & Hlq & ->).
      apply (lotsExact_app _ lot t b Ht). now rewrite Hlq.
    - cbn [orb] in Hloop. destruct Hlots as (qty & lots' & oo & Hcons & Hrest).
      destruct (negate_exact _ _ Hb) as (q0 & Hq0 & Hq0b).
      destruct (double_consume_exact _ _ _ _ _ _ _ _ _ Hcons Hloop Hq0 Ht)
        as (q' & t1 & Hq' & Ht1 & Heq).
      destruct (PrimFloat.eqb qty 0) eqn:Hz.
      + rewrite Hrest. apply eqb_zero_exact in Hz. rewrite Hz in Hq'. injection Hq' as <-.
        exists t1. split; [assumption|lra].
      + destruct Hrest as (lot & Hlq & ->).
        destruct (negate_exact _ _ Hq') as (n & Hn & Hnq).
        destruct (lotsExact_app _ lot t1 n Ht1) as (t2 & Ht2 & Ht2q); [now rewrite Hlq|].
        exists t2. split; [assumption|lra]. }
  apply Qeq_bool_iff. lra.
Qed.

(** *** The weighted basis *)

(** C7: in the doubles of the source, from no position in a symbol, a buy
    of [q1 > 0] at [p1] and then a buy of [q2 > 0] at [p2], both
    completing, leave a position of [q1 + q2] whose basis is what
    [toFixed(2)] makes of the double [((q1*p1) + (q2*p2)) / (q1 + q2)],
    every operation rounded to a double: when that is a decimal string, the
    one nearest to that double, not always the one nearest to the exact
    mean. *)
Theorem execute_weighted_basis s o1 p1 o2 p2 s1 s2 :
  Binary64.positions s !! keyOf (Binary64.ord_symbol o1) = None ->
  Binary64.ord_symbol o2 = Binary64.ord_symbol o1 ->
  Binary64.ord_action o1 = "buy" ->
  Binary64.ord_action o2 = "buy" ->
  PrimFloat.ltb 0 (Binary64.ord_quantity o1) = true ->
  PrimFloat.ltb 0 (Binary64.ord_quantity o2) = true ->
  Binary64.execute h s o1 p1 = Some s1 ->
  Binary64.execute h s1 o2 p2 = Some s2 ->
  let mean :=
    (((Binary64.ord_quantity o1 * p1) + (Binary64.ord_quantity o2 * p2))
     / (Binary64.ord_quantity o1 + Binary64.ord_quantity o2))%float in
  exists position,
    Binary64.positions s2 !! keyOf (Binary64.ord_symbol o1) = Some position
    /\ Binary64.pos_quantity position
       = (Binary64.ord_quantity o1 + Binary64.ord_quantity o2)%float
    /\ Binary64.pos_basis position = Binary64.toFixed2 mean
    /\ (forall negative n,
          Binary64.pos_basis position = Binary64.Hundredths negative n ->
          exists v,
            Binary64.exact mean = Some v
            /\ (inject_Z n - (1 # 2) <= 100 * Qabs v)%Q
            /\ (100 * Qabs v < inject_Z n + (1 # 2))%Q).
Proof.
  intros Hflat Hsym Ha1 Ha2 Hq1 Hq2 He1 He2 mean.
  pose proof (double_execute_positions _ _ _ _ He1) as Hp1.
  pose proof (double_execute_positions _ _ _ _ He2) as Hp2.
  rewrite Hsym in Hp2. rewrite Hp2, Hp1.
  unfold Binary64.fillPosition at 2. rewrite Hflat, Ha1. cbn [fst].
  unfold Binary64.fillPosition. rewrite lookup_insert_eq, Ha2.
  cbn [Binary64.signedQuantity String.eqb Ascii.eqb Bool.eqb orb
         Binary64.pos_quantity Binary64.pos_basis Binary64.toNumber].
  unfold Binary64.reclassify. cbn [Binary64.pos_quantity].
  rewrite (double_positive _ Hq1). cbn [opening String.eqb Ascii.eqb Bool.eqb orb].
  rewrite (double_sum_positive _ _ Hq1 Hq2). cbn [fst]. rewrite lookup_insert_eq.
  eexists. split; [reflexivity|]. cbn [Binary64.pos_quantity Binary64.pos_basis].
  split; [reflexivity|]. split; [reflexivity|].
  intros negative n. apply toFixed2_nearest.
Qed.

End DoubleExecute.

(** *** Where rounding shows *)

(** C1, as stated: with fractional quantities the position and the lots
    part.  From the demo account two buys of 0.6 TSLA leave a position of
    1.2 in two lots of 0.6, in agreement; a sell of 0.1 then leaves a
    position of 1.0999999999999999 and lots of 0.5 and 0.6, which add up to
    1.1, in doubles and exactly. *)
Lemma execute_quantity_invariant_counterexample :
  exists s s',
    Binary64.executeAll sampleHost Binary64.demoAccount
      [(Binary64.ticket "TSLA" "buy" 0.6, 24.11%float);
       (Binary64.ticket "TSLA" "buy" 0.6, 24.11%float)] = Some s
    /\ Binary64.quantitiesAgree s = true
    /\ Binary64.quantitiesAgreeExactly s = true
    /\ Binary64.execute sampleHost s (Binary64.ticket "TSLA" "sell" 0.1) 24.11 = Some s'
    /\ Binary64.positionQuantity s' "TSLA" = 1.0999999999999999%float
    /\ Binary64.trd_quantity <$> default [] (Binary64.trades s' !! "TSLA")
       = [0.5; 0.6]%float
    /\ Binary64.tradesQuantity s' "TSLA" = 1.1%float
    /\ Binary64.quantitiesAgree s' = false
    /\ Binary64.quantitiesAgreeExactly s' = false.
Proof.
  eexists _, _. split; [vm_compute; reflexivity|].
  split; [vm_compute; reflexivity|]. split; [vm_compute; reflexivity|].
  split; [vm_compute; reflexivity|].
  repeat split; vm_compute; reflexivity.
Qed.

(** On integer quantities the two embeddings agree: the sell of 400 IBM on
    the demo account leaves the same quantities in doubles as in
    integers. *)
Lemma double_quantities_example :
  exists s s',
    execute sampleHost demoAccount (ticket "IBM" "sell" 400 None None None) 129 = Some s
    /\ Binary64.execute sampleHost Binary64.demoAccount
         (Binary64.ofOrder (ticket "IBM" "sell" 400 None None None)) 129 = Some s'
    /\ Binary64.positionQuantity s' "IBM" = Binary64.ofZ (positionQuantity s "IBM")
    /\ Binary64.trd_quantity <$> default [] (Binary64.trades s' !! "IBM")
       = Binary64.ofZ <$> (trd_quantity <$> default [] (trades s !! "IBM"))
    /\ Binary64.ord_quantity <$> default [] (Binary64.openOrders s' !! "IBM")
       = Binary64.ofZ <$> (ord_quantity <$> default [] (openOrders s !! "IBM")).
Proof.
  eexists _, _. split; [vm_compute; reflexivity|].
  split; [vm_compute; reflexivity|]. repeat split; vm_compute; reflexivity.
Qed.

(** C7, as stated: from no position in TSLA, a buy of 1 at 1.00 and a buy
    of 1 at 1.51 store the basis "1.25".  The mean of the two prices is
    1.255, which rounds to 1.26; the mean of the doubles the two prices
    are is above 1.255, strictly nearer to 1.26 than to 1.25. *)
Lemma execute_weighted_basis_counterexample :
  exists s2 position v,
    Binary64.executeAll sampleHost Binary64.demoAccount
      [(Binary64.ticket "TSLA" "buy" 1, 1%float);
       (Binary64.ticket "TSLA" "buy" 1, 1.51%float)] = Some s2
    /\ Binary64.positions Binary64.demoAccount !! "TSLA" = None
    /\ Binary64.positions s2 !! "TSLA" = Some position
    /\ Binary64.pos_basis position = Binary64.Hundredths false 125
    /\ toFixed2 ((1 * 1.00 + 1 * 1.51) / (1 + 1)) = 1.26%Q
    /\ Binary64.exact 1.51 = Some v
    /\ (1.26 - (1 * 1 + 1 * v) / (1 + 1) < (1 * 1 + 1 * v) / (1 + 1) - 1.25)%Q.
Proof.
  eexists _, _, _. split; [vm_compute; reflexivity|].
  split; [vm_compute; reflexivity|].
  split; [vm_compute; reflexivity|].
  split; [reflexivity|].
  split; [vm_compute; reflexivity|].
  split; [vm_compute; reflexivity|].
  vm_compute. reflexivity.
Qed.

(** ** The properties at work on the demo account *)

Lemma quantitiesAgreeExactly_sound s :
  Binary64.quantitiesAgreeExactly s = true ->
  forall symbol, Binary64.agreesExactly s symbol = true.
Proof.
  unfold Binary64.quantitiesAgreeExactly, Binary64.symbolsHeld.
  rewrite forallb_forall. intros Hall symbol.
  destruct (Binary64.positions s !! symbol) as [position|] eqn:Hp.
  - apply Hall, in_or_app. left.
    apply list_elem_of_In, list_elem_of_fmap. exists (symbol, position).
    split; [reflexivity|]. now apply elem_of_map_to_list.
  - destruct (Binary64.trades s !! symbol) as [lots|] eqn:Ht.
    + apply Hall, in_or_app. right.
      apply list_elem_of_In, list_elem_of_fmap. exists (symbol, lots).
      split; [reflexivity|]. now apply elem_of_map_to_list.
    + unfold Binary64.agreesExactly, Binary64.positionQuantity. now rewrite Hp, Ht.
Qed.

Lemma execute_quantity_invariant_witness :
  exists s s',
    Binary64.executeAll sampleHost Binary64.demoAccount
      [(Binary64.ticket "TSLA" "buy" 0.5, 24.11%float);
       (Binary64.ticket "TSLA" "buy" 0.25, 24.11%float)] = Some s
    /\ Binary64.execute sampleHost s (Binary64.ticket "TSLA" "sell" 0.625) 24.11 = Some s'
    /\ Binary64.fillExact s (Binary64.ticket "TSLA" "sell" 0.625) = true
    /\ Binary64.quantitiesAgreeExactly s = true
    /\ Binary64.trd_quantity <$> default [] (Binary64.trades s' !! "TSLA") = [0.125%float]
    /\ forall symbol, Binary64.agreesExactly s' symbol = true.
Proof.
  destruct (Binary64.executeAll sampleHost Binary64.demoAccount
              [(Binary64.ticket "TSLA" "buy" 0.5, 24.11%float);
               (Binary64.ticket "TSLA" "buy" 0.25, 24.11%float)])
    as [s|] eqn:E0; [|vm_compute in E0; discriminate].
  destruct (Binary64.execute sampleHost s (Binary64.ticket "TSLA" "sell" 0.625) 24.11)
    as [s'|] eqn:E.
  2: { vm_compute in E0. injection E0 as <-. vm_compute in E. discriminate. }
  assert (Binary64.fillExact s (Binary64.ticket "TSLA" "sell" 0.625) = true) as Hexact.
  { vm_compute in E0. injection E0 as <-. vm_compute. reflexivity. }
  assert (Binary64.quantitiesAgreeExactly s = true) as Hagree.
  { vm_compute in E0. injection E0 as <-. vm_compute. reflexivity. }
  exists s, s'. split; [reflexivity|]. split; [exact E|].
  split; [exact Hexact|]. split; [exact Hagree|]. split.
  - vm_compute in E0. injection E0 as <-. vm_compute in E. injection E as <-.
    vm_compute. reflexivity.
  - apply (execute_quantity_invariant sampleHost s (Binary64.ticket "TSLA" "sell" 0.625)
             24.11 s' E Hexact).
    apply quantitiesAgreeExactly_sound, Hagree.
Defined.

Lemma execute_weighted_basis_witness :
  exists s1 s2 position,
    Binary64.positions Binary64.demoAccount !! "TSLA" = None
    /\ Binary64.execute sampleHost Binary64.demoAccount (Binary64.ticket "TSLA" "buy" 1) 1
       = Some s1
    /\ Binary64.execute sampleHost s1 (Binary64.ticket "TSLA" "buy" 1) 1.51 = Some s2
    /\ Binary64.positions s2 !! "TSLA" = Some position
    /\ Binary64.pos_quantity position = 2%float
    /\ Binary64.pos_basis position = Binary64.Hundredths false 125.
Proof.
  destruct (Binary64.execute sampleHost Binary64.demoAccount (Binary64.ticket "TSLA" "buy" 1) 1)
    as [s1|] eqn:E1; [|vm_compute in E1; discriminate].
  destruct (Binary64.execute sampleHost s1 (Binary64.ticket "TSLA" "buy" 1) 1.51)
    as [s2|] eqn:E2.
  2: { vm_compute in E1. injection E1 as <-. vm_compute in E2. discriminate. }
  destruct (execute_weighted_basis sampleHost Binary64.demoAccount
              (Binary64.ticket "TSLA" "buy" 1) 1
              (Binary64.ticket "TSLA" "buy" 1) 1.51 s1 s2)
    as (position & Hp & Hq & Hb & _);
    try reflexivity; try assumption.
  exists s1, s2, position. split; [vm_compute; reflexivity|].
  repeat split; assumption.
Defined.

Lemma cancelOrder_needs_protect_witness :
  linkedLot (Some "GE001") (default [] (trades accountWithBareLot !! "GE"))
  = Some (mkTrade "GE001" 1433779740000 100 26.11 24.11 (Some "USD") None)
  /\ cancelOrder sampleHost accountWithBareLot
       (resting "4" None "sell" 100 (Some 30%Q) None "GTC" None None None) = None.
Proof.
  split; [vm_compute; reflexivity|].
  apply (cancelOrder_needs_protect sampleHost accountWithBareLot
           (resting "4" None "sell" 100 (Some 30%Q) None "GTC" None None None)
           "GE"
           [resting "4" (Some "GE001") "sell" 100 (Some 30%Q) None "GTC" None
              (Some (OcoId "5")) None;
            resting "5" (Some "GE001") "sell" 100 None (Some 25%Q) "GTC" None
              (Some (OcoId "4")) None]
           [mkTrade "GE001" 1433779740000 100 26.11 24.11 (Some "USD") None]
           (resting "4" (Some "GE001") "sell" 100 (Some 30%Q) None "GTC" None
              (Some (OcoId "5")) None)
           (mkTrade "GE001" 1433779740000 100 26.11 24.11 (Some "USD") None)).
  - vm_compute. reflexivity.
  - vm_compute. reflexivity.
  - left. reflexivity.
  - vm_compute. reflexivity.
  - vm_compute. reflexivity.
  - vm_compute. reflexivity.
  - reflexivity.
Defined.

Lemma cancelOrder_severs_witness :
  exists s',
    cancelOrder sampleHost demoAccount
      (resting "4" None "sell" 100 (Some 30%Q) None "GTC" None None None)
    = Some (s', [cb0])
    /\ ord_id <$> default [] (openOrders s' !! "GE") = [Some "5"]
    /\ ord_oco <$> default [] (openOrders s' !! "GE") = [Some OcoNull]
    /\ trd_protect <$> default [] (trades s' !! "GE")
       = [Some (mkProtect None (Some 25%Q))].
Proof.
  destruct (cancelOrder sampleHost demoAccount
              (resting "4" None "sell" 100 (Some 30%Q) None "GTC" None None None))
    as [[s' calls]|] eqn:E; [|vm_compute in E; discriminate].
  destruct (cancelOrder_severs sampleHost demoAccount
              (resting "4" None "sell" 100 (Some 30%Q) None "GTC" None None None)
              s' calls "GE"
              [resting "4" (Some "GE001") "sell" 100 (Some 30%Q) None "GTC" None
                 (Some (OcoId "5")) None;
               resting "5" (Some "GE001") "sell" 100 None (Some 25%Q) "GTC" None
                 (Some (OcoId "4")) None]
              (resting "4" (Some "GE001") "sell" 100 (Some 30%Q) None "GTC" None
                 (Some (OcoId "5")) None) E)
    as (-> & Ho & _ & _ & Ht).
  - vm_compute. reflexivity.
  - vm_compute. reflexivity.
  - exists s'. split; [reflexivity|]. rewrite Ho, Ht.
    repeat split; vm_compute; reflexivity.
Defined.

(** ** Further properties of the demo account *)

Section MoreExecute.

Context (h : Host).

(** *** execute, unfolded along its two branches *)

Lemma fillPosition_action s order quantity price :
  (fillPosition (positions s) (keyOf (ord_symbol order)) (ord_action order)
     quantity price).2 = filledAction s order.
Proof.
  unfold fillPosition, filledAction.
  destruct (positions s !! keyOf (ord_symbol order)) as [position|]; [|reflexivity].
  cbn. now destruct (_ =? 0).
Qed.

Lemma execute_opening_inv s order price s' :
  execute h s order price = Some s' ->
  opening (filledAction s order) = true ->
  exists orders,
    openOrders s !! keyOf (ord_symbol order) = Some orders
    /\ trades s'
       = <[keyOf (ord_symbol order) :=
             (default [] (trades s !! keyOf (ord_symbol order))
              ++ [mkTrade (uniqueID h (idcalls s)) (getTime h (S (idcalls s)))
                    (signedQuantity (ord_action order) (ord_quantity order))
                    price price None (otoProtect (ord_oto order))])%list]> (trades s)
    /\ default [] (openOrders s' !! keyOf (ord_symbol order))
       = (removeFilled (ord_id order) orders
          ++ match otoProtect (ord_oto order) with
             | Some p =>
                 if signedQuantity (ord_action order) (ord_quantity order) =? 0 then []
                 else protectiveOrders (uniqueID h (S (idcalls s))) (uniqueID h (idcalls s))
                        (filledAction s order)
                        (signedQuantity (ord_action order) (ord_quantity order)) p
             | None => []
             end)%list.
Proof.
  unfold execute.
  rewrite (surjective_pairing (fillPosition _ _ _ _ _)), fillPosition_action.
  intros He Hopen. rewrite Hopen in He.
  destruct (openOrders s !! keyOf (ord_symbol order)) as [orders|]; [|discriminate].
  exists orders. split; [reflexivity|].
  destruct (otoProtect (ord_oto order)) as [p|].
  - destruct (signedQuantity (ord_action order) (ord_quantity order) =? 0);
      injection He as <-; cbn [trades openOrders]; split; try reflexivity;
      rewrite lookup_settled; [now rewrite app_nil_r|reflexivity].
  - injection He as <-. cbn [trades openOrders]. split; [reflexivity|].
    rewrite lookup_settled. now rewrite app_nil_r.
Qed.

Lemma execute_closing_inv s order price s' :
  execute h s order price = Some s' ->
  opening (filledAction s order) = false ->
  exists qty lots' orders',
    consume (ord_vspId order)
      (signedQuantity (ord_action order) (ord_quantity order) * -1)
      (default [] (trades s !! keyOf (ord_symbol order)))
      (openOrders s !! keyOf (ord_symbol order)) = Some (qty, lots', Some orders')
    /\ trades s' !! keyOf (ord_symbol order)
       = (if qty =? 0
          then match lots' with [] => None | _ => Some lots' end
          else Some (lots' ++ [mkTrade (uniqueID h (idcalls s)) (getTime h (S (idcalls s)))
                                 (qty * -1) price price None (otoProtect (ord_oto order))])%list)
    /\ default [] (openOrders s' !! keyOf (ord_symbol order))
       = (removeFilled (ord_id order) orders'
          ++ match otoProtect (ord_oto order) with
             | Some p =>
                 if qty =? 0 then []
                 else protectiveOrders (uniqueID h (S (idcalls s))) (uniqueID h (idcalls s))
                        (filledAction s order) (qty * -1) p
             | None => []
             end)%list.
Proof.
  unfold execute.
  rewrite (surjective_pairing (fillPosition _ _ _ _ _)), fillPosition_action.
  intros He Hopen. rewrite Hopen in He.
  destruct (consume _ _ _ _) as [[[qty lots'] oo]|]; [|discriminate].
  destruct (Z.eqb_spec qty 0) as [->|Hne].
  - destruct oo as [orders'|]; [|discriminate].
    exists 0, lots', orders'. split; [reflexivity|].
    injection He as <-. cbn [trades openOrders Z.eqb]. split.
    + destruct lots'; [apply lookup_delete_eq|apply lookup_insert_eq].
    + rewrite lookup_settled. destruct (otoProtect (ord_oto order)); now rewrite app_nil_r.
  - destruct oo as [orders'|]; [|discriminate].
    exists qty, lots', orders'. split; [reflexivity|].
    apply Z.eqb_neq in Hne. rewrite Hne.
    assert ((qty * -1 =? 0) = false) as Hne' by (apply Z.eqb_neq; apply Z.eqb_neq in Hne; lia).
    destruct (otoProtect (ord_oto order)) as [p|].
    + rewrite Hne' in He. injection He as <-. cbn [trades openOrders]. split.
      * apply lookup_insert_eq.
      * now rewrite lookup_settled.
    + injection He as <-. cbn [trades openOrders]. split.
      * apply lookup_insert_eq.
      * rewrite lookup_settled. now rewrite app_nil_r.
Qed.

Lemma execute_position_quantity s order price s' :
  execute h s order price = Some s' ->
  positionQuantity s' (keyOf (ord_symbol order))
  = positionQuantity s (keyOf (ord_symbol order))
    + signedQuantity (ord_action order) (ord_quantity order).
Proof.
  intros He. destruct (execute_trades _ _ _ _ _ He) as (Hp & _).
  unfold positionQuantity. rewrite Hp, fillPosition_lookup.
  destruct (positions s !! keyOf (ord_symbol order)) as [position|]; [|reflexivity].
  destruct (Z.eqb_spec (pos_quantity position
                        + signedQuantity (ord_action order) (ord_quantity order)) 0);
    cbn; lia.
Qed.

Lemma execute_gap s order price s' symbol :
  execute h s order price = Some s' ->
  quantityGap s' symbol = quantityGap s symbol.
Proof.
  intros He. unfold quantityGap.
  destruct (String.eqb_spec (keyOf (ord_symbol order)) symbol) as [<-|Hne].
  - rewrite (execute_position_quantity _ _ _ _ He).
    destruct (execute_trades _ _ _ _ _ He) as (_ & lots' & Ht & Hsum & _).
    unfold tradesQuantity.
    assert (match trades s' !! keyOf (ord_symbol order) with
            | Some lots => lotsQuantity lots
            | None => 0
            end = lotsQuantity lots') as ->.
    { destruct Ht as [->|[-> ->]];
        [now rewrite lookup_insert_eq|now rewrite lookup_delete_eq]. }
    rewrite Hsum. destruct (trades s !! keyOf (ord_symbol order));
      unfold lotsQuantity; cbn; lia.
  - destruct (execute_trades_other _ _ _ _ _ symbol He Hne) as [Ht Hp].
    unfold positionQuantity, tradesQuantity. now rewrite Ht, Hp.
Qed.

(** *** The loop over the lots *)

Lemma consume_partial vspId qty pre lot post orders :
  forallb (fun l => negb (targeted vspId l)) pre = true ->
  targeted vspId lot = true ->
  Z.abs qty < Z.abs (trd_quantity lot) ->
  consume vspId qty (pre ++ lot :: post) (Some orders)
  = Some (0, (pre ++ tradeWithQuantity (trd_quantity lot - qty) lot :: post)%list,
          Some (match trd_protect lot with
                | Some _ => map (fun o => if protects lot o
                                          then withQuantity (ord_quantity o - qty) o
                                          else o) orders
                | None => orders
                end)).
Proof.
  unfold targeted. intros Hpre Hlot Hlt.
  induction pre as [|l pre IH]; cbn [app consume].
  - apply negb_true_iff in Hlot. rewrite Hlot.
    apply Z.leb_gt in Hlt. rewrite Hlt. now destruct (trd_protect lot).
  - cbn [forallb] in Hpre. apply andb_prop in Hpre as [Hl Hpre].
    rewrite negb_involutive in Hl. rewrite Hl, (IH Hpre). reflexivity.
Qed.

Lemma lotsQuantity_sign sigma lots :
  sigma = 1 \/ sigma = -1 ->
  Forall (fun l => 0 < sigma * trd_quantity l) lots ->
  0 <= sigma * lotsQuantity lots.
Proof.
  intros Hs. induction 1 as [|l rest Hl _ IH]; [cbn; lia|].
  rewrite lotsQuantity_cons. destruct Hs; subst; lia.
Qed.

Lemma consume_all sigma vspId lots :
  truthyS vspId = false ->
  sigma = 1 \/ sigma = -1 ->
  Forall (fun l => 0 < sigma * trd_quantity l) lots ->
  forall qty orders,
    sigma * lotsQuantity lots <= sigma * qty ->
    exists orders',
      consume vspId qty lots (Some orders)
      = Some (qty - lotsQuantity lots, [], Some orders').
Proof.
  intros Hvsp Hs. induction 1 as [|l rest Hl Hrest IH]; intros qty orders Hle;
    cbn [consume].
  - exists orders. do 3 f_equal. cbn. lia.
  - rewrite Hvsp. cbn [andb]. rewrite lotsQuantity_cons in Hle.
    pose proof (lotsQuantity_sign sigma rest Hs Hrest) as Hpos.
    assert ((Z.abs (trd_quantity l) <=? Z.abs qty) = true) as ->
      by (apply Z.leb_le; destruct Hs; subst; lia).
    assert (sigma * lotsQuantity rest <= sigma * (qty - trd_quantity l)) as Hle'
      by (destruct Hs; subst; lia).
    assert (qty - lotsQuantity (l :: rest) = qty - trd_quantity l - lotsQuantity rest)
      as -> by (rewrite lotsQuantity_cons; lia).
    destruct (trd_protect l); apply IH; exact Hle'.
Qed.

Lemma firstLegPrice_truthy f legs x :
  firstLegPrice f legs = Some x -> truthyQ (Some x) = true.
Proof.
  unfold firstLegPrice, legPrice.
  destruct (legs !! 0%nat) as [leg0|].
  - destruct (truthyQ (f leg0)) eqn:H0.
    + destruct (f leg0); [|discriminate]. now intros [= <-].
    + destruct (legs !! 1%nat) as [leg1|]; [|discriminate].
      destruct (truthyQ (f leg1)) eqn:H1; [|discriminate].
      intros E. now rewrite E in H1.
  - destruct (legs !! 1%nat) as [leg1|]; [|discriminate].
    destruct (truthyQ (f leg1)) eqn:H1; [|discriminate].
    intros E. now rewrite E in H1.
Qed.

(** *** Zero-quantity cleanup *)








(** *** What a user of execute can rely on *)

(** X1: execute faults exactly when the symbol of the order has no
    open-order list; with a list, even an empty one, it completes. *)
Theorem execute_completes_iff s order price :
  execute h s order price = None <-> openOrders s !! keyOf (ord_symbol order) = None.
Proof.
  split.
  - intros Hnone. destruct (openOrders s !! keyOf (ord_symbol order)) eqn:E; [|reflexivity].
    destruct (execute_completes h s order price) as [s' Hs']; [rewrite E; eauto|].
    congruence.
  - apply execute_faults.
Qed.

(** X2: a closing fill that is smaller in magnitude than the first lot it
    may use (the oldest lot, or with a [vspId] the first lot of that id)
    adds its signed quantity, negative for a sell and positive for a cover,
    to the quantity of that lot and leaves every other lot as it was; when
    the lot has a [protect] object the same signed quantity is added to the
    quantity of every open order linked to the lot, so that a sell lowers
    the size of the protective orders and a cover raises it. *)
Theorem execute_partial_close s order price s' pre lot post :
  execute h s order price = Some s' ->
  opening (filledAction s order) = false ->
  trades s !! keyOf (ord_symbol order) = Some (pre ++ lot :: post)%list ->
  forallb (fun l => negb (targeted (ord_vspId order) l)) pre = true ->
  targeted (ord_vspId order) lot = true ->
  Z.abs (signedQuantity (ord_action order) (ord_quantity order))
  < Z.abs (trd_quantity lot) ->
  trades s' !! keyOf (ord_symbol order)
  = Some (pre
          ++ tradeWithQuantity
               (trd_quantity lot + signedQuantity (ord_action order) (ord_quantity order))
               lot :: post)%list
  /\ default [] (openOrders s' !! keyOf (ord_symbol order))
     = removeFilled (ord_id order)
         (match trd_protect lot with
          | Some _ =>
              map (fun o =>
                     if protects lot o
                     then withQuantity
                            (ord_quantity o
                             + signedQuantity (ord_action order) (ord_quantity order)) o
                     else o)
                (default [] (openOrders s !! keyOf (ord_symbol order)))
          | None => default [] (openOrders s !! keyOf (ord_symbol order))
          end).
Proof.
  intros He Hclose Hlots Hpre Hlot Hlt.
  destruct (execute_closing_inv _ _ _ _ He Hclose) as (qty & lots' & orders' & Hc & Ht & Ho).
  rewrite Hlots in Hc. cbn [default from_option id] in Hc.
  destruct (openOrders s !! keyOf (ord_symbol order)) as [orders|] eqn:Hoo.
  2: { apply consume_no_orders in Hc. discriminate. }
  rewrite consume_partial in Hc by (try assumption; lia).
  injection Hc as <- <- <-. cbn [Z.eqb] in *.
  split.
  - rewrite Ht.
    replace (trd_quantity lot - signedQuantity (ord_action order) (ord_quantity order) * -1)
      with (trd_quantity lot + signedQuantity (ord_action order) (ord_quantity order)) by lia.
    now destruct pre.
  - rewrite Ho. destruct (otoProtect (ord_oto order)); rewrite app_nil_r; cbn;
      destruct (trd_protect lot); try reflexivity; f_equal; apply map_ext; intros o;
      destruct (protects lot o); try reflexivity; f_equal; lia.
Qed.


(** X4: an opening fill of non-zero quantity whose [oto] legs give a limit
    and a stop makes a new lot protected at those prices and appends two
    open orders for it: both carry the id of the new lot as [tradeid], the
    size of the fill, and each other's id as [oco]. *)
Theorem execute_bracket s order price legs limit stop orders :
  opening (filledAction s order) = true ->
  signedQuantity (ord_action order) (ord_quantity order) <> 0 ->
  ord_oto order = Some legs ->
  firstLegPrice ord_limit legs = Some limit ->
  firstLegPrice ord_stop legs = Some stop ->
  openOrders s !! keyOf (ord_symbol order) = Some orders ->
  exists s' lot a b,
    execute h s order price = Some s'
    /\ trades s' !! keyOf (ord_symbol order)
       = Some (default [] (trades s !! keyOf (ord_symbol order)) ++ [lot])%list
    /\ trd_quantity lot = signedQuantity (ord_action order) (ord_quantity order)
    /\ trd_protect lot = Some (mkProtect (Some limit) (Some stop))
    /\ openOrders s' !! keyOf (ord_symbol order)
       = Some (removeFilled (ord_id order) orders ++ [a; b])%list
    /\ ord_tradeid a = Some (trd_id lot) /\ ord_tradeid b = Some (trd_id lot)
    /\ ord_limit a = Some limit /\ ord_stop a = None
    /\ ord_stop b = Some stop /\ ord_limit b = None
    /\ ord_quantity a = Z.abs (trd_quantity lot)
    /\ ord_quantity b = Z.abs (trd_quantity lot)
    /\ (exists ida idb, ord_id a = Some ida /\ ord_id b = Some idb
          /\ ord_oco a = Some (OcoId idb) /\ ord_oco b = Some (OcoId ida)).
Proof.
  intros Hopen Hq Hoto Hlimit Hstop Horders.
  destruct (execute_completes h s order price) as [s' He]; [rewrite Horders; eauto|].
  destruct (execute_opening_inv _ _ _ _ He Hopen) as (orders0 & Ho0 & Ht & Ho).
  rewrite Horders in Ho0. injection Ho0 as <-.
  apply Z.eqb_neq in Hq. rewrite Hoto in *. cbn [otoProtect] in *.
  rewrite Hlimit, Hstop, Hq in *.
  unfold protectiveOrders in Ho. cbn [prot_limit prot_stop] in Ho.
  rewrite (firstLegPrice_truthy _ _ _ Hlimit), (firstLegPrice_truthy _ _ _ Hstop) in Ho.
  cbn [app] in Ho.
  eexists s', _, _, _. split; [exact He|]. split; [rewrite Ht; apply lookup_insert_eq|].
  split; [reflexivity|]. split; [reflexivity|]. split.
  - destruct (openOrders s' !! keyOf (ord_symbol order)) as [l|] eqn:E.
    + cbn in Ho. rewrite Ho. reflexivity.
    + cbn in Ho. now destruct (removeFilled (ord_id order) orders).
  - cbn. repeat split; eauto 10.
Qed.

Lemma execute_balances s order price s' :
  execute h s order price = Some s' ->
  balances s'
  = mkBalances (liquidity (balances s))
      (cash (balances s)
       - inject_Z (signedQuantity (ord_action order) (ord_quantity order)) * price)%Q
      (unsettledCash (balances s)) (profitLoss (balances s))
      (2 * (cash (balances s)
            - inject_Z (signedQuantity (ord_action order) (ord_quantity order)) * price))%Q.
Proof.
  unfold execute. destruct (fillPosition _ _ _ _ _) as [positions' action].
  destruct (if opening action then _ else _) as [[[trades' oo] newQuantity]|];
    [|discriminate].
  destruct oo as [orders|]; [|discriminate].
  destruct (match newQuantity with Some _ => _ | None => _ end) as [orders' calls'].
  now intros [= <-].
Qed.

(** X5: for an integer quantity [q] with [0 < q <= 2^53], from a symbol
    with neither position nor lots, a buy of [q] followed by a sell of [q]
    (no [vspId]), both completing, leaves the symbol with neither position
    nor lots again. *)
Theorem execute_round_trip s o1 p1 o2 p2 s1 s2 :
  positions s !! keyOf (ord_symbol o1) = None ->
  trades s !! keyOf (ord_symbol o1) = None ->
  ord_symbol o2 = ord_symbol o1 ->
  ord_action o1 = "buy" ->
  ord_action o2 = "sell" ->
  0 < ord_quantity o1 <= 2 ^ 53 ->
  ord_quantity o2 = ord_quantity o1 ->
  truthyS (ord_vspId o2) = false ->
  execute h s o1 p1 = Some s1 ->
  execute h s1 o2 p2 = Some s2 ->
  positions s2 !! keyOf (ord_symbol o1) = None
  /\ trades s2 !! keyOf (ord_symbol o1) = None.
Proof.
  intros Hflat Hnolots Hsym Ha1 Ha2 [Hq _] Hq2 Hvsp He1 He2.
  assert (filledAction s o1 = "buy") as Hf1 by (unfold filledAction; now rewrite Hflat).
  destruct (execute_opening_inv _ _ _ _ He1) as (orders & _ & Ht1 & _);
    [now rewrite Hf1|].
  destruct (execute_trades _ _ _ _ _ He1) as (Hp1 & _).
  assert (positions s1 !! keyOf (ord_symbol o1)
          = Some (mkPosition (ord_quantity o1) p1 p1 p1 None None)) as Hpos1.
  { rewrite Hp1, fillPosition_lookup, Hflat, Ha1. reflexivity. }
  assert (filledAction s1 o2 = "sell") as Hf2.
  { unfold filledAction, reclassify. rewrite Hsym, Hpos1, Ha2. cbn [pos_quantity].
    destruct (Z.ltb_spec (ord_quantity o1) 0); [lia|reflexivity]. }
  destruct (execute_closing_inv _ _ _ _ He2) as (qty & lots' & orders' & Hc & Ht2 & _);
    [now rewrite Hf2|].
  rewrite Hsym, Ht1, lookup_insert_eq, Hnolots, Ha1, Ha2, Hq2 in Hc.
  cbn [default from_option id app signedQuantity String.eqb Ascii.eqb Bool.eqb orb] in Hc.
  destruct (openOrders s1 !! keyOf (ord_symbol o1)) as [orders1|] eqn:Ho1.
  2: { apply consume_no_orders in Hc. discriminate. }
  destruct (consume_all 1 (ord_vspId o2)
              [mkTrade (uniqueID h (idcalls s)) (getTime h (S (idcalls s)))
                 (ord_quantity o1) p1 p1 None (otoProtect (ord_oto o1))]
              Hvsp (or_introl eq_refl)) with (qty := ord_quantity o1 * -1 * -1)
                                              (orders := orders1)
    as (orders2 & Hall).
  { repeat constructor. cbn. lia. }
  { cbn. lia. }
  rewrite Hall in Hc. injection Hc as <- <- <-.
  destruct (execute_trades _ _ _ _ _ He2) as (Hp2 & _).
  rewrite Hsym in Ht2, Hp2. split.
  - rewrite Hp2, fillPosition_lookup, Hpos1, Ha2, Hq2.
    cbn [signedQuantity String.eqb Ascii.eqb Bool.eqb orb pos_quantity].
    now replace (ord_quantity o1 + ord_quantity o1 * -1) with 0 by lia.
  - rewrite Ht2. cbn.
    now replace (ord_quantity o1 * -1 * -1 - (ord_quantity o1 + 0)) with 0 by lia.
Qed.

(** *** placeOrder *)

(** X6: placeOrder faults exactly on an array of fewer than two orders;
    every single order, and every longer array, is placed and [cb]
    called. *)
Theorem placeOrder_completes_iff tfc s request :
  placeOrder h tfc s request = None
  <-> exists orders, request = Many orders /\ (length orders < 2)%nat.
Proof.
  unfold placeOrder. destruct request as [order|orders].
  - split; [|intros (? & [=] & _)].
    destruct (negb (truthyQ (ord_limit order)) && negb (truthyQ (ord_stop order)));
      [|discriminate].
    destruct (execute_completes h (ensureOrders (keyOf (ord_symbol order)) s) order
                (tfc (ord_action order))) as [s' ->]; [|discriminate].
    rewrite ensureOrders_lookup. eauto.
  - destruct orders as [|order0 [|order1 rest]].
    + split; [|reflexivity]. intros _. exists []. split; [reflexivity|cbn; lia].
    + split; [|reflexivity]. intros _. exists [order0]. split; [reflexivity|cbn; lia].
    + split; [discriminate|]. intros (orders & [= <-] & Hlen). cbn in Hlen. lia.
Qed.

Lemma ensureOrders_positions symbol s :
  positions (ensureOrders symbol s) = positions s
  /\ trades (ensureOrders symbol s) = trades s.
Proof. unfold ensureOrders. now destruct (openOrders s !! symbol). Qed.

Lemma pushOrders_ensure symbol new s :
  openOrders (pushOrders symbol new (ensureOrders symbol s))
  = <[symbol := (default [] (openOrders s !! symbol) ++ new)%list]> (openOrders s).
Proof.
  unfold pushOrders. cbn [openOrders]. rewrite ensureOrders_lookup.
  cbn [default from_option id]. unfold ensureOrders.
  destruct (openOrders s !! symbol); cbn [openOrders];
    rewrite ?insert_insert_eq; reflexivity.
Qed.

Lemma placeOrder_inv tfc s request s' calls :
  placeOrder h tfc s request = Some (s', calls) ->
  (exists order, request = One order
     /\ execute h (ensureOrders (keyOf (ord_symbol order)) s) order (tfc (ord_action order))
        = Some s')
  \/ (positions s' = positions s /\ trades s' = trades s
      /\ exists symbol new,
           new <> []
           /\ openOrders s'
              = <[symbol := (default [] (openOrders s !! symbol) ++ new)%list]>
                  (openOrders s)).
Proof.
  unfold placeOrder. destruct request as [order|orders].
  - destruct (negb (truthyQ (ord_limit order)) && negb (truthyQ (ord_stop order))).
    + destruct (execute h _ order _) as [s1|] eqn:E; [|discriminate].
      intros [= <- _]. left. eauto.
    + intros [= <- _]. right.
      destruct (ensureOrders_positions (keyOf (ord_symbol order)) s) as [Hp Ht].
      split; [exact Hp|]. split; [exact Ht|].
      eexists _, _. split; [|apply pushOrders_ensure]. discriminate.
  - destruct orders as [|order0 [|order1 rest]]; try discriminate.
    intros [= <- _]. right.
    destruct (ensureOrders_positions (keyOf (ord_symbol order0)) s) as [Hp Ht].
    split; [exact Hp|]. split; [exact Ht|].
    eexists _, _. split; [|apply pushOrders_ensure]. discriminate.
Qed.

(** X7: for integer quantities within the range that doubles hold exactly
    (for a single order, the magnitudes of the order, of the position and
    of the lots of its symbol add up to at most 2^53), a placeOrder call
    that completes leaves, for every symbol, the difference between the
    quantity of the position and the signed sum of the lots as it was,
    whether the request rests or is executed. *)
Theorem placeOrder_keeps_gap tfc s request s' calls symbol :
  placeOrder h tfc s request = Some (s', calls) ->
  (forall order, request = One order ->
     exactQuantities s (keyOf (ord_symbol order)) (ord_quantity order)) ->
  quantityGap s' symbol = quantityGap s symbol.
Proof.
  intros Hp _. destruct (placeOrder_inv _ _ _ _ _ Hp) as [(order & _ & He)|(Hpos & Ht & _)].
  - rewrite (execute_gap _ _ _ _ symbol He).
    unfold quantityGap, positionQuantity, tradesQuantity.
    now destruct (ensureOrders_positions (keyOf (ord_symbol order)) s) as [-> ->].
  - unfold quantityGap, positionQuantity, tradesQuantity. now rewrite Hpos, Ht.
Qed.

Lemma execute_orders_other s order price s' symbol :
  execute h s order price = Some s' ->
  keyOf (ord_symbol order) <> symbol ->
  openOrders s' !! symbol = openOrders s !! symbol.
Proof.
  unfold execute. destruct (fillPosition _ _ _ _ _) as [positions' action].
  destruct (if opening action then _ else _) as [[[trades' oo] newQuantity]|];
    [|discriminate].
  destruct oo as [orders|]; [|discriminate].
  destruct (match newQuantity with Some _ => _ | None => _ end) as [orders' calls'].
  intros [= <-] Hne. cbn [openOrders]. now apply lookup_settled_ne.
Qed.

Lemma ensureOrders_other symbol s symbol' :
  symbol <> symbol' ->
  openOrders (ensureOrders symbol s) !! symbol' = openOrders s !! symbol'.
Proof.
  intros Hne. unfold ensureOrders.
  destruct (openOrders s !! symbol); cbn; [reflexivity|now rewrite lookup_insert_ne].
Qed.

Lemma execute_settled s order price s' :
  execute h s order price = Some s' ->
  openOrders s' !! keyOf (ord_symbol order) <> Some [].
Proof.
  unfold execute. destruct (fillPosition _ _ _ _ _) as [positions' action].
  destruct (if opening action then _ else _) as [[[trades' oo] newQuantity]|];
    [|discriminate].
  destruct oo as [orders|]; [|discriminate].
  destruct (match newQuantity with Some _ => _ | None => _ end) as [orders' calls'].
  intros [= <-]. cbn [openOrders].
  destruct orders'; [now rewrite lookup_delete_eq|now rewrite lookup_insert_eq].
Qed.

(** X8: a placeOrder call that completes never leaves an empty open-order
    list behind under a symbol whose list it has created or changed: the
    list it makes for a market order is deleted again once the fill leaves
    it empty. *)
Theorem placeOrder_no_empty_list tfc s request s' calls symbol :
  placeOrder h tfc s request = Some (s', calls) ->
  openOrders s' !! symbol = Some [] ->
  openOrders s !! symbol = Some [].
Proof.
  intros Hp Hempty.
  destruct (placeOrder_inv _ _ _ _ _ Hp) as [(order & _ & He)|(_ & _ & Hnew)].
  - destruct (String.eqb_spec (keyOf (ord_symbol order)) symbol) as [<-|Hne].
    + now apply execute_settled in He.
    + now rewrite <- Hempty, (execute_orders_other _ _ _ _ symbol He Hne),
        ensureOrders_other.
  - destruct Hnew as (symbol0 & new & Hne & Ho). rewrite Ho in Hempty.
    destruct (String.eqb_spec symbol0 symbol) as [<-|Hne'].
    + rewrite lookup_insert_eq in Hempty. injection Hempty as Hempty.
      apply app_eq_nil in Hempty as [_ ?]. contradiction.
    + now rewrite lookup_insert_ne in Hempty.
Qed.

End MoreExecute.

Section MoreCancel.

Context (h : Host).

(** *** cancelOrder *)

Lemma cancelIn_unmentioned id orders lots :
  existsb (fun o => looseEq id (ord_id o) || idEqOco h id (ord_oco o)) orders = false ->
  cancelIn h id orders lots = Some (orders, lots).
Proof.
  induction orders as [|o rest IH]; cbn [existsb cancelIn]; [reflexivity|].
  intros [[Hid Hoco]%orb_false_elim Hrest]%orb_false_elim.
  now rewrite Hid, Hoco, (IH Hrest).
Qed.

Lemma cancelSymbol_unmentioned id s symbol orders :
  openOrders s !! symbol = Some orders ->
  existsb (fun o => looseEq id (ord_id o) || idEqOco h id (ord_oco o)) orders = false ->
  cancelSymbol h id s symbol = Some s.
Proof.
  intros Ho Hun. unfold cancelSymbol. rewrite Ho, (cancelIn_unmentioned _ _ _ Hun).
  destruct s as [b p t oo n]. cbn in *. f_equal. f_equal.
  - destruct (t !! symbol) eqn:E; [now rewrite insert_id|reflexivity].
  - now rewrite insert_id.
Qed.

Lemma cancelOver_unmentioned id s (entries : list (string * list Order)) :
  (forall symbol orders, (symbol, orders) ∈ entries ->
     openOrders s !! symbol = Some orders) ->
  existsb (fun entry =>
             existsb (fun o => looseEq id (ord_id o) || idEqOco h id (ord_oco o)) entry.2)
    entries = false ->
  cancelOver h id entries.*1 s = Some s.
Proof.
  induction entries as [|[symbol orders] rest IH]; cbn; [reflexivity|].
  intros Hin [Ho Hrest]%orb_false_elim.
  rewrite (cancelSymbol_unmentioned id s symbol orders); [|apply Hin; constructor|exact Ho].
  apply IH; [|exact Hrest]. intros symbol' orders' H'. apply Hin. now constructor.
Qed.

(** X9: cancelling an id that no open order has, and that no open order
    refers to as its [oco], changes nothing in the account and still calls
    [cb] once. *)
Theorem cancelOrder_unknown_id s order :
  mentionsId h (ord_id order) s = false ->
  cancelOrder h s order = Some (s, [cb0]).
Proof.
  intros Hun. unfold cancelOrder, symbolsOf.
  rewrite (cancelOver_unmentioned (ord_id order) s (map_to_list (openOrders s)));
    [reflexivity| |exact Hun].
  intros symbol orders. apply elem_of_map_to_list.
Qed.

Lemma survivors_app id l1 l2 :
  survivors h id (l1 ++ l2) = (survivors h id l1 ++ survivors h id l2)%list.
Proof. unfold survivors. now rewrite List.filter_app, map_app. Qed.

(** X10: after an OCO pair is placed, cancelling its first leg removes that
    leg only: the second leg stays the last open order of the symbol, with
    its id, and with its [oco] set to [null]. *)
Theorem placeOrder_pair_then_cancel tfc s a b rest s1 calls1 order s2 calls2 :
  placeOrder h tfc s (Many (a :: b :: rest)) = Some (s1, calls1) ->
  uniqueID h (idcalls s) <> uniqueID h (S (idcalls s)) ->
  ord_id order = Some (uniqueID h (idcalls s)) ->
  cancelOrder h s1 order = Some (s2, calls2) ->
  openOrders s2 !! keyOf (ord_symbol a)
  = Some (survivors h (ord_id order) (default [] (openOrders s !! keyOf (ord_symbol a)))
          ++ [withOco (Some OcoNull) (withId (Some (uniqueID h (S (idcalls s)))) b)])%list.
Proof.
  unfold placeOrder, cancelOrder. intros [= <- _] Hfresh Hid Hc.
  destruct (cancelOver h (ord_id order) _ _) as [s2'|] eqn:E; [|discriminate].
  injection Hc as <- _.
  destruct (cancelOver_same h _ _ (keyOf (ord_symbol a))
              (default [] (openOrders s !! keyOf (ord_symbol a))
               ++ [withOco (Some (OcoId (uniqueID h (S (idcalls s)))))
                     (withId (Some (uniqueID h (idcalls s))) a);
                   withOco (Some (OcoId (uniqueID h (idcalls s))))
                     (withId (Some (uniqueID h (S (idcalls s)))) b)])%list
              _ _ (symbolsOf_NoDup _) ltac:(apply symbolsOf_In; cbn [openOrders drawIds];
                                            rewrite pushOrders_ensure, lookup_insert_eq; eauto)
              E) as [Ho _].
  { cbn [openOrders drawIds]. now rewrite pushOrders_ensure, lookup_insert_eq. }
  rewrite Ho, survivors_app. do 2 f_equal.
  unfold survivors. rewrite Hid. cbn [List.filter withOco withId ord_id looseEq].
  rewrite String.eqb_refl. cbn [negb].
  apply String.eqb_neq in Hfresh. rewrite Hfresh. cbn [negb map].
  unfold sever. cbn [ord_oco idEqOco withOco]. rewrite String.eqb_refl. reflexivity.
Qed.

Lemma unprotect_same_lots o lots lots' :
  unprotect o lots = Some lots' ->
  map (tradeWithProtect None) lots' = map (tradeWithProtect None) lots.
Proof.
  revert lots'. induction lots as [|lot rest IH]; intros lots'; cbn [unprotect].
  - now intros [= <-].
  - destruct (looseEq (Some (trd_id lot)) (ord_tradeid o)).
    + destruct (trd_protect lot); [|discriminate]. now intros [= <-].
    + destruct (unprotect o rest) as [rest'|]; [|discriminate].
      intros [= <-]. cbn. now rewrite (IH rest').
Qed.

Lemma unprotectAll_same_lots cancelled : forall lots lots',
  unprotectAll cancelled lots = Some lots' ->
  map (tradeWithProtect None) <$> lots' = map (tradeWithProtect None) <$> lots.
Proof.
  induction cancelled as [|o rest IH]; intros lots lots'; cbn [unprotectAll].
  - now intros [= <-].
  - destruct (unprotectLinked o lots) as [lots1|] eqn:E; [|discriminate].
    intros H1%IH. rewrite H1. unfold unprotectLinked in E.
    destruct (truthyS (ord_tradeid o)); [|now injection E as <-].
    destruct lots as [l|]; [|now injection E as <-].
    destruct (unprotect o l) as [l'|] eqn:Hu; [|discriminate].
    injection E as <-. cbn. f_equal. eapply unprotect_same_lots, Hu.
Qed.

(** X11: a cancelOrder call that completes never touches a position or a
    balance, and leaves every lot of every symbol as it was but for its
    [protect] object: no lot is added, removed, reordered or resized. *)
Theorem cancelOrder_keeps_lots s order s' calls :
  cancelOrder h s order = Some (s', calls) ->
  positions s' = positions s
  /\ balances s' = balances s
  /\ forall symbol,
       map (tradeWithProtect None) <$> trades s' !! symbol
       = map (tradeWithProtect None) <$> trades s !! symbol.
Proof.
  unfold cancelOrder. intros Hc.
  destruct (cancelOver h (ord_id order) (symbolsOf s) s) as [s1|] eqn:E; [|discriminate].
  injection Hc as <- _.
  destruct (cancelOver_frame _ _ _ _ _ E) as (Hb & Hp & _).
  split; [exact Hp|]. split; [exact Hb|]. intros symbol.
  destruct (openOrders s !! symbol) as [orders|] eqn:Ho.
  - destruct (cancelOver_same h _ _ symbol orders _ _ (symbolsOf_NoDup s)
                (proj2 (symbolsOf_In s symbol) (ex_intro _ _ Ho)) E Ho) as [_ Hall].
    now apply unprotectAll_same_lots in Hall.
  - destruct (cancelOver_other _ _ _ symbol _ _ E) as [_ ->]; [|reflexivity].
    rewrite symbolsOf_In, Ho. now intros [? ?].
Qed.

End MoreCancel.

Section MoreReplaceClose.

(** *** replaceOrder *)

Lemma reprotect_same_lots o lots lots' :
  reprotect o lots = Some lots' ->
  map (tradeWithProtect None) lots' = map (tradeWithProtect None) lots.
Proof.
  revert lots'. induction lots as [|lot rest IH]; intros lots'; cbn [reprotect].
  - now intros [= <-].
  - destruct (looseEq (Some (trd_id lot)) (ord_tradeid o)).
    + destruct (truthyQ (ord_stop o)); [|destruct (truthyQ (ord_limit o))];
        try (destruct (trd_protect lot); [|discriminate]); now intros [= <-].
    + destruct (reprotect o rest) as [rest'|]; [|discriminate].
      intros [= <-]. cbn. now rewrite (IH rest').
Qed.

Lemma replaceIn_spec order orders : forall lots r,
  replaceIn order orders lots = Some r ->
  match r with
  | None => existsb (fun o => looseEq (rep_id order) (ord_id o)) orders = false
  | Some (orders', lots') =>
      existsb (fun o => looseEq (rep_id order) (ord_id o)) orders = true
      /\ map ord_id orders' = map ord_id orders
      /\ map (tradeWithProtect None) <$> lots' = map (tradeWithProtect None) <$> lots
  end.
Proof.
  induction orders as [|o rest IH]; intros lots r; cbn [replaceIn existsb].
  - now intros [= <-].
  - destruct (looseEq (rep_id order) (ord_id o)).
    + destruct (rep_oto order) as [oto|]; [|discriminate].
      cbn [ord_tradeid ord_stop ord_limit].
      destruct (truthyS (ord_tradeid o)).
      * destruct lots as [l|]; [|now intros [= <-]].
        destruct (reprotect _ l) as [l'|] eqn:E; [|discriminate].
        intros [= <-]. repeat split. cbn. f_equal. eapply reprotect_same_lots, E.
      * now intros [= <-].
    + destruct (replaceIn order rest lots) as [[[rest' lots']|]|] eqn:E; [| |discriminate].
      * intros [= <-]. destruct (IH _ _ E) as (? & ? & ?). cbn. repeat split; congruence.
      * intros [= <-]. exact (IH _ _ E).
Qed.

Lemma replaceOver_spec order s (entries : list (string * list Order)) s' calls :
  (forall symbol orders, (symbol, orders) ∈ entries ->
     openOrders s !! symbol = Some orders) ->
  replaceOver order entries.*1 s = Some (s', calls) ->
  calls = (if existsb (fun entry =>
                         existsb (fun o => looseEq (rep_id order) (ord_id o)) entry.2)
                entries
           then [cb0] else [])
  /\ positions s' = positions s
  /\ balances s' = balances s
  /\ (forall symbol,
        map ord_id <$> openOrders s' !! symbol = map ord_id <$> openOrders s !! symbol)
  /\ (forall symbol,
        map (tradeWithProtect None) <$> trades s' !! symbol
        = map (tradeWithProtect None) <$> trades s !! symbol).
Proof.
  induction entries as [|[symbol orders] rest IH]; cbn [fmap list_fmap replaceOver existsb].
  - now intros _ [= <- <-].
  - intros Hin. cbn [fst snd]. rewrite (Hin symbol orders) by constructor.
    cbn [default from_option id].
    destruct (replaceIn order orders (trades s !! symbol)) as [[[orders' lots']|]|] eqn:E;
      [| |discriminate].
    + destruct (replaceIn_spec _ _ _ _ E) as (-> & Hids & Hlots).
      intros [= <- <-]. cbn. repeat split.
      * intros symbol'. destruct (decide (symbol = symbol')) as [<-|Hne].
        -- rewrite lookup_insert_eq, (Hin symbol orders) by constructor. cbn. now f_equal.
        -- now rewrite lookup_insert_ne.
      * intros symbol'. destruct lots' as [l|]; [|reflexivity].
        destruct (decide (symbol = symbol')) as [<-|Hne].
        -- now rewrite lookup_insert_eq.
        -- now rewrite lookup_insert_ne.
    + rewrite (replaceIn_spec _ _ _ _ E). cbn [orb].
      apply IH. intros symbol' orders' H'. apply Hin. now constructor.
Qed.

(** X12: a replaceOrder call that completes has called [cb] exactly once
    when some open order has the id of the request, and not at all when
    none has. *)
Theorem replaceOrder_callback s order s' calls :
  replaceOrder s order = Some (s', calls) ->
  calls = if knownId (rep_id order) s then [cb0] else [].
Proof.
  unfold replaceOrder, symbolsOf, knownId. intros Hr.
  eapply replaceOver_spec in Hr as (-> & _); [reflexivity|].
  intros symbol orders. apply elem_of_map_to_list.
Qed.

(** X13: a replaceOrder call that completes never touches a position or a
    balance, keeps under every symbol the same open orders by id and in the
    same order, and leaves every lot as it was but for its [protect]
    object. *)
Theorem replaceOrder_keeps s order s' calls :
  replaceOrder s order = Some (s', calls) ->
  positions s' = positions s
  /\ balances s' = balances s
  /\ (forall symbol,
        map ord_id <$> openOrders s' !! symbol = map ord_id <$> openOrders s !! symbol)
  /\ (forall symbol,
        map (tradeWithProtect None) <$> trades s' !! symbol
        = map (tradeWithProtect None) <$> trades s !! symbol).
Proof.
  unfold replaceOrder, symbolsOf. intros Hr.
  eapply replaceOver_spec in Hr as (_ & Hrest); [exact Hrest|].
  intros symbol orders. apply elem_of_map_to_list.
Qed.

(** *** closePosition *)

Lemma filter_protections lot lots orders :
  List.filter (fun o => negb (protectsAny lots o))
    (List.filter (fun o => negb (protects lot o)) orders)
  = List.filter (fun o => negb (protectsAny (lot :: lots) o)) orders.
Proof.
  induction orders as [|o rest IH]; [reflexivity|].
  cbn [List.filter protectsAny existsb].
  destruct (protects lot o); cbn [negb orb List.filter]; [exact IH|].
  fold (protectsAny lots o). destruct (protectsAny lots o); cbn [negb]; now rewrite IH.
Qed.

Lemma dropProtections_filter lots : forall orders,
  dropProtections lots (Some orders)
  = Some (List.filter (fun o => negb (protectsAny lots o)) orders).
Proof.
  induction lots as [|lot rest IH]; intros orders; cbn [dropProtections].
  - f_equal. induction orders as [|o os IHo]; [reflexivity|]. cbn. now f_equal.
  - now rewrite IH, filter_protections.
Qed.

Lemma dropProtections_none lots : dropProtections lots None = None.
Proof. induction lots; [reflexivity|assumption]. Qed.

(** X14: closePosition removes, of the open orders of the symbol, exactly
    those whose tradeid is the id of one of the symbol's lots, and keeps the
    rest in their order (an order linked to an unknown trade stays, and an
    emptied list stays in place); the position and the trade list of the
    symbol are deleted, and no other symbol is touched. *)
Theorem closePosition_orders s position lots :
  trades s !! keyOf (pos_symbol position) = Some lots ->
  exists s',
    closePosition s position = Some (s', [cb0])
    /\ positions s' = delete (keyOf (pos_symbol position)) (positions s)
    /\ trades s' = delete (keyOf (pos_symbol position)) (trades s)
    /\ balances s' = balances s
    /\ openOrders s' !! keyOf (pos_symbol position)
       = List.filter (fun o => negb (protectsAny lots o))
           <$> openOrders s !! keyOf (pos_symbol position)
    /\ forall symbol, keyOf (pos_symbol position) <> symbol ->
         openOrders s' !! symbol = openOrders s !! symbol.
Proof.
  intros Hlots. unfold closePosition. rewrite Hlots.
  eexists. split; [reflexivity|]. cbn. repeat split.
  - destruct (openOrders s !! keyOf (pos_symbol position)) as [orders|] eqn:Ho.
    + now rewrite dropProtections_filter, lookup_insert_eq.
    + now rewrite dropProtections_none, Ho.
  - intros symbol Hne. destruct (dropProtections lots _); [|reflexivity].
    now rewrite lookup_insert_ne.
Qed.

(** *** closeAllPositions *)

Lemma dropLinked_filter orders :
  dropLinked orders = List.filter (fun o => negb (truthyS (ord_tradeid o))) orders.
Proof.
  induction orders as [|o rest IH]; [reflexivity|]. cbn [dropLinked List.filter].
  destruct (truthyS (ord_tradeid o)); cbn [negb]; now rewrite IH.
Qed.

Lemma closeOver_other symbols : forall (oo : gmap string (list Order)) symbol,
  ~ In symbol symbols -> closeOver symbols oo !! symbol = oo !! symbol.
Proof.
  induction symbols as [|symbol0 rest IH]; intros oo symbol Hnin; [reflexivity|].
  cbn [closeOver]. rewrite IH by (intros ?; apply Hnin; now right).
  destruct (oo !! symbol0); [|reflexivity].
  apply lookup_insert_ne. intros ->. apply Hnin. now left.
Qed.

Lemma closeOver_same symbols : forall (oo : gmap string (list Order)) symbol,
  List.NoDup symbols -> In symbol symbols ->
  closeOver symbols oo !! symbol = dropLinked <$> oo !! symbol.
Proof.
  induction symbols as [|symbol0 rest IH]; intros oo symbol Hnd Hin; [destruct Hin|].
  cbn [closeOver]. inversion Hnd as [|? ? Hnin Hnd']; subst.
  destruct (String.eqb_spec symbol0 symbol) as [->|Hne].
  - rewrite closeOver_other by exact Hnin.
    destruct (oo !! symbol) eqn:E; [now rewrite lookup_insert_eq|now rewrite E].
  - destruct Hin as [?|Hin]; [contradiction|]. rewrite IH by assumption.
    destruct (oo !! symbol0); [now rewrite lookup_insert_ne|reflexivity].
Qed.

Lemma closeOver_lookup s symbol :
  closeOver (symbolsOf s) (openOrders s) !! symbol
  = List.filter (fun o => negb (truthyS (ord_tradeid o))) <$> openOrders s !! symbol.
Proof.
  destruct (openOrders s !! symbol) as [orders|] eqn:Ho.
  - rewrite closeOver_same, Ho; [cbn; now rewrite dropLinked_filter|apply symbolsOf_NoDup|].
    apply symbolsOf_In. eauto.
  - rewrite closeOver_other, Ho; [reflexivity|].
    rewrite symbolsOf_In, Ho. now intros [? ?].
Qed.

(** X15: closeAllPositions always completes and calls [cb] once; it empties
    positions and trades, and under every symbol keeps exactly the open
    orders without a tradeid, in their order.  A symbol all of whose open
    orders were linked to a trade keeps an empty list. *)
Theorem closeAllPositions_orders s :
  exists s',
    closeAllPositions s = Some (s', [cb0])
    /\ positions s' = ∅
    /\ trades s' = ∅
    /\ balances s' = balances s
    /\ forall symbol,
         openOrders s' !! symbol
         = List.filter (fun o => negb (truthyS (ord_tradeid o)))
             <$> openOrders s !! symbol.
Proof.
  eexists. split; [reflexivity|]. cbn. repeat split. apply closeOver_lookup.
Qed.

Lemma filter_idem {A} (f : A -> bool) l :
  List.filter f (List.filter f l) = List.filter f l.
Proof.
  induction l as [|x l IH]; [reflexivity|]. cbn.
  destruct (f x) eqn:E; cbn; [rewrite E; now f_equal|exact IH].
Qed.

(** X16: closeAllPositions is idempotent: a second call changes nothing in
    the account the first call has left. *)
Theorem closeAllPositions_idempotent s :
  exists s',
    closeAllPositions s = Some (s', [cb0])
    /\ closeAllPositions s' = Some (s', [cb0]).
Proof.
  eexists. split; [reflexivity|]. unfold closeAllPositions. cbn. do 3 f_equal.
  apply map_eq. intros symbol.
  set (s1 := mkAccount _ _ _ _ _).
  rewrite (closeOver_lookup s1). subst s1. cbn [openOrders].
  rewrite closeOver_lookup. destruct (openOrders s !! symbol); [|reflexivity].
  cbn. f_equal. apply filter_idem.
Qed.

End MoreReplaceClose.

Section MoreCloseTrade.

(** *** closeTrade *)

Lemma removeLot_linked id lots :
  lotsQuantity (removeLot id lots)
  = lotsQuantity lots
    - match linkedLot (Some id) lots with
      | Some lot => trd_quantity lot
      | None => 0
      end.
Proof.
  induction lots as [|lot rest IH]; [reflexivity|].
  cbn [removeLot linkedLot looseEq].
  destruct (String.eqb (trd_id lot) id).
  - rewrite lotsQuantity_cons. lia.
  - rewrite !lotsQuantity_cons, IH. lia.
Qed.

Lemma removeLot_unknown id lots :
  linkedLot (Some id) lots = None -> removeLot id lots = lots.
Proof.
  induction lots as [|lot rest IH]; [reflexivity|].
  cbn [removeLot linkedLot looseEq].
  destruct (String.eqb (trd_id lot) id); [discriminate|].
  intros H. now rewrite IH.
Qed.

Lemma closeTrade_inv s symbol trade s' calls :
  closeTrade s symbol trade = Some (s', calls) ->
  exists lots position,
    trades s !! keyOf symbol = Some lots
    /\ positions s !! keyOf symbol = Some position
    /\ trades s' = <[keyOf symbol := removeLot (trd_id trade) lots]> (trades s)
    /\ positionQuantity s' (keyOf symbol) = pos_quantity position - trd_quantity trade
    /\ (forall symbol', keyOf symbol <> symbol' ->
          positions s' !! symbol' = positions s !! symbol').
Proof.
  unfold closeTrade.
  destruct (trades s !! keyOf symbol) as [lots|]; [|discriminate].
  destruct (positions s !! keyOf symbol) as [position|]; [|discriminate].
  intros [= <- _]. exists lots, position. repeat split.
  - unfold positionQuantity. cbn [positions].
    destruct (Z.eqb_spec (pos_quantity position) (trd_quantity trade)).
    + rewrite lookup_delete_eq. lia.
    + now rewrite lookup_insert_eq.
  - intros symbol' Hne. cbn [positions].
    destruct (pos_quantity position =? trd_quantity trade);
      [now rewrite lookup_delete_ne|now rewrite lookup_insert_ne].
Qed.

(** X17: closeTrade faults exactly when the symbol has no trade list or no
    position; otherwise it completes and calls [cb]. *)
Theorem closeTrade_completes_iff s symbol trade :
  closeTrade s symbol trade = None
  <-> trades s !! keyOf symbol = None \/ positions s !! keyOf symbol = None.
Proof.
  unfold closeTrade.
  destruct (trades s !! keyOf symbol) as [lots|]; [|intuition].
  destruct (positions s !! keyOf symbol) as [position|]; [|intuition].
  split; [discriminate|]. intros [?|?]; discriminate.
Qed.

(** X18: for integer quantities within the range that doubles hold
    exactly (the magnitudes of the trade, of the position and of the lots
    of the symbol add up to at most 2^53): when the trade passed to
    closeTrade has the quantity of the lot it names (the first lot of its
    id), a call that completes leaves, for every symbol, the difference
    between the quantity of the position and the signed sum of the lots as
    it was. *)
Theorem closeTrade_keeps_gap s symbol trade s' calls lots lot :
  closeTrade s symbol trade = Some (s', calls) ->
  exactQuantities s (keyOf symbol) (trd_quantity trade) ->
  trades s !! keyOf symbol = Some lots ->
  linkedLot (Some (trd_id trade)) lots = Some lot ->
  trd_quantity lot = trd_quantity trade ->
  forall symbol', quantityGap s' symbol' = quantityGap s symbol'.
Proof.
  intros Hc _ Hlots Hlot Hq symbol'.
  destruct (closeTrade_inv _ _ _ _ _ Hc) as (lots0 & position & Hl0 & Hp & Ht & Hpq & Hother).
  rewrite Hlots in Hl0. injection Hl0 as <-.
  unfold quantityGap. destruct (String.eqb_spec (keyOf symbol) symbol') as [<-|Hne].
  - rewrite Hpq. unfold tradesQuantity, positionQuantity.
    rewrite Ht, lookup_insert_eq, Hlots, Hp, removeLot_linked, Hlot. lia.
  - unfold positionQuantity, tradesQuantity.
    now rewrite (Hother _ Hne), Ht, lookup_insert_ne.
Qed.

(** X19: closeTrade does not check that the trade is one of the lots: with
    an id that no lot of the symbol has, a call that completes leaves the
    lots as they are and still takes the quantity of the trade off the
    position. *)
Theorem closeTrade_unknown_lot s symbol trade s' calls lots :
  closeTrade s symbol trade = Some (s', calls) ->
  trades s !! keyOf symbol = Some lots ->
  linkedLot (Some (trd_id trade)) lots = None ->
  trades s' !! keyOf symbol = Some lots
  /\ positionQuantity s' (keyOf symbol)
     = positionQuantity s (keyOf symbol) - trd_quantity trade.
Proof.
  intros Hc Hlots Hnone.
  destruct (closeTrade_inv _ _ _ _ _ Hc) as (lots0 & position & Hl0 & Hp & Ht & Hpq & _).
  rewrite Hlots in Hl0. injection Hl0 as <-. split.
  - now rewrite Ht, lookup_insert_eq, removeLot_unknown.
  - rewrite Hpq. unfold positionQuantity. now rewrite Hp.
Qed.

(** X20: closing the only lot of a position with closeTrade does what
    closePosition does to the positions and to the open orders, but leaves
    the symbol with an empty trade list where closePosition leaves none. *)
Theorem closeTrade_last_lot s symbol lot position closing :
  trades s !! keyOf symbol = Some [lot] ->
  positions s !! keyOf symbol = Some position ->
  pos_quantity position = trd_quantity lot ->
  pos_symbol closing = symbol ->
  exists s1 s2,
    closeTrade s symbol lot = Some (s1, [cb0])
    /\ closePosition s closing = Some (s2, [cb0])
    /\ positions s1 = positions s2
    /\ openOrders s1 = openOrders s2
    /\ balances s1 = balances s2
    /\ trades s1 !! keyOf symbol = Some []
    /\ trades s2 !! keyOf symbol = None.
Proof.
  intros Hlots Hpos Hq <-. unfold closeTrade, closePosition.
  rewrite Hlots, Hpos, Hq, Z.eqb_refl.
  eexists _, _. split; [reflexivity|]. split; [reflexivity|]. cbn.
  rewrite String.eqb_refl, lookup_insert_eq, lookup_delete_eq. repeat split.
  destruct (openOrders s !! keyOf (pos_symbol closing)) as [orders|]; reflexivity.
Qed.

End MoreCloseTrade.

(** ** The further properties at work on the demo account *)



Lemma execute_partial_close_witness :
  exists s',
    execute sampleHost accountWithProtectedShort (ticket "SPY" "buy" 100 None None None) 187
    = Some s'
    /\ trd_quantity <$> default [] (trades accountWithProtectedShort !! "SPY") = [-700; -300]
    /\ ord_quantity <$> default [] (openOrders accountWithProtectedShort !! "SPY")
       = [700; 700]
    /\ trd_quantity <$> default [] (trades s' !! "SPY") = [-600; -300]
    /\ ord_quantity <$> default [] (openOrders s' !! "SPY") = [800; 800].
Proof.
  destruct (execute sampleHost accountWithProtectedShort
              (ticket "SPY" "buy" 100 None None None) 187) as [s'|] eqn:E;
    [|vm_compute in E; discriminate].
  exists s'. split; [reflexivity|].
  split; [vm_compute; reflexivity|]. split; [vm_compute; reflexivity|].
  destruct (execute_partial_close sampleHost accountWithProtectedShort
              (ticket "SPY" "buy" 100 None None None) 187 s'
              [] lotSPY1 [lotSPY2] E) as [Ht Ho];
    try (vm_compute; reflexivity).
  change (keyOf (ord_symbol (ticket "SPY" "buy" 100 None None None))) with "SPY" in *.
  rewrite Ht, Ho. split; vm_compute; reflexivity.
Defined.


Lemma execute_bracket_witness :
  exists s',
    execute sampleHost demoAccount bracketBuy 24.11 = Some s'
    /\ ord_id <$> default [] (openOrders s' !! "TSLA")
       = [Some "3"; Some "T1A"; Some "T1B"]
    /\ ord_tradeid <$> default [] (openOrders s' !! "TSLA")
       = [None; Some "T0"; Some "T0"].
Proof.
  destruct (execute_bracket sampleHost demoAccount bracketBuy 24.11
              [mkOrder None (Some "TSLA") "sell" 100 (Some 26%Q) None None "GTC" None None
                 None (Some OcoTrue) None;
               mkOrder None (Some "TSLA") "sell" 100 None (Some 22%Q) None "GTC" None None
                 None (Some OcoTrue) None]
              26 22
              [resting "3" None "buy" 10 (Some 170%Q) None "DAY" None None None])
    as (s' & lot & a & b & He & _); try (vm_compute; reflexivity).
  { vm_compute. discriminate. }
  exists s'. split; [exact He|].
  vm_compute in He. injection He as <-. split; vm_compute; reflexivity.
Defined.

Lemma execute_round_trip_witness :
  exists s1 s2,
    execute sampleHost demoAccount (ticket "TSLA" "buy" 100 None None None) 24.11 = Some s1
    /\ execute sampleHost s1 (ticket "TSLA" "sell" 100 None None None) 25 = Some s2
    /\ positions s2 !! "TSLA" = None
    /\ trades s2 !! "TSLA" = None.
Proof.
  destruct (execute sampleHost demoAccount (ticket "TSLA" "buy" 100 None None None) 24.11)
    as [s1|] eqn:E1; [|vm_compute in E1; discriminate].
  destruct (execute sampleHost s1 (ticket "TSLA" "sell" 100 None None None) 25)
    as [s2|] eqn:E2.
  2: { vm_compute in E1. injection E1 as <-. vm_compute in E2. discriminate. }
  destruct (execute_round_trip sampleHost demoAccount
              (ticket "TSLA" "buy" 100 None None None) 24.11
              (ticket "TSLA" "sell" 100 None None None) 25 s1 s2)
    as (Hp & Ht); try reflexivity; try assumption.
  { cbn. lia. }
  exists s1, s2. repeat split; assumption.
Defined.

Lemma placeOrder_keeps_gap_witness :
  exists s',
    placeOrder sampleHost sampleQuote demoAccount
      (One (ticket "IBM" "sell" 400 None None None)) = Some (s', [cb0])
    /\ exactQuantities demoAccount "IBM" 400
    /\ quantityGap s' "IBM" = 0.
Proof.
  destruct (placeOrder sampleHost sampleQuote demoAccount
              (One (ticket "IBM" "sell" 400 None None None)))
    as [[s' calls]|] eqn:E; [|vm_compute in E; discriminate].
  exists s'. split; [|split; [vm_compute; discriminate|]].
  - vm_compute in E. injection E as <- <-. reflexivity.
  - rewrite (placeOrder_keeps_gap sampleHost sampleQuote demoAccount _ s' calls "IBM" E).
    + vm_compute. reflexivity.
    + intros order [= <-]. vm_compute. discriminate.
Defined.

Lemma placeOrder_no_empty_list_witness :
  exists s',
    placeOrder sampleHost sampleQuote accountWithEmptyList
      (One (ticket "IBM" "buy" 10 (Some 100%Q) None None)) = Some (s', [cb0])
    /\ openOrders s' !! "TSLA" = Some []
    /\ openOrders accountWithEmptyList !! "TSLA" = Some [].
Proof.
  destruct (placeOrder sampleHost sampleQuote accountWithEmptyList
              (One (ticket "IBM" "buy" 10 (Some 100%Q) None None)))
    as [[s' calls]|] eqn:E; [|vm_compute in E; discriminate].
  assert (openOrders s' !! "TSLA" = Some []) as Hempty
    by (vm_compute in E; injection E as <- _; vm_compute; reflexivity).
  exists s'. split; [|split; [exact Hempty|]].
  - vm_compute in E. injection E as <- <-. reflexivity.
  - exact (placeOrder_no_empty_list sampleHost sampleQuote accountWithEmptyList _ s' calls
             "TSLA" E Hempty).
Defined.

Lemma cancelOrder_unknown_id_witness :
  mentionsId sampleHost (Some "42") demoAccount = false
  /\ cancelOrder sampleHost demoAccount
       (resting "42" None "sell" 100 None None "GTC" None None None)
     = Some (demoAccount, [cb0]).
Proof.
  split; [vm_compute; reflexivity|].
  apply (cancelOrder_unknown_id sampleHost demoAccount
           (resting "42" None "sell" 100 None None "GTC" None None None)).
  vm_compute. reflexivity.
Defined.

Lemma placeOrder_pair_then_cancel_witness :
  exists s1 s2,
    placeOrder sampleHost sampleQuote demoAccount
      (Many [ticket "TSLA" "buy" 10 None (Some 190%Q) None;
             ticket "TSLA" "sell" 10 None (Some 150%Q) None]) = Some (s1, [cb0])
    /\ cancelOrder sampleHost s1
         (resting "T0" None "buy" 10 None (Some 190%Q) "DAY" None None None)
       = Some (s2, [cb0])
    /\ ord_id <$> default [] (openOrders s2 !! "TSLA") = [Some "3"; Some "T1"]
    /\ ord_oco <$> default [] (openOrders s2 !! "TSLA") = [None; Some OcoNull].
Proof.
  destruct (placeOrder sampleHost sampleQuote demoAccount
              (Many [ticket "TSLA" "buy" 10 None (Some 190%Q) None;
                     ticket "TSLA" "sell" 10 None (Some 150%Q) None]))
    as [[s1 calls1]|] eqn:E1; [|vm_compute in E1; discriminate].
  destruct (cancelOrder sampleHost s1
              (resting "T0" None "buy" 10 None (Some 190%Q) "DAY" None None None))
    as [[s2 calls2]|] eqn:E2.
  2: { vm_compute in E1. injection E1 as <- _. vm_compute in E2. discriminate. }
  pose proof (placeOrder_pair_then_cancel sampleHost sampleQuote demoAccount _ _ [] s1 calls1
                (resting "T0" None "buy" 10 None (Some 190%Q) "DAY" None None None)
                s2 calls2 E1) as Ho.
  change (keyOf (ord_symbol (ticket "TSLA" "buy" 10 None (Some 190%Q) None)))
    with "TSLA" in Ho.
  exists s1, s2. rewrite Ho; [| vm_compute; discriminate | reflexivity | exact E2 ].
  repeat split; try (vm_compute; reflexivity).
  - vm_compute in E1. injection E1 as <- <-. reflexivity.
  - vm_compute in E1. injection E1 as <- _. vm_compute in E2. injection E2 as <- <-.
    reflexivity.
Defined.

Lemma cancelOrder_keeps_lots_witness :
  exists s',
    cancelOrder sampleHost demoAccount
      (resting "10" None "sell" 300 None (Some 135%Q) "GTC" None None None)
    = Some (s', [cb0])
    /\ positions s' = positions demoAccount
    /\ map (tradeWithProtect None) <$> trades s' !! "IBM"
       = Some [tradeWithProtect None lotIBM1; lotIBM2; lotIBM3].
Proof.
  destruct (cancelOrder sampleHost demoAccount
              (resting "10" None "sell" 300 None (Some 135%Q) "GTC" None None None))
    as [[s' calls]|] eqn:E; [|vm_compute in E; discriminate].
  destruct (cancelOrder_keeps_lots sampleHost demoAccount _ s' calls E) as (Hp & _ & Hl).
  exists s'. split; [|split; [exact Hp|]].
  - vm_compute in E. injection E as <- <-. reflexivity.
  - rewrite (Hl "IBM"). vm_compute. reflexivity.
Defined.

Lemma replaceOrder_callback_witness :
  exists s',
    replaceOrder demoAccount (replaceLimit "1" 198 400) = Some (s', [cb0])
    /\ knownId (Some "1") demoAccount = true.
Proof.
  destruct (replaceOrder demoAccount (replaceLimit "1" 198 400))
    as [[s' calls]|] eqn:E; [|vm_compute in E; discriminate].
  exists s'. split; [|vm_compute; reflexivity].
  now rewrite (replaceOrder_callback demoAccount (replaceLimit "1" 198 400) s' calls E).
Defined.

Lemma replaceOrder_keeps_witness :
  exists s' calls,
    replaceOrder demoAccount (replaceLimit "3" 165 20) = Some (s', calls)
    /\ positions s' = positions demoAccount
    /\ map ord_id <$> openOrders s' !! "TSLA" = Some [Some "3"].
Proof.
  destruct (replaceOrder demoAccount (replaceLimit "3" 165 20))
    as [[s' calls]|] eqn:E; [|vm_compute in E; discriminate].
  destruct (replaceOrder_keeps demoAccount (replaceLimit "3" 165 20) s' calls E)
    as (Hp & _ & Ho & _).
  exists s', calls. split; [reflexivity|]. split; [exact Hp|].
  rewrite (Ho "TSLA"). vm_compute. reflexivity.
Defined.

Lemma closePosition_orders_witness :
  exists s',
    closePosition demoAccount (mkPosition 1000 126.13 129.13 123.13 (Some "USD") (Some "IBM"))
    = Some (s', [cb0])
    /\ trades demoAccount !! "IBM" = Some [lotIBM1; lotIBM2; lotIBM3]
    /\ ord_id <$> default [] (openOrders s' !! "IBM") = [Some "1"; Some "2"].
Proof.
  destruct (closePosition_orders demoAccount
              (mkPosition 1000 126.13 129.13 123.13 (Some "USD") (Some "IBM"))
              [lotIBM1; lotIBM2; lotIBM3])
    as (s' & Hc & _ & _ & _ & Ho & _); [vm_compute; reflexivity|].
  exists s'. split; [exact Hc|]. split; [vm_compute; reflexivity|].
  change (keyOf (pos_symbol (mkPosition 1000 126.13 129.13 123.13 (Some "USD") (Some "IBM"))))
    with "IBM" in Ho.
  rewrite Ho. vm_compute. reflexivity.
Defined.

Lemma closeTrade_keeps_gap_witness :
  exists s',
    closeTrade demoAccount (Some "IBM") lotIBM2 = Some (s', [cb0])
    /\ exactQuantities demoAccount "IBM" 600
    /\ linkedLot (Some "IBM002") [lotIBM1; lotIBM2; lotIBM3] = Some lotIBM2
    /\ quantityGap s' "IBM" = 0
    /\ positionQuantity s' "IBM" = 400.
Proof.
  destruct (closeTrade demoAccount (Some "IBM") lotIBM2) as [[s' calls]|] eqn:E;
    [|vm_compute in E; discriminate].
  assert (exactQuantities demoAccount "IBM" 600) as Hexact by (vm_compute; discriminate).
  pose proof (closeTrade_keeps_gap demoAccount (Some "IBM") lotIBM2 s' calls
                [lotIBM1; lotIBM2; lotIBM3] lotIBM2 E Hexact) as Hgap.
  exists s'. split; [|split; [exact Hexact|split; [vm_compute; reflexivity|split]]].
  - vm_compute in E. injection E as <- <-. reflexivity.
  - rewrite Hgap; vm_compute; reflexivity.
  - vm_compute in E. injection E as <- _. vm_compute. reflexivity.
Defined.

Lemma closeTrade_unknown_lot_witness :
  exists s',
    closeTrade demoAccount (Some "IBM")
      (mkTrade "IBM999" 0 250 125 129.13 (Some "USD") None) = Some (s', [cb0])
    /\ trades s' !! "IBM" = Some [lotIBM1; lotIBM2; lotIBM3]
    /\ positionQuantity s' "IBM" = 750.
Proof.
  destruct (closeTrade demoAccount (Some "IBM")
              (mkTrade "IBM999" 0 250 125 129.13 (Some "USD") None))
    as [[s' calls]|] eqn:E; [|vm_compute in E; discriminate].
  destruct (closeTrade_unknown_lot demoAccount (Some "IBM")
              (mkTrade "IBM999" 0 250 125 129.13 (Some "USD") None) s' calls
              [lotIBM1; lotIBM2; lotIBM3] E) as [Ht Hq];
    try (vm_compute; reflexivity).
  exists s'. split; [|split; [exact Ht|]].
  - vm_compute in E. injection E as <- <-. reflexivity.
  - change (keyOf (Some "IBM")) with "IBM" in Hq. rewrite Hq. vm_compute. reflexivity.
Defined.

Lemma closeTrade_last_lot_witness :
  exists s1 s2,
    closeTrade demoAccount (Some "GE") lotGE = Some (s1, [cb0])
    /\ closePosition demoAccount
         (mkPosition 100 26.11 24.11 26.11 (Some "USD") (Some "GE")) = Some (s2, [cb0])
    /\ positions s1 = positions s2
    /\ openOrders s1 = openOrders s2
    /\ trades s1 !! "GE" = Some []
    /\ trades s2 !! "GE" = None.
Proof.
  destruct (closeTrade_last_lot demoAccount (Some "GE") lotGE
              (mkPosition 100 26.11 24.11 26.11 (Some "USD") None)
              (mkPosition 100 26.11 24.11 26.11 (Some "USD") (Some "GE")))
    as (s1 & s2 & H1 & H2 & Hp & Ho & _ & Ht1 & Ht2); try (vm_compute; reflexivity).
  exists s1, s2. repeat split; assumption.
Defined.

(** ** The order ticket *)

Section Ticket.

(** X21: for integer quantities within the range that doubles hold
    exactly (the magnitudes of the position and of the lots of the symbol
    add up to at most 2^53): closing a lot through the ticket passes the
    lot itself to closeTrade, so that a close that completes leaves, for
    every symbol, the difference between the quantity of the position and
    the signed sum of the lots as it was (and does nothing when no lot has
    the id). *)
Theorem placeClose_lot_keeps_gap s symbol id quantity s' raised lots :
  TFC.placeClose s symbol id quantity = Some (s', raised) ->
  exactQuantities s (keyOf symbol) 0 ->
  truthyS id = true ->
  trades s !! keyOf symbol = Some lots ->
  forall symbol', quantityGap s' symbol' = quantityGap s symbol'.
Proof.
  unfold TFC.placeClose. intros Hc _ Hid Hlots symbol'. rewrite Hid, Hlots in Hc.
  destruct (linkedLot id lots) as [lot|] eqn:Hlot; [|now injection Hc as <- _].
  destruct (closeTrade s symbol lot) as [[s1 calls]|] eqn:E; [|discriminate].
  injection Hc as <- _.
  destruct (closeTrade_inv _ _ _ _ _ E) as (lots0 & position & Hl0 & Hp & Ht & Hpq & Hother).
  rewrite Hlots in Hl0. injection Hl0 as <-.
  assert (linkedLot (Some (trd_id lot)) lots = Some lot) as Hself.
  { clear -Hlot. induction lots as [|l rest IH]; [discriminate|].
    cbn [linkedLot] in *. destruct (looseEq (Some (trd_id l)) id) eqn:El.
    - injection Hlot as ->. cbn. now rewrite String.eqb_refl.
    - destruct (looseEq (Some (trd_id l)) (Some (trd_id lot))) eqn:El'; [|now apply IH].
      cbn in El'. apply String.eqb_eq in El'.
      assert (looseEq (Some (trd_id lot)) id = true) as Hlid.
      { clear -Hlot. induction rest as [|r rest IH]; [discriminate|]. cbn [linkedLot] in Hlot.
        destruct (looseEq (Some (trd_id r)) id) eqn:Er; [now injection Hlot as <-|auto]. }
      rewrite <- El' in Hlid. congruence. }
  unfold quantityGap. destruct (String.eqb_spec (keyOf symbol) symbol') as [<-|Hne].
  - rewrite Hpq. unfold tradesQuantity, positionQuantity.
    rewrite Ht, lookup_insert_eq, Hlots, Hp, removeLot_linked, Hself. lia.
  - unfold positionQuantity, tradesQuantity.
    now rewrite (Hother _ Hne), Ht, lookup_insert_ne.
Qed.

(** X22: on an account that keeps no trade list for the symbol, closing a
    position of the size of the order through the ticket never completes:
    the ticket hands the position to closePosition, which faults. *)
Theorem placeClose_without_lots s symbol id quantity position :
  trades s !! keyOf symbol = None ->
  positions s !! keyOf symbol = Some position ->
  Z.abs (pos_quantity position) = Z.abs quantity ->
  TFC.placeClose s symbol id quantity = None.
Proof.
  intros Hlots Hpos Hq. unfold TFC.placeClose. rewrite Hlots, Hpos.
  destruct (truthyS id); cbn [TFC.markPosition pos_quantity];
    rewrite Hq, Z.eqb_refl; unfold closePosition; cbn [pos_symbol trades TFC.markPosition];
    now rewrite Hlots.
Qed.

Lemma reconcileOrders_unlinked legs ids tradeid n orders :
  forallb (fun o => negb (looseEq (ord_tradeid o) tradeid)) orders = true ->
  TFC.reconcileOrders legs ids tradeid n orders = Some (orders, n).
Proof.
  induction orders as [|o rest IH]; cbn [forallb TFC.reconcileOrders]; [reflexivity|].
  intros [Ho Hrest]%andb_prop. apply negb_true_iff in Ho. now rewrite Ho, (IH Hrest).
Qed.

Lemma linkedLot_protectLots tradeid legs lots lot' :
  linkedLot tradeid (TFC.protectLots tradeid legs lots) = Some lot' ->
  trd_protect lot' = Some (TFC.legsProtect legs).
Proof.
  induction lots as [|lot rest IH]; cbn [TFC.protectLots map linkedLot]; [discriminate|].
  destruct (looseEq (Some (trd_id lot)) tradeid) eqn:E.
  - cbn [trd_id tradeWithProtect]. rewrite E. now intros [= <-].
  - rewrite E. exact IH.
Qed.

(** X23: protecting, through the ticket, a lot that no open order of the
    chart's symbol is linked to yet, with a bracket of two legs: every lot
    of that id gets a [protect] object from the legs, and the two legs are
    appended to the open orders of the symbol under the ids setProtection
    has made, each with the id of the other as [oco]; no alert is raised,
    positions and balances stay. *)
Theorem placeProtection_new_bracket chartSymbol s a b lots :
  truthyS (ord_tradeid a) = true ->
  trades s !! keyOf chartSymbol = Some lots ->
  forallb (fun o => negb (looseEq (ord_tradeid o) (ord_tradeid a)))
    (default [] (openOrders s !! keyOf chartSymbol)) = true ->
  exists s',
    TFC.placeProtection chartSymbol s [a; b] = Some (s', [])
    /\ trades s' !! keyOf chartSymbol
       = Some (TFC.protectLots (ord_tradeid a) [a; b] lots)
    /\ (forall lot', linkedLot (ord_tradeid a) (default [] (trades s' !! keyOf chartSymbol))
                     = Some lot' ->
                     trd_protect lot' = Some (TFC.legsProtect [a; b]))
    /\ openOrders s' !! keyOf chartSymbol
       = Some (default [] (openOrders s !! keyOf chartSymbol)
               ++ [withOco (Some (OcoId (protectionId b)))
                     (withId (Some (protectionId a)) a);
                   withOco (Some (OcoId (protectionId a)))
                     (withId (Some (protectionId b)) b)])%list
    /\ positions s' = positions s
    /\ balances s' = balances s.
Proof.
  intros _ Hlots Hfresh.
  unfold TFC.placeProtection, setProtection. cbn [foldl map].
  unfold TFC.protectionPlaced. cbn [cb_result TFC.idsOf head mbind option_bind].
  rewrite Hlots, (reconcileOrders_unlinked _ _ _ _ _ Hfresh).
  eexists. split; [reflexivity|]. cbn [trades openOrders positions balances].
  rewrite !lookup_insert_eq. repeat split.
  intros lot'. cbn [default from_option id]. apply linkedLot_protectLots.
Qed.

End Ticket.

Lemma placeClose_lot_keeps_gap_witness :
  exists s',
    TFC.placeClose demoAccount (Some "IBM") (Some "IBM003") 100 = Some (s', [])
    /\ exactQuantities demoAccount "IBM" 0
    /\ quantityGap s' "IBM" = 0
    /\ positionQuantity s' "IBM" = 900.
Proof.
  destruct (TFC.placeClose demoAccount (Some "IBM") (Some "IBM003") 100)
    as [[s' raised]|] eqn:E; [|vm_compute in E; discriminate].
  assert (exactQuantities demoAccount "IBM" 0) as Hexact by (vm_compute; discriminate).
  pose proof (placeClose_lot_keeps_gap demoAccount (Some "IBM") (Some "IBM003") 100 s' raised
                [lotIBM1; lotIBM2; lotIBM3] E Hexact eq_refl eq_refl "IBM") as Hgap.
  exists s'. split; [|split; [exact Hexact|split]].
  - vm_compute in E. injection E as <- <-. reflexivity.
  - rewrite Hgap. vm_compute. reflexivity.
  - vm_compute in E. injection E as <- _. vm_compute. reflexivity.
Defined.

Lemma placeClose_without_lots_witness :
  trades accountWithoutLots !! "GE" = None
  /\ TFC.placeClose accountWithoutLots (Some "GE") None 100 = None.
Proof.
  split; [vm_compute; reflexivity|].
  apply (placeClose_without_lots accountWithoutLots (Some "GE") None 100
           (mkPosition 100 26.11 24.11 26.11 (Some "USD") None));
    vm_compute; reflexivity.
Defined.

Lemma placeProtection_new_bracket_witness :
  exists s',
    TFC.placeProtection (Some "IBM") accountWithoutOrders TFC.bracketIBM = Some (s', [])
    /\ ord_id <$> default [] (openOrders s' !! "IBM") = [Some "IBM001|L"; Some "IBM001|S"]
    /\ trd_protect <$> default [] (trades s' !! "IBM")
       = [Some (mkProtect (Some 170%Q) (Some 130%Q)); None; None].
Proof.
  destruct (placeProtection_new_bracket (Some "IBM") accountWithoutOrders
              (mkOrder None (Some "IBM") "sell" 300 (Some 170%Q) None None "GTC" None
                 (Some "IBM001") None (Some OcoTrue) None)
              (mkOrder None (Some "IBM") "sell" 300 None (Some 130%Q) None "GTC" None
                 (Some "IBM001") None (Some OcoTrue) None)
              [lotIBM1; lotIBM2; lotIBM3])
    as (s' & Hp & Ht & _ & Ho & _); try (vm_compute; reflexivity).
  exists s'. split; [exact Hp|].
  change (keyOf (Some "IBM")) with "IBM" in *. rewrite Ho, Ht.
  split; vm_compute; reflexivity.
Defined.
